(** * steam-download-monitor: the log state engine, the manifest reader,
      the active-game resolver and the sample compositor

    A shallow embedding of [steam_monitor/parser.py],
    [steam_monitor/game_finder.py] and [steam_monitor/monitor.py].

    Conventions of the embedding.
    - Text is ASCII: a file is a [string] whose characters are its bytes, so
      that an offset returned by [f.tell()] is an index into it.
    - A [datetime] is an integer count of microseconds since 0001-01-01
      00:00:00 (naive, as in the source); [timedelta.total_seconds()] is
      compared with a bound in seconds exactly, on the microsecond count.
    - A Python [float] is an exact rational ([Q]): rounding is idealised.
    - Line 170 of parser.py raises [ValueError] on a line whose [AppID]
      token has more than 4300 digits, and nothing catches it.  Such a line
      is outside the embedding, which passes over it: a refresh is followed
      where it returns.
    - Python's [re] module is an interface ([PyRe]); a backtracking
      implementation of it for the constructs the patterns of the source use
      is given as an instance, and the examples run on it. *)

From Stdlib Require Import ZArith QArith Lia String Ascii List Permutation.
From stdpp Require Import base option list strings gmap pretty sorting.

Open Scope string_scope.
Open Scope list_scope.
Open Scope Z_scope.

(** ** Python built-ins used by the source *)

Module Py.

Definition ord (c : ascii) : Z := Z.of_nat (nat_of_ascii c).

Definition chr (n : Z) : ascii := ascii_of_nat (Z.to_nat n).

Definition is_digit (c : ascii) : bool := (48 <=? ord c) && (ord c <=? 57).

(** [str.isspace] on ASCII: tab, LF, VT, FF, CR, FS, GS, RS, US, space. *)
Definition is_space (c : ascii) : bool :=
  ((9 <=? ord c) && (ord c <=? 13)) || ((28 <=? ord c) && (ord c <=? 32)).

Definition lower_char (c : ascii) : ascii :=
  if (65 <=? ord c) && (ord c <=? 90) then chr (ord c + 32) else c.

(** [s.lower()] *)
Fixpoint lower (s : string) : string :=
  match s with
  | EmptyString => EmptyString
  | String c s' => String (lower_char c) (lower s')
  end.

Fixpoint lstrip (s : string) : string :=
  match s with
  | EmptyString => EmptyString
  | String c s' => if is_space c then lstrip s' else s
  end.

Fixpoint rev_onto (s acc : string) : string :=
  match s with
  | EmptyString => acc
  | String c s' => rev_onto s' (String c acc)
  end.

Definition rev (s : string) : string := rev_onto s EmptyString.

Definition rstrip (s : string) : string := rev (lstrip (rev s)).

(** [s.strip()] *)
Definition strip (s : string) : string := rstrip (lstrip s).

(** [s[n:]] *)
Fixpoint drop (n : nat) (s : string) : string :=
  match n, s with
  | O, _ => s
  | S n', EmptyString => EmptyString
  | S n', String _ s' => drop n' s'
  end.

(** [s[:n]] *)
Fixpoint take (n : nat) (s : string) : string :=
  match n, s with
  | O, _ => EmptyString
  | S n', EmptyString => EmptyString
  | S n', String c s' => String c (take n' s')
  end.

(** [s.startswith(p)]; the rest of [s] when it does. *)
Fixpoint strip_prefix (p s : string) : option string :=
  match p, s with
  | EmptyString, _ => Some s
  | String a p', String b s' =>
      if Ascii.eqb a b then strip_prefix p' s' else None
  | String _ _, EmptyString => None
  end.

(** Line boundaries of [str.splitlines] on ASCII text:
    LF, CR, CR LF, VT, FF, FS, GS, RS. *)
Definition is_linebreak (c : ascii) : bool :=
  ((10 <=? ord c) && (ord c <=? 13)) || ((28 <=? ord c) && (ord c <=? 30)).

Fixpoint splitlines_from (s : string) (cur : string) (prev_cr : bool)
  : list string :=
  match s with
  | EmptyString =>
      match cur with EmptyString => [] | _ => [rev cur] end
  | String c s' =>
      if is_linebreak c then
        if (ord c =? 10) && prev_cr
        then splitlines_from s' EmptyString false
        else rev cur :: splitlines_from s' EmptyString (ord c =? 13)
      else splitlines_from s' (String c cur) false
  end.

(** [s.splitlines()] *)
Definition splitlines (s : string) : list string :=
  splitlines_from s EmptyString false.

(** Digits of a decimal literal, single underscores allowed between
    digits, as [int] accepts them. *)
Fixpoint int_digits (s : string) (acc : Z) (prev_digit : bool) : option Z :=
  match s with
  | EmptyString => if prev_digit then Some acc else None
  | String c s' =>
      if is_digit c then int_digits s' (10 * acc + (ord c - 48)) true
      else if (ord c =? 95) && prev_digit then int_digits s' acc false
      else None
  end.

(** The number of decimal digits in a text. *)
Fixpoint count_digits (s : string) : Z :=
  match s with
  | EmptyString => 0
  | String c s' => (if is_digit c then 1 else 0) + count_digits s'
  end.

(** [sys.int_info.default_max_str_digits]: CPython converts no text of
    more digits to an integer. *)
Definition MAX_STR_DIGITS : Z := 4300.

(** [int(s)]: [None] stands for [ValueError], which is raised for a text
    that is no literal and for a literal of more than [MAX_STR_DIGITS]
    digits (the sign and the underscores are not counted). *)
Definition int (s : string) : option Z :=
  if MAX_STR_DIGITS <? count_digits s then None
  else
    match strip s with
    | String c s' =>
        if ord c =? 45 then Z.opp <$> int_digits s' 0 false
        else if ord c =? 43 then int_digits s' 0 false
        else int_digits (String c s') 0 false
    | EmptyString => None
    end.

(** [str(n)] for an integer. *)
Definition str (n : Z) : string := pretty n.

(** [float(s)] on the text that [[\d.]+] can capture: digits with at most
    one point and at least one digit; [None] stands for [ValueError].
    [num] collects the digits, [scale] the power of ten after the point.
    The number is the one written, where Python takes the nearest
    double. *)
Fixpoint float_digits (s : string) (num : Z) (scale : positive)
    (seen_point seen_digit : bool) : option Q :=
  match s with
  | EmptyString => if seen_digit then Some (num # scale) else None
  | String c s' =>
      if is_digit c then
        float_digits s' (10 * num + (ord c - 48))
          (if seen_point then (10 * scale)%positive else scale)
          seen_point true
      else if (ord c =? 46) && negb seen_point then
        float_digits s' num scale true seen_digit
      else None
  end.

Definition float (s : string) : option Q := float_digits s 0 1%positive false false.

(** [s.replace(old, new)] for a non-empty [old]: every occurrence, left
    to right, not overlapping. *)
Fixpoint replace (old new s : string) : string :=
  match s with
  | EmptyString => EmptyString
  | String c s' =>
      match strip_prefix old s with
      | Some rest =>
          match old with
          | EmptyString => String c (replace old new s')
          | String _ _ =>
              (* the recursion continues after the occurrence *)
              new +:+ (fix skip (k : nat) (t : string) {struct t} : string :=
                         match k, t with
                         | O, _ => replace old new t
                         | S k', String _ t' => skip k' t'
                         | S _, EmptyString => EmptyString
                         end) (String.length old - 1)%nat s'
          end
      | None => String c (replace old new s')
      end
  end.

(** [sorted(l, key=key)] and [l.sort(key=key)]: stable, ascending.  An
    element is put before the first one of the sorted rest whose key is not
    smaller, so equal keys keep the order they had in [l]. *)
Section Sorting.
Context {A : Type} (key : A -> Z).

Fixpoint insert_asc (x : A) (l : list A) : list A :=
  match l with
  | [] => [x]
  | y :: l' => if key x <=? key y then x :: l else y :: insert_asc x l'
  end.

Definition sorted (l : list A) : list A := foldr insert_asc [] l.

(** [sorted(l, key=key, reverse=True)]: stable, descending. *)
Fixpoint insert_desc (x : A) (l : list A) : list A :=
  match l with
  | [] => [x]
  | y :: l' => if key y <=? key x then x :: l else y :: insert_desc x l'
  end.

Definition sorted_reverse (l : list A) : list A := foldr insert_desc [] l.
End Sorting.

(** *** [datetime] *)

Definition is_leap (y : Z) : bool :=
  (y mod 4 =? 0) && (negb (y mod 100 =? 0) || (y mod 400 =? 0)).

Definition days_in_month (y m : Z) : Z :=
  if m =? 2 then (if is_leap y then 29 else 28)
  else if (m =? 4) || (m =? 6) || (m =? 9) || (m =? 11) then 30
  else 31.

Definition days_before_year (y : Z) : Z :=
  let p := y - 1 in p * 365 + p / 4 - p / 100 + p / 400.

Fixpoint days_before_month_from (y : Z) (m : nat) : Z :=
  match m with
  | O => 0
  | S m' => days_before_month_from y m' + days_in_month y (Z.of_nat m)
  end.

Definition days_before_month (y m : Z) : Z :=
  days_before_month_from y (Z.to_nat (m - 1)).

Definition microsecond : Z := 1.
Definition second : Z := 1000000.

(** [datetime(y, mo, d, h, mi, s)], counted in microseconds from
    0001-01-01 00:00:00; [None] stands for [ValueError]. *)
Definition datetime (y mo d h mi s : Z) : option Z :=
  if (1 <=? y) && (y <=? 9999) && (1 <=? mo) && (mo <=? 12)
     && (1 <=? d) && (d <=? days_in_month y mo)
     && (0 <=? h) && (h <=? 23) && (0 <=? mi) && (mi <=? 59)
     && (0 <=? s) && (s <=? 59)
  then
    let days := days_before_year y + days_before_month y mo + (d - 1) in
    Some ((((days * 24 + h) * 60 + mi) * 60 + s) * second)
  else None.

Fixpoint digits (n : nat) (s : string) (acc : Z) : option (Z * string) :=
  match n with
  | O => Some (acc, s)
  | S n' =>
      match s with
      | String c s' =>
          if is_digit c then digits n' s' (10 * acc + (ord c - 48)) else None
      | EmptyString => None
      end
  end.

Definition expect (c : Z) (s : string) : option string :=
  match s with
  | String a s' => if ord a =? c then Some s' else None
  | EmptyString => None
  end.

(** [datetime.strptime(s, "%Y-%m-%d %H:%M:%S")] on the text that the
    timestamp pattern [\d{4}-\d{2}-\d{2}\s+\d{2}:\d{2}:\d{2}] captures: four
    and two digit fields, any white space between date and time. *)
Definition strptime (s : string) : option Z :=
  '(y, s) ← digits 4 s 0;
  s ← expect 45 s;
  '(mo, s) ← digits 2 s 0;
  s ← expect 45 s;
  '(d, s) ← digits 2 s 0;
  match s with
  | String c s' =>
      if is_space c then
        '(h, s) ← digits 2 (lstrip s') 0;
        s ← expect 58 s;
        '(mi, s) ← digits 2 s 0;
        s ← expect 58 s;
        '(sec, s) ← digits 2 s 0;
        match s with
        | EmptyString => datetime y mo d h mi sec
        | String _ _ => None
        end
      else None
  | EmptyString => None
  end.

(** [(d).total_seconds() > n] and [(d).total_seconds() <= n] for a
    difference [d] of two datetimes, in microseconds. *)
Definition total_seconds_gt (d n : Z) : bool := n * second <? d.
Definition total_seconds_le (d n : Z) : bool := d <=? n * second.

End Py.

(** ** Python's [re] module

    The source only calls [re.search], [re.findall], [re.finditer] and
    [Pattern.search], and reads the groups of the match.  The interface
    below gives [search]; the others are derived from it.  A match holds
    the offsets of the matched text, the text of each numbered group and
    the numbers of the named groups. *)

Module Re.

Record re_match := {
  m_start : nat;
  m_end : nat;
  m_groups : list (nat * string);
  m_names : list (string * nat)
}.

Fixpoint assoc {A B : Type} (eqb : A -> A -> bool) (k : A) (l : list (A * B))
  : option B :=
  match l with
  | [] => None
  | (k', v) :: l' => if eqb k k' then Some v else assoc eqb k l'
  end.

(** [m.group(i)] for a group that took part in the match. *)
Definition group (m : re_match) (i : nat) : string :=
  default EmptyString (assoc Nat.eqb i (m_groups m)).

(** [m.group(name)] *)
Definition group_named (m : re_match) (name : string) : string :=
  match assoc String.eqb name (m_names m) with
  | Some i => group m i
  | None => EmptyString
  end.

(** [re.search(pattern, text, flags)]: the first argument tells whether
    [re.IGNORECASE] is set. *)
Class PyRe := { search : bool -> string -> string -> option re_match }.

Section Derived.
Context `{PyRe}.

(** The successive matches of a pattern that matches no empty text: each
    search resumes where the previous match ended. *)
Fixpoint finditer_from (fuel : nat) (pattern text : string) : list re_match :=
  match fuel with
  | O => []
  | S fuel' =>
      match search false pattern text with
      | None => []
      | Some m =>
          m :: finditer_from fuel' pattern (Py.drop (Nat.max 1 (m_end m)) text)
      end
  end.

(** [re.finditer(pattern, text)] *)
Definition finditer (pattern text : string) : list re_match :=
  finditer_from (S (String.length text)) pattern text.

(** [re.findall(pattern, text)] for a pattern with one group. *)
Definition findall (pattern text : string) : list string :=
  map (fun m => group m 1) (finditer pattern text).
End Derived.

(** *** A backtracking matcher

    The syntax covers what the patterns of the source are written with:
    literals, [.], [\d], [\s], escaped characters, classes without
    ranges, groups (numbered, named, non-capturing), alternation and the
    quantifiers [*], [+], [?], [{n}], greedy or lazy. *)

Inductive catom :=
| CLit (c : ascii)
| CAny
| CDigit
| CSpace.

Inductive cset :=
| COne (a : catom)
| CClass (negated : bool) (items : list catom).

Inductive regex :=
| Empty
| Chr (cs : cset)
| Seq (r1 r2 : regex)
| Alt (r1 r2 : regex)
| Repeat (r : regex) (min : nat) (max : option nat) (greedy : bool)
| Group (index : nat) (r : regex).

Definition catom_test (ic : bool) (a : catom) (x : ascii) : bool :=
  match a with
  | CLit c =>
      if ic then Ascii.eqb (Py.lower_char c) (Py.lower_char x)
      else Ascii.eqb c x
  | CAny => negb (Py.ord x =? 10)
  | CDigit => Py.is_digit x
  | CSpace => Py.is_space x
  end.

Definition cset_test (ic : bool) (cs : cset) (x : ascii) : bool :=
  match cs with
  | COne a => catom_test ic a x
  | CClass negated items =>
      xorb negated (existsb (fun a => catom_test ic a x) items)
  end.

(** What is left of the text after a match, and the groups set so far. *)
Definition outcome : Type := string * list (nat * string).

Definition consumed (s rest : string) : string :=
  Py.take (String.length s - String.length rest) s.

(** The ways to match a repeated expression, best first.  [step] matches
    the expression once; an iteration that consumes nothing is dropped. *)
Fixpoint rep (step : string -> list (nat * string) -> list outcome)
    (greedy : bool) (fuel min : nat) (max : option nat)
    (s : string) (caps : list (nat * string)) : list outcome :=
  match fuel with
  | O => []
  | S fuel' =>
      let stop := match min with O => [(s, caps)] | S _ => [] end in
      let more :=
        match max with
        | Some O => []
        | _ =>
            flat_map
              (fun o : outcome =>
                 if (String.length (fst o) <? String.length s)%nat
                 then rep step greedy fuel' (Nat.pred min) (Nat.pred <$> max)
                        (fst o) (snd o)
                 else [])
              (step s caps)
        end in
      if greedy then more ++ stop else stop ++ more
  end.

(** The ways to match [r] at the start of [s], best first. *)
Fixpoint run (ic : bool) (r : regex) (s : string) (caps : list (nat * string))
  : list outcome :=
  match r with
  | Empty => [(s, caps)]
  | Chr cs =>
      match s with
      | String x s' => if cset_test ic cs x then [(s', caps)] else []
      | EmptyString => []
      end
  | Seq r1 r2 => flat_map (fun o : outcome => run ic r2 (fst o) (snd o)) (run ic r1 s caps)
  | Alt r1 r2 => run ic r1 s caps ++ run ic r2 s caps
  | Repeat r' min max greedy =>
      rep (run ic r') greedy (S (String.length s)) min max s caps
  | Group i r' =>
      map (fun o : outcome => (fst o, (i, consumed s (fst o)) :: snd o))
          (run ic r' s caps)
  end.

(** The leftmost match: the best one at the first offset that has any. *)
Fixpoint search_at (ic : bool) (r : regex) (names : list (string * nat))
    (whole : nat) (s : string) : option re_match :=
  match run ic r s [] with
  | o :: _ =>
      Some {| m_start := whole - String.length s;
              m_end := whole - String.length (fst o);
              m_groups := snd o;
              m_names := names |}
  | [] =>
      match s with
      | String _ s' => search_at ic r names whole s'
      | EmptyString => None
      end
  end.

(** *** Reading a pattern *)

Record pstate := { next_group : nat; names : list (string * nat) }.

Definition parsed : Type := regex * string * pstate.

(** An escape after the backslash. *)
Definition escape (c : ascii) : catom :=
  if Py.ord c =? 100 then CDigit
  else if Py.ord c =? 115 then CSpace
  else CLit c.

(** The items of a class, up to the closing bracket. *)
Fixpoint class_items (s : string) (escaped : bool) (acc : list catom)
  : option (list catom * string) :=
  match s with
  | EmptyString => None
  | String c s' =>
      if escaped then class_items s' false (acc ++ [escape c])%list
      else if Py.ord c =? 92 then class_items s' true acc
      else if Py.ord c =? 93 then Some (acc, s')
      else class_items s' false (acc ++ [CLit c])%list
  end.

(** The name of a group, up to [>]. *)
Fixpoint group_name (s : string) (acc : string) : option (string * string) :=
  match s with
  | EmptyString => None
  | String c s' =>
      if Py.ord c =? 62 then Some (Py.rev acc, s')
      else group_name s' (String c acc)
  end.

(** A quantifier after an atom, with its lazy mark. *)
Definition quantified (r : regex) (s : string) : regex * string :=
  let lazy (min : nat) (max : option nat) (s : string) :=
    match Py.strip_prefix "?" s with
    | Some s' => (Repeat r min max false, s')
    | None => (Repeat r min max true, s)
    end in
  match s with
  | String c s' =>
      if Py.ord c =? 42 then lazy O None s'
      else if Py.ord c =? 43 then lazy 1%nat None s'
      else if Py.ord c =? 63 then lazy O (Some 1%nat) s'
      else if Py.ord c =? 123 then
        match s' with
        | String d (String e s'') =>
            if Py.is_digit d && (Py.ord e =? 125) then
              let n := Z.to_nat (Py.ord d - 48) in
              lazy n (Some n) s''
            else (r, s)
        | _ => (r, s)
        end
      else (r, s)
  | EmptyString => (r, s)
  end.

Fixpoint parse_alt (fuel : nat) (s : string) (st : pstate) : option parsed :=
  match fuel with
  | O => None
  | S fuel' =>
      '(r1, s1, st1) ← parse_seq fuel' s st;
      match Py.strip_prefix "|" s1 with
      | Some s2 =>
          '(r2, s3, st3) ← parse_alt fuel' s2 st1;
          Some (Alt r1 r2, s3, st3)
      | None => Some (r1, s1, st1)
      end
  end
with parse_seq (fuel : nat) (s : string) (st : pstate) : option parsed :=
  match fuel with
  | O => None
  | S fuel' =>
      match s with
      | EmptyString => Some (Empty, s, st)
      | String c _ =>
          if (Py.ord c =? 41) || (Py.ord c =? 124) then Some (Empty, s, st)
          else
            '(r1, s1, st1) ← parse_atom fuel' s st;
            let '(q, s2) := quantified r1 s1 in
            '(r2, s3, st3) ← parse_seq fuel' s2 st1;
            Some (match r2 with Empty => q | _ => Seq q r2 end, s3, st3)
      end
  end
with parse_atom (fuel : nat) (s : string) (st : pstate) : option parsed :=
  match fuel with
  | O => None
  | S fuel' =>
      match s with
      | EmptyString => None
      | String c s' =>
          if Py.ord c =? 40 then
            (* a group: non-capturing, named or numbered *)
            match Py.strip_prefix "?:" s' with
            | Some s1 =>
                '(r, s2, st2) ← parse_alt fuel' s1 st;
                s3 ← Py.strip_prefix ")" s2;
                Some (r, s3, st2)
            | None =>
                let i := next_group st in
                '(s1, nm) ←
                  match Py.strip_prefix "?P<" s' with
                  | Some s0 =>
                      '(name, s1) ← group_name s0 EmptyString;
                      Some (s1, (names st ++ [(name, i)])%list)
                  | None => Some (s', names st)
                  end;
                '(r, s2, st2) ←
                  parse_alt fuel' s1 {| next_group := S i; names := nm |};
                s3 ← Py.strip_prefix ")" s2;
                Some (Group i r, s3, st2)
            end
          else if Py.ord c =? 91 then
            match Py.strip_prefix "^" s' with
            | Some s1 =>
                '(items, s2) ← class_items s1 false [];
                Some (Chr (CClass true items), s2, st)
            | None =>
                '(items, s2) ← class_items s' false [];
                Some (Chr (CClass false items), s2, st)
            end
          else if Py.ord c =? 92 then
            match s' with
            | String e s1 => Some (Chr (COne (escape e)), s1, st)
            | EmptyString => None
            end
          else if Py.ord c =? 46 then Some (Chr (COne CAny), s', st)
          else Some (Chr (COne (CLit c)), s', st)
      end
  end.

(** [re.compile(pattern)]: [None] for a pattern outside the syntax above. *)
Definition compile (pattern : string) : option (regex * list (string * nat)) :=
  match parse_alt (5 * String.length pattern + 5) pattern
          {| next_group := 1; names := [] |} with
  | Some (r, EmptyString, st) => Some (r, names st)
  | _ => None
  end.

(** [re.search] by backtracking. *)
Definition backtrack_search (ic : bool) (pattern text : string)
  : option re_match :=
  '(r, nm) ← compile pattern;
  search_at ic r nm (String.length text) text.

#[export] Instance backtracking : PyRe := {| search := backtrack_search |}.

End Re.

(** ** steam_monitor/models.py and steam_monitor/errors.py *)

Inductive exn := ValueError | OverflowError | OSError | ACFParseError.

(** The result of a call that may raise. *)
Inductive result (A : Type) :=
| Return (a : A)
| Raise (e : exn).
Arguments Return {A} a.
Arguments Raise {A} e.

Inductive DownloadState := DOWNLOADING | PAUSED | UNPACKING | IDLE.

Definition value (s : DownloadState) : string :=
  match s with
  | DOWNLOADING => "downloading"
  | PAUSED => "paused"
  | UNPACKING => "unpacking"
  | IDLE => "idle"
  end.

Record DownloadingGame := {
  app_id : Z;
  name : string;
  path : string
}.

Record DownloadSample := {
  timestamp : Z;
  speed_bytes_per_sec : Q;
  status : string;
  game : option DownloadingGame
}.

(** ** steam_monitor/parser.py *)

Definition _LINE_RE : string :=
  "\[(?P<ts>\d{4}-\d{2}-\d{2}\s+\d{2}:\d{2}:\d{2})\]\s+(?:Current\s+)?Download rate:\s+([\d.]+)\s*(KB/s|MB/s|Mbps)".

Definition PAUSE_PATTERNS : list string := [
  "(?P<ts>\d{4}-\d{2}-\d{2}\s+\d{2}:\d{2}:\d{2})\].*?AppID\s+(?P<app_id>\d+)\s+update\s+canceled";
  "(?P<ts>\d{4}-\d{2}-\d{2}\s+\d{2}:\d{2}:\d{2})\].*?AppID\s+(?P<app_id>\d+)\s+App update changed.*?Suspended";
  "(?P<ts>\d{4}-\d{2}-\d{2}\s+\d{2}:\d{2}:\d{2})\].*?AppID\s+(?P<app_id>\d+)\s+scheduler finished.*?Suspended";
  "(?P<ts>\d{4}-\d{2}-\d{2}\s+\d{2}:\d{2}:\d{2})\].*?AppID\s+(?P<app_id>\d+)\s+App update changed.*?Stopping"
].

Definition START_PATTERNS : list string := [
  "(?P<ts>\d{4}-\d{2}-\d{2}\s+\d{2}:\d{2}:\d{2})\].*?AppID\s+(?P<app_id>\d+)\s+update started";
  "(?P<ts>\d{4}-\d{2}-\d{2}\s+\d{2}:\d{2}:\d{2})\].*?AppID\s+(?P<app_id>\d+)\s+App update changed.*?Running Update.*?Downloading";
  "(?P<ts>\d{4}-\d{2}-\d{2}\s+\d{2}:\d{2}:\d{2})\].*?Downloading\s+\d+\s+chunks\s+from\s+depot\s+\d+.*?AppID\s+(?P<app_id>\d+)"
].

Definition NETWORK_PATTERNS : list string := [
  "(?P<ts>\d{4}-\d{2}-\d{2}\s+\d{2}:\d{2}:\d{2})\].*?AppID\s+(?P<app_id>\d+)\s+Increasing target number of download connections";
  "(?P<ts>\d{4}-\d{2}-\d{2}\s+\d{2}:\d{2}:\d{2})\].*?AppID\s+(?P<app_id>\d+)\s+Created download interface"
].

Definition DEPOT_PATTERNS : list string := [
  "Downloading\s+\d+\s+chunks\s+from\s+depot\s+(?P<depot_id>\d+).*?AppID\s+(?P<app_id>\d+)"
].

Definition MAX_AGE_SEC : Z := 180.
Definition PRUNE_AGE_SEC : Z := 3600.

(** The kind of a lifecycle event: the strings [pause], [start] and
    [network] of the source. *)
Inductive etype := pause | start | network.

Definition etype_eqb (a b : etype) : bool :=
  match a, b with
  | pause, pause | start, start | network, network => true
  | _, _ => false
  end.

(** An entry of [recent_events[app_id]]: [(ts, etype)]. *)
Abbreviation event := (Z * etype)%type (only parsing).

(** An entry of [rate_entries]: [(ts, app_id, rate_str)]. *)
Abbreviation rate_entry := (Z * Z * string)%type (only parsing).

(** *** A [dict] whose order of keys is observed

    [recent_events] is iterated ([items()], [list(d)]), so its keys are
    kept in insertion order, as Python keeps them. *)
Section Dict.
Context {V : Type}.

Fixpoint dict_get (d : list (Z * V)) (k : Z) : option V :=
  match d with
  | [] => None
  | (k', v) :: d' => if k =? k' then Some v else dict_get d' k
  end.

(** [d[k] = v] *)
Fixpoint dict_set (d : list (Z * V)) (k : Z) (v : V) : list (Z * V) :=
  match d with
  | [] => [(k, v)]
  | (k', v') :: d' =>
      if k =? k' then (k, v) :: d' else (k', v') :: dict_set d' k v
  end.

(** [d.setdefault(k, v)], for its effect on [d]. *)
Definition dict_setdefault (d : list (Z * V)) (k : Z) (v : V) : list (Z * V) :=
  match dict_get d k with
  | Some _ => d
  | None => dict_set d k v
  end.

(** [del d[k]] for a key of [d]. *)
Fixpoint dict_del (d : list (Z * V)) (k : Z) : list (Z * V) :=
  match d with
  | [] => []
  | (k', v') :: d' => if k =? k' then d' else (k', v') :: dict_del d' k
  end.

(** [list(d)] *)
Definition dict_keys (d : list (Z * V)) : list Z := map fst d.
End Dict.

(** The attributes of a [LogParser] that [_update_log_state] and the
    queries read and write. *)
Record LogParser := {
  last_pos : nat;
  latest_rate : option (Z * Q);
  recent_events : list (Z * list event);
  depot_to_app : gmap string string;
  rate_entries : list rate_entry
}.

Definition set_last_pos (p : nat) (self : LogParser) : LogParser :=
  {| last_pos := p; latest_rate := latest_rate self;
     recent_events := recent_events self; depot_to_app := depot_to_app self;
     rate_entries := rate_entries self |}.

Definition set_latest_rate (r : option (Z * Q)) (self : LogParser) : LogParser :=
  {| last_pos := last_pos self; latest_rate := r;
     recent_events := recent_events self; depot_to_app := depot_to_app self;
     rate_entries := rate_entries self |}.

Definition set_recent_events (d : list (Z * list event)) (self : LogParser)
  : LogParser :=
  {| last_pos := last_pos self; latest_rate := latest_rate self;
     recent_events := d; depot_to_app := depot_to_app self;
     rate_entries := rate_entries self |}.

Definition set_depot_to_app (m : gmap string string) (self : LogParser)
  : LogParser :=
  {| last_pos := last_pos self; latest_rate := latest_rate self;
     recent_events := recent_events self; depot_to_app := m;
     rate_entries := rate_entries self |}.

Definition set_rate_entries (l : list rate_entry) (self : LogParser)
  : LogParser :=
  {| last_pos := last_pos self; latest_rate := latest_rate self;
     recent_events := recent_events self; depot_to_app := depot_to_app self;
     rate_entries := l |}.

(** The state [__init__] sets before its first [_update_log_state]. *)
Definition init : LogParser :=
  {| last_pos := 0; latest_rate := None; recent_events := [];
     depot_to_app := ∅; rate_entries := [] |}.

(** What [_update_log_state] finds at [log_file]: no file; a file that
    cannot be opened, or whose size cannot be taken ([OSError] at lines
    89-91); a file of a known size whose reading then fails ([OSError] at
    lines 98-100 or 107-109); or its text. *)
Inductive log_file :=
| Missing
| Unreadable
| ReadFails (size : nat)
| Content (text : string).

Section LogParser.
Context `{Re.PyRe}.

(** How the body of the loop over the lines goes on after a block:
    [Next] falls through to the rest of the body, [Continue] is the
    statement [continue] (also taken by [except ValueError]). *)
Inductive flow := Next (self : LogParser) | Continue (self : LogParser).

(** Lines 135-142: the unit, already lower-cased, and the bytes per
    second. *)
Definition speed_bytes (unit : string) (value : Q) : option Q :=
  if String.eqb unit "kb/s" then Some (value * 1024)%Q
  else if String.eqb unit "mb/s" then Some (value * 1024 * 1024)%Q
  else if String.eqb unit "mbps" then Some (value * 1000000 / 8)%Q
  else None.

(** Lines 143-144. *)
Definition hold_rate (ts : Z) (speed : Q) (self : LogParser) : LogParser :=
  match latest_rate self with
  | None => set_latest_rate (Some (ts, speed)) self
  | Some (held, _) =>
      if held <? ts then set_latest_rate (Some (ts, speed)) self else self
  end.

(** Lines 146-155: the app a rate line belongs to, from its first
    [AppID] token, else from its first [depot] token and the mapping. *)
Definition owning_app (line : string) (self : LogParser) : result (option Z) :=
  match Re.findall "AppID\s+(\d+)" line with
  | a :: _ =>
      match Py.int a with
      | Some n => Return (Some n)
      | None => Raise ValueError
      end
  | [] =>
      match Re.findall "depot\s+(\d+)" line with
      | depot_id :: _ =>
          match depot_to_app self !! depot_id with
          | Some a =>
              match Py.int a with
              | Some n => Return (Some n)
              | None => Raise ValueError
              end
          | None => Return None
          end
      | [] => Return None
      end
  end.

(** Lines 126-159: the rate matcher. *)
Definition rate_matcher (now : Z) (line : string) (self : LogParser) : flow :=
  match Re.search true _LINE_RE line with
  | None => Next self
  | Some m =>
      let ts_str := Py.strip (Re.group_named m "ts") in
      match Py.strptime ts_str with
      | None => Continue self
      | Some ts =>
          if Py.total_seconds_gt (now - ts) MAX_AGE_SEC then Continue self
          else
            match Py.float (Re.group m 2) with
            | None => Continue self
            | Some value =>
                match speed_bytes (Py.lower (Re.group m 3)) value with
                | None => Continue self
                | Some speed =>
                    let self := hold_rate ts speed self in
                    match owning_app line self with
                    | Raise _ => Continue self
                    | Return None => Next self
                    | Return (Some app_id) =>
                        Next (set_rate_entries
                                (rate_entries self ++ [(ts, app_id, Re.group m 2)])
                                self)
                    end
                end
            end
      end
  end.

(** Lines 161-166: the depot matcher. *)
Definition depot_matcher (line : string) (self : LogParser) : LogParser :=
  foldl
    (fun self pattern =>
       match Re.search false pattern line with
       | Some m =>
           let depot_id := Re.group_named m "depot_id" in
           let app_id := Re.group_named m "app_id" in
           set_depot_to_app (<[depot_id := app_id]> (depot_to_app self)) self
       | None => self
       end)
    self DEPOT_PATTERNS.

(** Lines 118-123. *)
Definition all_patterns : list string :=
  PAUSE_PATTERNS ++ START_PATTERNS ++ NETWORK_PATTERNS.

Definition etypes : list etype :=
  replicate (length PAUSE_PATTERNS) pause
  ++ replicate (length START_PATTERNS) start
  ++ replicate (length NETWORK_PATTERNS) network.

(** Lines 181-187: the index of the first pattern that matches, the
    group [app_id] replaced by the number found on the line. *)
Fixpoint first_pattern (line : string) (app_id : Z) (idx : nat)
    (patterns : list string) : option nat :=
  match patterns with
  | [] => None
  | pattern :: rest =>
      match Re.search false
              (Py.replace "(?P<app_id>\d+)" (Py.str app_id) pattern) line with
      | Some _ => Some idx
      | None => first_pattern line app_id (S idx) rest
      end
  end.

(** [self.recent_events[app_id].append(e)] *)
Definition append_event (app_id : Z) (e : event) (self : LogParser)
  : LogParser :=
  match dict_get (recent_events self) app_id with
  | Some events =>
      set_recent_events (dict_set (recent_events self) app_id (events ++ [e])) self
  | None => self
  end.

(** Lines 168-189: the lifecycle matcher.  On the digits that the group
    of the pattern captures, [int] fails only when there are more than
    [MAX_STR_DIGITS] of them (shown among the lemmas, for the matcher of
    this file).  The source does not catch that [ValueError]: it ends the
    refresh and the query that asked for it.  The embedding does not
    follow a refresh that raises: it passes over such a line, as over a
    line without an [AppID]. *)
Definition lifecycle_matcher (now : Z) (line : string) (self : LogParser)
  : LogParser :=
  match Re.search false "AppID\s+(\d+)" line with
  | None => self
  | Some app_id_match =>
      match Py.int (Re.group app_id_match 1) with
      | None => self
      | Some app_id =>
          let self :=
            set_recent_events (dict_setdefault (recent_events self) app_id [])
              self in
          match Re.search false
                  "(?P<ts>\d{4}-\d{2}-\d{2}\s+\d{2}:\d{2}:\d{2})" line with
          | None => self
          | Some ts_match =>
              match Py.strptime (Re.group_named ts_match "ts") with
              | None => self
              | Some ts =>
                  if Py.total_seconds_gt (now - ts) PRUNE_AGE_SEC then self
                  else
                    match first_pattern line app_id 0 all_patterns with
                    | Some idx =>
                        match etypes !! idx with
                        | Some etype => append_event app_id (ts, etype) self
                        | None => self
                        end
                    | None => self
                    end
              end
          end
      end
  end.

(** Lines 125-189: the body of the loop, for one line. *)
Definition process_line (now : Z) (self : LogParser) (line : string)
  : LogParser :=
  match rate_matcher now line self with
  | Continue self => self
  | Next self => lifecycle_matcher now line (depot_matcher line self)
  end.

(** Lines 196-203: the events of one app, pruned. *)
Definition prune_app (now : Z) (d : list (Z * list event)) (app_id : Z)
  : list (Z * list event) :=
  match dict_get d app_id with
  | Some events =>
      let kept :=
        filter (fun e : event =>
                  Py.total_seconds_le (now - fst e) PRUNE_AGE_SEC = true)
               events in
      match kept with
      | [] => dict_del d app_id
      | _ => dict_set d app_id kept
      end
  | None => d
  end.

(** Lines 191-203. *)
Definition prune (now : Z) (self : LogParser) : LogParser :=
  let self :=
    set_rate_entries
      (filter (fun e : rate_entry =>
                 Py.total_seconds_le (now - fst (fst e)) PRUNE_AGE_SEC = true)
              (rate_entries self))
      self in
  set_recent_events
    (foldl (prune_app now) (recent_events self) (dict_keys (recent_events self)))
    self.

(** Lines 117-203: what follows the reading of the file. *)
Definition scan (now : Z) (lines : list string) (self : LogParser)
  : LogParser :=
  prune now (foldl (process_line now) self lines).

(** [LogParser._update_log_state]: [now] is the value of
    [dt.datetime.now()] at line 117. *)
Definition _update_log_state (self : LogParser) (file : log_file)
    (full_load : bool) (now : Z) : LogParser :=
  match file with
  | Missing => self
  | Unreadable => self
  | ReadFails current_size =>
      (* line 95 has been run when the read raises; line 113 returns *)
      let truncated := (current_size <? last_pos self)%nat in
      if truncated then set_last_pos 0 self else self
  | Content text =>
      let current_size := String.length text in
      let truncated := (current_size <? last_pos self)%nat in
      let full_load := full_load || truncated in
      let self := if truncated then set_last_pos 0 self else self in
      if full_load then
        let lines := Py.splitlines text in
        scan now lines
          {| last_pos := current_size; latest_rate := None;
             recent_events := []; depot_to_app := ∅; rate_entries := [] |}
      else
        let new_content := Py.drop (last_pos self) text in
        let self := set_last_pos current_size self in
        match Py.splitlines new_content with
        | [] => self
        | lines => scan now lines self
        end
  end.

(** [LogParser.__init__] *)
Definition __init__ (file : log_file) (now : Z) : LogParser :=
  _update_log_state init file true now.

(** [_read_file_with_retry]: [read attempt] is what the open and read of
    that attempt yield, the text or [None] for [PermissionError] or
    [OSError].  [remaining] counts what is left of [range(retries)]. *)
Fixpoint retry_loop (read : nat -> option string) (retries remaining attempt : nat)
  : option string :=
  match remaining with
  | O => None
  | S remaining' =>
      match read attempt with
      | Some content => Some content
      | None =>
          if (attempt <? retries - 1)%nat
          then retry_loop read retries remaining' (S attempt)
          else None
      end
  end.

Definition _read_file_with_retry (read : nat -> option string) (retries : nat)
  : option string :=
  retry_loop read retries retries 0.

Definition quote : string := String (ascii_of_nat 34) EmptyString.

(** The pattern of line 214: two quoted texts with white space between. *)
Definition ACF_RE : string :=
  quote +:+ "(\s*[^" +:+ quote +:+ "]+\s*)" +:+ quote +:+ "\s*"
  +:+ quote +:+ "(\s*[^" +:+ quote +:+ "]+\s*)" +:+ quote.

(** Lines 214-216. *)
Definition acf_pairs (content : string) : list (string * string) :=
  map (fun m => (Py.strip (Re.group m 1), Py.strip (Re.group m 2)))
      (Re.finditer ACF_RE content).

(** [LogParser.parse_acf] *)
Definition parse_acf (read : nat -> option string) : result (gmap string string) :=
  match _read_file_with_retry read 3 with
  | None => Raise ACFParseError
  | Some content =>
      Return (foldl (fun data kv => <[fst kv := snd kv]> data) ∅
                    (acf_pairs content))
  end.

(** [LogParser.build_depot_app_mapping] *)
Definition build_depot_app_mapping (self : LogParser) (file : log_file)
    (now_refresh : Z) : LogParser * gmap string string :=
  let self := _update_log_state self file false now_refresh in
  (self, depot_to_app self).

(** Lines 237-245 and 258-263: a pause event later than [ts] and not
    older than [MAX_AGE_SEC]. *)
Definition has_later_pause (now ts : Z) (events : list event) : bool :=
  existsb
    (fun e : event =>
       etype_eqb (snd e) pause && (ts <? fst e)
       && Py.total_seconds_le (now - fst e) MAX_AGE_SEC)
    events.

(** Lines 233-247: the loop over the rate entries, newest first. *)
Fixpoint rate_confirmed (now : Z) (recent : list (Z * list event))
    (entries : list rate_entry) : option Z :=
  match entries with
  | [] => None
  | (ts, app_id, _) :: rest =>
      if Py.total_seconds_le (now - ts) MAX_AGE_SEC then
        let events := default [] (dict_get recent app_id) in
        let all_events := Py.sorted fst events in
        if has_later_pause now ts all_events
        then rate_confirmed now recent rest
        else Some app_id
      else rate_confirmed now recent rest
  end.

(** Lines 250-265: one turn of the loop over [recent_events.items()]. *)
Definition active_step (now : Z) (active_apps : list (Z * Z))
    (item : Z * list event) : list (Z * Z) :=
  let '(app_id, events) := item in
  let sorted_events := Py.sorted fst events in
  match last sorted_events with
  | Some (latest_event_time, latest_event_type) =>
      if (etype_eqb latest_event_type start
          || etype_eqb latest_event_type network)
         && Py.total_seconds_le (now - latest_event_time) MAX_AGE_SEC
      then
        if has_later_pause now latest_event_time sorted_events
        then active_apps
        else active_apps ++ [(latest_event_time, app_id)]
      else active_apps
  | None => active_apps
  end.

(** Lines 230-269, on the state that the refresh left. *)
Definition most_recent_active (self : LogParser) (now : Z) : option Z :=
  let entries := Py.sorted_reverse (fun e : rate_entry => fst (fst e))
                   (rate_entries self) in
  match rate_confirmed now (recent_events self) entries with
  | Some app_id => Some app_id
  | None =>
      let active_apps := foldl (active_step now) [] (recent_events self) in
      match Py.sorted_reverse fst active_apps with
      | (_, app_id) :: _ => Some app_id
      | [] => None
      end
  end.

(** [LogParser.get_most_recent_active_download]: [now_refresh] is the
    clock at line 117, [now] the clock at line 230. *)
Definition get_most_recent_active_download (self : LogParser)
    (file : log_file) (now_refresh now : Z) : LogParser * option Z :=
  let self := _update_log_state self file false now_refresh in
  (self, most_recent_active self now).

(** Lines 274-281, on the state that the refresh left.  The list of the
    app is sorted in place. *)
Definition recent_pause (self : LogParser) (app_id : Z)
  : LogParser * option (Z * string) :=
  match default [] (dict_get (recent_events self) app_id) with
  | [] => (self, None)
  | events =>
      let events := Py.sorted_reverse fst events in
      let self :=
        set_recent_events (dict_set (recent_events self) app_id events) self in
      match events with
      | (ts, latest_etype) :: _ =>
          if etype_eqb latest_etype pause
          then (self, Some (ts, "paused"))
          else (self, None)
      | [] => (self, None)
      end
  end.

(** [LogParser.get_recent_pause_info] *)
Definition get_recent_pause_info (self : LogParser) (file : log_file)
    (app_id : Z) (now_refresh : Z) : LogParser * option (Z * string) :=
  recent_pause (_update_log_state self file false now_refresh) app_id.

(** [flags & mask], as a condition. *)
Definition flag_set (flags mask : Z) : bool := negb (Z.land flags mask =? 0).

(** Lines 290-304 of [get_status], after the pause signal. *)
Definition status_of (flags : Z) (data : gmap string string) (speed : Q)
  : result DownloadState :=
  if flag_set flags 512 then Return PAUSED
  else
    match data !! "BytesToDownload", data !! "BytesDownloaded" with
    | Some to_dl, Some dl =>
        match Py.int to_dl with
        | None => Raise ValueError
        | Some bytes_to_dl =>
            match Py.int dl with
            | None => Raise ValueError
            | Some bytes_dl =>
                if bytes_to_dl =? bytes_dl then
                  if flag_set flags (Z.lor 2097152 4194304) then Return UNPACKING
                  else if Qlt_le_dec 0 speed then Return DOWNLOADING
                  else Return IDLE
                else if flag_set flags (Z.lor (Z.lor 256 1024) 1048576) then
                  Return (if Qlt_le_dec 0 speed then DOWNLOADING else PAUSED)
                else Return PAUSED
            end
        end
    | _, _ => Return IDLE
    end.

(** [LogParser.get_status] *)
Definition get_status (self : LogParser) (file : log_file) (flags : Z)
    (data : gmap string string) (speed : Q) (app_id : Z) (now_refresh : Z)
  : LogParser * result DownloadState :=
  let '(self, pause_info) := get_recent_pause_info self file app_id now_refresh in
  match pause_info with
  | Some _ => (self, Return PAUSED)
  | None => (self, status_of flags data speed)
  end.

(** [LogParser.read_latest_speed]: [now] is the clock at line 311. *)
Definition read_latest_speed (self : LogParser) (file : log_file)
    (now_refresh now : Z) : LogParser * option (Z * Q) :=
  let self := _update_log_state self file false now_refresh in
  match latest_rate self with
  | Some (ts, speed) =>
      if Py.total_seconds_le (now - ts) MAX_AGE_SEC
      then (self, Some (ts, speed))
      else (self, None)
  | None => (self, None)
  end.

End LogParser.

(** ** steam_monitor/game_finder.py *)

(** A file that [steamapps.glob] lists: its path, what each attempt to
    read it yields, and [stat().st_mtime] (compared only, so an integer
    stands for the float). *)
Record manifest := {
  acf_path : string;
  read : nat -> option string;
  st_mtime : Z
}.

Section GameFinder.
Context `{Re.PyRe}.

(** The two lists of [_find_active_game_fallback]. *)
Record buckets := {
  active_games : list (Z * DownloadingGame);
  paused_games : list (Z * DownloadingGame)
}.

(** Lines 59-66, once the pause signal and flag 512 are excluded. *)
Definition by_progress (flags : Z) (data : gmap string string)
    (entry : Z * DownloadingGame) (b : buckets) : result buckets :=
  if flag_set flags (Z.lor (Z.lor 256 1024) 1048576) then
    match data !! "BytesToDownload", data !! "BytesDownloaded" with
    | Some to_dl, Some dl =>
        match Py.int to_dl with
        | None => Raise ValueError
        | Some bytes_to_dl =>
            match Py.int dl with
            | None => Raise ValueError
            | Some bytes_dl =>
                if bytes_dl <? bytes_to_dl
                then Return {| active_games := active_games b ++ [entry];
                               paused_games := paused_games b |}
                else Return b
            end
        end
    | _, _ => Return b
    end
  else Return {| active_games := active_games b;
                 paused_games := paused_games b ++ [entry] |}.

(** Lines 42-69: one turn of the loop.  Whatever is raised is caught
    and the manifest skipped; the engine keeps what
    [get_recent_pause_info] did to it. *)
Definition fallback_step (file : log_file) (now : Z)
    (acc : LogParser * buckets) (acf : manifest) : LogParser * buckets :=
  let '(parser, b) := acc in
  match parse_acf (read acf) with
  | Raise _ => (parser, b)
  | Return data =>
      match Py.int (default "0" (data !! "appid")) with
      | None => (parser, b)
      | Some app_id =>
          if app_id =? 0 then (parser, b)
          else
            let name := default "Unknown" (data !! "name") in
            match Py.int (default "4" (data !! "StateFlags")) with
            | None => (parser, b)
            | Some flags =>
                let last_modified := st_mtime acf in
                let game := {| app_id := app_id; name := name;
                               path := acf_path acf |} in
                let '(parser, info) :=
                  get_recent_pause_info parser file app_id now in
                let is_recently_paused :=
                  match info with Some _ => true | None => false end in
                if is_recently_paused || flag_set flags 512 then
                  (parser,
                   {| active_games := active_games b;
                      paused_games := paused_games b ++ [(last_modified, game)] |})
                else
                  match by_progress flags data (last_modified, game) b with
                  | Return b' => (parser, b')
                  | Raise _ => (parser, b)
                  end
            end
      end
  end.

(** Lines 71-78. *)
Definition pick (b : buckets) : option DownloadingGame :=
  match active_games b with
  | _ :: _ =>
      match Py.sorted_reverse fst (active_games b) with
      | (_, g) :: _ => Some g
      | [] => None
      end
  | [] =>
      match paused_games b with
      | _ :: _ =>
          match Py.sorted_reverse fst (paused_games b) with
          | (_, g) :: _ => Some g
          | [] => None
          end
      | [] => None
      end
  end.

(** [GameFinder._find_active_game_fallback]: [steamapps] lists the
    manifests in the order of the glob; [now] is the clock of the
    refreshes. *)
Definition _find_active_game_fallback (parser : LogParser) (file : log_file)
    (steamapps : list manifest) (now : Z)
  : LogParser * option DownloadingGame :=
  let '(parser, b) :=
    foldl (fallback_step file now)
          (parser, {| active_games := []; paused_games := [] |}) steamapps in
  (parser, pick b).

(** Lines 23-32: the manifest of the app that the log names.  A
    manifest that cannot be parsed is skipped; a [ValueError] of [int]
    is not caught there. *)
Fixpoint manifest_of (active_app_id : Z) (steamapps : list manifest)
  : result (option DownloadingGame) :=
  match steamapps with
  | [] => Return None
  | acf :: rest =>
      match parse_acf (read acf) with
      | Raise _ => manifest_of active_app_id rest
      | Return data =>
          match Py.int (default "0" (data !! "appid")) with
          | None => Raise ValueError
          | Some app_id =>
              if app_id =? active_app_id then
                Return (Some {| app_id := app_id;
                                name := default "Unknown" (data !! "name");
                                path := acf_path acf |})
              else manifest_of active_app_id rest
          end
      end
  end.

(** [GameFinder.find_active_game] *)
Definition find_active_game (parser : LogParser) (file : log_file)
    (steamapps : list manifest) (now : Z)
  : LogParser * result (option DownloadingGame) :=
  let '(parser, active_app_id) :=
    get_most_recent_active_download parser file now now in
  let fallback :=
    let '(parser, g) := _find_active_game_fallback parser file steamapps now in
    (parser, Return g) in
  match active_app_id with
  | Some a =>
      if a =? 0 then fallback
      else
        match manifest_of a steamapps with
        | Return (Some g) => (parser, Return (Some g))
        | Return None => fallback
        | Raise e => (parser, Raise e)
        end
  | None => fallback
  end.

End GameFinder.

(** ** steam_monitor/monitor.py *)

Section SteamMonitor.
Context `{Re.PyRe}.

(** Lines 62-70: the status of the game found, [IDLE] when anything is
    raised.  [read] is what reading [game.path] yields now. *)
Definition sample_status (parser : LogParser) (file : log_file)
    (read : nat -> option string) (speed : Q) (g : DownloadingGame) (now : Z)
  : LogParser * DownloadState :=
  match parse_acf read with
  | Raise _ => (parser, IDLE)
  | Return data =>
      match Py.int (default "4" (data !! "StateFlags")) with
      | None => (parser, IDLE)
      | Some flags =>
          match get_status parser file flags data speed (app_id g) now with
          | (parser, Return st) => (parser, st)
          | (parser, Raise _) => (parser, IDLE)
          end
      end
  end.

(** What reading the file at [p] yields: nothing when the directory no
    longer lists it. *)
Definition reader (steamapps : list manifest) (p : string)
  : nat -> option string :=
  match find (fun acf => String.eqb (acf_path acf) p) steamapps with
  | Some acf => read acf
  | None => fun _ => None
  end.

(** [SteamMonitor.get_current_sample]: [time] is [time.time()], [now]
    the clock of the engine during the call. *)
Definition get_current_sample (parser : LogParser) (file : log_file)
    (steamapps : list manifest) (time now : Z)
  : LogParser * result DownloadSample :=
  match find_active_game parser file steamapps now with
  | (parser, Raise e) => (parser, Raise e)
  | (parser, Return found) =>
      let '(parser, speed_entry) := read_latest_speed parser file now now in
      let speed :=
        match speed_entry with Some (_, v) => v | None => 0%Q end in
      match found with
      | None =>
          (parser,
           Return {| timestamp := time; speed_bytes_per_sec := 0%Q;
                     status := value IDLE; game := None |})
      | Some g =>
          let '(parser, st) :=
            sample_status parser file (reader steamapps (path g)) speed g now in
          (parser,
           Return {| timestamp := time; speed_bytes_per_sec := speed;
                     status := value st; game := Some g |})
      end
  end.

End SteamMonitor.

(** ** steam_monitor/finder.py *)

Module Finder.

(** The host as the finder sees it.  [path] stands for [pathlib.Path]:
    [Path s] makes one from a text, [joinpath p s] is [p / s].
    [SteamPath] is the value that the registry holds under
    [Software\Valve\Steam], a text; it is [None] when [winreg] cannot be
    imported or the key or the value cannot be read ([ImportError],
    [OSError]). *)
Record host (path : Type) := {
  system : string;
  home : path;
  Path : string -> path;
  joinpath : path -> string -> path;
  resolve : path -> path;
  exists_ : path -> bool;
  SteamPath : option string
}.
Arguments system {path} h.
Arguments home {path} h.
Arguments Path {path} h s.
Arguments joinpath {path} h p s.
Arguments resolve {path} h p.
Arguments exists_ {path} h p.
Arguments SteamPath {path} h.

Record SteamInstall (path : Type) := {
  root : path;
  steamapps : path;
  logs : path
}.
Arguments root {path} s.
Arguments steamapps {path} s.
Arguments logs {path} s.

(** What [SteamFinder.find] returns or raises. *)
Inductive found (path : Type) :=
| Return (steam : SteamInstall path)
| SteamNotFoundError (message : string).
Arguments Return {path} steam.
Arguments SteamNotFoundError {path} message.

Section Finder.
Context {path : Type} (h : host path).

Definition _find_windows_steam : option (SteamInstall path) :=
  match SteamPath h with
  | Some p =>
      let root := Path h p in
      let steamapps := joinpath h root "steamapps" in
      let logs := joinpath h root "logs" in
      if exists_ h steamapps && exists_ h logs
      then Some {| root := root; steamapps := steamapps; logs := logs |}
      else None
  | None => None
  end.

Definition _find_linux_steam : option (SteamInstall path) :=
  let symlink := joinpath h (home h) ".steam/steam" in
  if negb (exists_ h symlink) then None
  else
    let root := resolve h symlink in
    let steamapps := joinpath h root "steamapps" in
    let logs := joinpath h root "logs" in
    if exists_ h steamapps && exists_ h logs
    then Some {| root := root; steamapps := steamapps; logs := logs |}
    else None.

Definition _find_macos_steam : option (SteamInstall path) :=
  let root := joinpath h (home h) "Library/Application Support/Steam" in
  let steamapps := joinpath h root "steamapps" in
  let logs := joinpath h root "logs" in
  if exists_ h steamapps && exists_ h logs
  then Some {| root := root; steamapps := steamapps; logs := logs |}
  else None.

(** [SteamFinder.find]: an empty [custom_path] is false, as [None] is. *)
Definition find (custom_path : option string) : found path :=
  match custom_path with
  | Some (String c p) =>
      let custom_path := String c p in
      let root := resolve h (Path h custom_path) in
      let steamapps := joinpath h root "steamapps" in
      let logs := joinpath h root "logs" in
      if exists_ h steamapps && exists_ h logs
      then Return {| root := root; steamapps := steamapps; logs := logs |}
      else SteamNotFoundError
             ("Custom Steam path " +:+ custom_path
              +:+ " is invalid: missing steamapps or logs directory")
  | _ =>
      let system := system h in
      let steam :=
        if String.eqb system "Windows" then _find_windows_steam
        else if String.eqb system "Linux" then _find_linux_steam
        else if String.eqb system "Darwin" then _find_macos_steam
        else None in
      match steam with
      | None => SteamNotFoundError ("Steam not found on " +:+ system)
      | Some steam => Return steam
      end
  end.

End Finder.
End Finder.

(** ** steam_monitor/monitor.py: the handler and the observer *)

(** The calls that a [SteamMonitor] makes on its observer. *)
Inductive observer_call :=
| observer_start
| observer_stop
| observer_join (timeout : Q).

(** The attribute of a [SteamMonitor] that [__enter__] and [__exit__]
    read and write. *)
Record SteamMonitor := { _started : bool }.

(** [SteamMonitor.__init__] leaves [_started] false. *)
Definition new_monitor : SteamMonitor := {| _started := false |}.

Definition __enter__ (self : SteamMonitor) : SteamMonitor * list observer_call :=
  if negb (_started self) then ({| _started := true |}, [observer_start])
  else (self, []).

Definition __exit__ (self : SteamMonitor) : SteamMonitor * list observer_call :=
  if _started self
  then ({| _started := false |}, [observer_stop; observer_join 2])
  else (self, []).

Section LogHandler.
Context `{Re.PyRe}.

(** [LogHandler.on_modified]: [src_path] is the path of the event,
    [log_path] the text of the path of the log. *)
Definition on_modified (src_path log_path : string) (log_parser : LogParser)
    (file : log_file) (now : Z) : LogParser :=
  if String.eqb src_path log_path
  then _update_log_state log_parser file false now
  else log_parser.

End LogHandler.

(** ** steam_monitor/main.py: the loop over the samples *)

Definition upper_char (c : ascii) : ascii :=
  if (97 <=? Py.ord c) && (Py.ord c <=? 122) then Py.chr (Py.ord c - 32) else c.

(** [s.upper()] *)
Fixpoint upper (s : string) : string :=
  match s with
  | EmptyString => EmptyString
  | String c s' => String (upper_char c) (upper s')
  end.

(** The integer nearest to [x], the even one of two that are as near. *)
Definition round_half_even (x : Q) : Z :=
  let den := Zpos (Qden x) in
  let floor := Qnum x / den in
  let rest := Qnum x mod den in
  if 2 * rest <? den then floor
  else if den <? 2 * rest then floor + 1
  else if Z.even floor then floor
  else floor + 1.

(** [f"{x:.2f}"], on the exact value of [x]. *)
Definition format_2f (x : Q) : string :=
  let cents := Z.abs (round_half_even (x * 100)) in
  let fraction := cents mod 100 in
  (if Qnum x <? 0 then "-" else "")
  +:+ Py.str (cents / 100) +:+ "."
  +:+ (if fraction <? 10 then "0" else "") +:+ Py.str fraction.

(** Lines 59-62. *)
Definition display_name (sample : DownloadSample) : string :=
  if String.eqb (status sample) (value IDLE) then "None"
  else
    match game sample with
    | Some g => name g
    | None => "Unknown"
    end.

(** Lines 57 and 64-68. *)
Definition speed_display (sample : DownloadSample) : Q :=
  if String.eqb (status sample) (value IDLE)
     || String.eqb (status sample) (value PAUSED)
  then 0%Q
  else speed_bytes_per_sec sample.

(** Lines 70-74. *)
Definition log_msg (sample : DownloadSample) : string :=
  "Status: " +:+ upper (status sample) +:+ ", "
  +:+ "Game: " +:+ display_name sample +:+ ", "
  +:+ "Speed: " +:+ format_2f (speed_display sample / 1024 / 1024) +:+ " MB/s".

(** What the loop does that is seen from outside it. *)
Inductive action :=
| info (msg : string)
| error_getting_sample (e : exn)
| sleep (seconds : Z).

(** How the loop ends: by its condition or its [break]; by the [raise] of
    line 82 or by what [time.sleep] raises at line 86, outside the [try];
    or not at all, as far as it was followed. *)
Inductive ending :=
| finished
| raised (e : exn)
| turning (i : Z) (log_parser : LogParser).

(** What one call of [get_current_sample] finds: the log, the manifests
    that the directory lists, and the two clocks. *)
Record world := {
  w_log : log_file;
  w_steamapps : list manifest;
  w_time : Z;
  w_now : Z
}.

(** The longest sleep, in seconds, that CPython counts: it counts
    nanoseconds in a signed integer of 64 bits. *)
Definition SLEEP_MAX : Z := 9223372036.

(** [time.sleep(seconds)] for an integer: what it raises, or [None] when
    it sleeps and returns.  It raises [ValueError] for a negative length
    and [OverflowError] for one beyond [SLEEP_MAX]; another length is
    handed to the clock of the host, which sleeps or refuses it
    ([OSError]): [host seconds] is what the host does. *)
Definition time_sleep (host : Z -> option exn) (seconds : Z) : option exn :=
  if seconds <? 0 then Some ValueError
  else if SLEEP_MAX <? seconds then Some OverflowError
  else host seconds.

Section Main.
Context `{Re.PyRe}.

(** Lines 53-86: the loop, with [samples] and [interval] of the
    configuration, followed for as many turns as there are worlds. *)
Fixpoint sample_loop (host : Z -> option exn) (samples interval : Z) (i : Z)
    (log_parser : LogParser) (worlds : list world) : list action * ending :=
  if (samples =? 0) || (i <? samples) then
    match worlds with
    | [] => ([], turning i log_parser)
    | w :: worlds' =>
        match get_current_sample log_parser (w_log w) (w_steamapps w)
                (w_time w) (w_now w) with
        | (log_parser, Return sample) =>
            let i := i + 1 in
            if negb (samples =? 0) && (samples <=? i)
            then ([info (log_msg sample)], finished)
            else
              match time_sleep host interval with
              | Some e => ([info (log_msg sample)], raised e)
              | None =>
                  let '(actions, e) :=
                    sample_loop host samples interval i log_parser worlds' in
                  (info (log_msg sample) :: sleep interval :: actions, e)
              end
        | (log_parser, Raise e) =>
            if samples =? 0 then
              match time_sleep host 5 with
              | Some e' => ([error_getting_sample e], raised e')
              | None =>
                  let '(actions, e') :=
                    sample_loop host samples interval i log_parser worlds' in
                  (error_getting_sample e :: sleep 5 :: actions, e')
              end
            else ([error_getting_sample e], raised e)
        end
    end
  else ([], finished).

End Main.

(** * The vocabulary of the statements *)

Section SortingVocabulary.
Context {A : Type} (key : A -> Z).

(** Newest first. *)
Definition descending : list A -> Prop :=
  StronglySorted (fun a b => key b <= key a).

(** Oldest first. *)
Definition ascending : list A -> Prop :=
  StronglySorted (fun a b => key a <= key b).

(** The element that a stable ascending sort puts last: nothing before
    it in the list has a greater key, everything after it a smaller one. *)
Definition is_latest (l : list A) (e : A) : Prop :=
  exists l1 l2, l = l1 ++ e :: l2
    /\ (forall x, x ∈ l1 -> key x <= key e)
    /\ (forall x, x ∈ l2 -> key x < key e).

(** The first of the elements of a list that satisfy [P] and have the
    greatest key among those that do: what is found first when the list
    is gone through in the order of a stable descending sort. *)
Definition first_latest_such (P : A -> Prop) (l : list A) (e : A) : Prop :=
  exists l1 l2, l = l1 ++ e :: l2 /\ P e
    /\ (forall x, x ∈ l1 -> P x -> key x < key e)
    /\ (forall x, x ∈ l2 -> P x -> key x <= key e).
End SortingVocabulary.

(** [(now - ts).total_seconds() <= sec] *)
Definition within (now ts sec : Z) : Prop := now - ts <= sec * Py.second.

(** The events that the engine holds for an app: the list of the first
    item of [recent_events] whose key is the app, and no event when no
    item has that key. *)
Definition events_of (self : LogParser) (app : Z) : list event :=
  match filter (fun item : Z * list event => fst item = app) (recent_events self) with
  | item :: _ => snd item
  | [] => []
  end.

(** A pause event of the list that is strictly newer than [ts] and itself
    within [MAX_AGE_SEC] of [now]. *)
Definition later_pause (now ts : Z) (events : list event) : Prop :=
  exists e, e ∈ events /\ snd e = pause /\ ts < fst e
            /\ within now (fst e) MAX_AGE_SEC.

Definition entry_ts (e : rate_entry) : Z := fst (fst e).
Definition entry_app (e : rate_entry) : Z := snd (fst e).

(** A rate entry that confirms its app: recent, and no later pause. *)
Definition rate_qualifies (self : LogParser) (now : Z) (e : rate_entry) : Prop :=
  within now (entry_ts e) MAX_AGE_SEC
  /\ ~ later_pause now (entry_ts e) (events_of self (entry_app e)).

(** An app whose latest event, at [t], is a recent start or network
    event with no later pause. *)
Definition app_candidate (now : Z) (events : list event) (t : Z) : Prop :=
  exists kind, is_latest fst events (t, kind)
    /\ (kind = start \/ kind = network)
    /\ within now t MAX_AGE_SEC
    /\ ~ later_pause now t events.

(** Lines 251-265: the time of the latest event of an app that the
    second tier takes as active. *)
Definition candidate_time (now : Z) (events : list event) : option Z :=
  match last (Py.sorted fst events) with
  | Some (t, kind) =>
      if (etype_eqb kind start || etype_eqb kind network)
         && Py.total_seconds_le (now - t) MAX_AGE_SEC
      then if has_later_pause now t (Py.sorted fst events) then None else Some t
      else None
  | None => None
  end.

Definition candidate_entry (now : Z) (item : Z * list event) : option (Z * Z) :=
  (fun t => (t, fst item)) <$> candidate_time now (snd item).

(** The engine that holds one start and one later pause of an app, and
    nothing else. *)
Definition start_then_pause (app started paused : Z) : LogParser :=
  {| last_pos := 0; latest_rate := None;
     recent_events := [(app, [(started, start); (paused, pause)])];
     depot_to_app := ∅; rate_entries := [] |}.


(** The engine that holds one rate entry of an app and one later pause of
    it, and nothing else. *)
Definition rate_then_pause (app rated paused : Z) (rate : string) : LogParser :=
  {| last_pos := 0; latest_rate := None;
     recent_events := [(app, [(paused, pause)])];
     depot_to_app := ∅; rate_entries := [(rated, app, rate)] |}.

(** Lines 234-246, for one rate entry. *)
Definition entry_confirms (now : Z) (recent : list (Z * list event))
    (e : rate_entry) : bool :=
  Py.total_seconds_le (now - fst (fst e)) MAX_AGE_SEC
  && negb (has_later_pause now (fst (fst e))
             (Py.sorted fst (default [] (dict_get recent (snd (fst e)))))).

Section RefreshVocabulary.
Context `{Re.PyRe}.

(** The sample that a line gives to [latest_rate]: lines 126-142. *)
Definition accepted_rate (now : Z) (line : string) : option (Z * Q) :=
  m ← Re.search true _LINE_RE line;
  ts ← Py.strptime (Py.strip (Re.group_named m "ts"));
  if Py.total_seconds_gt (now - ts) MAX_AGE_SEC then None
  else
    value ← Py.float (Re.group m 2);
    speed ← speed_bytes (Py.lower (Re.group m 3)) value;
    Some (ts, speed).

(** Whether a refresh drops what the engine holds and reads the file from
    its start. *)
Definition reloads (self : LogParser) (file : log_file) (full_load : bool) : bool :=
  match file with
  | Content text => full_load || (String.length text <? last_pos self)%nat
  | _ => false
  end.

(** The lines that a refresh reads. *)
Definition lines_read (self : LogParser) (file : log_file) (full_load : bool)
  : list string :=
  match file with
  | Content text =>
      if reloads self file full_load then Py.splitlines text
      else Py.splitlines (Py.drop (last_pos self) text)
  | _ => []
  end.
End RefreshVocabulary.

(** Lines 143-144, on the held sample alone. *)
Definition newer (held : option (Z * Q)) (s : Z * Q) : option (Z * Q) :=
  match held with
  | None => Some s
  | Some h => if fst h <? fst s then Some s else Some h
  end.

(** The first element of a list among those with the greatest time. *)
Definition first_newest (l : list (Z * Q)) (s : Z * Q) : Prop :=
  exists l1 l2, l = l1 ++ s :: l2
    /\ (forall x, x ∈ l1 -> fst x < fst s)
    /\ (forall x, x ∈ l2 -> fst x <= fst s).

Definition flow_state (f : flow) : LogParser :=
  match f with Next s => s | Continue s => s end.

(** The flag masks of [get_status] and of the fallback. *)
Definition UNPACK_FLAGS : Z := Z.lor 2097152 4194304.
Definition DOWNLOAD_FLAGS : Z := Z.lor (Z.lor 256 1024) 1048576.

(** The classification as the specification words it: after equal byte
    counts, the download flags count only when [BytesDownloaded] is less
    than [BytesToDownload]. *)
Definition status_as_specified (pause_signal : bool) (flags : Z)
    (data : gmap string string) (speed : Q) : DownloadState :=
  if pause_signal || flag_set flags 512 then PAUSED
  else
    match data !! "BytesToDownload", data !! "BytesDownloaded" with
    | Some to_dl, Some dl =>
        match Py.int to_dl, Py.int dl with
        | Some bytes_to_dl, Some bytes_dl =>
            if bytes_dl =? bytes_to_dl then
              if flag_set flags UNPACK_FLAGS then UNPACKING
              else if Qlt_le_dec 0 speed then DOWNLOADING else IDLE
            else if (bytes_dl <? bytes_to_dl) && flag_set flags DOWNLOAD_FLAGS then
              if Qlt_le_dec 0 speed then DOWNLOADING else PAUSED
            else PAUSED
        | _, _ => PAUSED
        end
    | _, _ => IDLE
    end.

(** The pair that a lookup of [k] finds after the pairs of [l] were stored
    in order: the last one with that key. *)
Definition last_binding (l : list (string * string)) (k v : string) : Prop :=
  exists l1 l2, l = l1 ++ (k, v) :: l2 /\ forall v', (k, v') ∉ l2.

(** A manifest text with the given pairs, one per line. *)
Fixpoint acf_text (pairs : list (string * string)) : string :=
  match pairs with
  | [] => EmptyString
  | (k, v) :: rest =>
      quote +:+ k +:+ quote +:+ " " +:+ quote +:+ v +:+ quote
      +:+ String (ascii_of_nat 10) (acf_text rest)
  end.

(** The game that the fallback makes of a manifest. *)
Definition game_of (acf : manifest) (data : gmap string string) (app : Z)
  : DownloadingGame :=
  {| app_id := app; name := default "Unknown" (data !! "name");
     path := acf_path acf |}.

(** An engine that has read all of the file: a refresh finds nothing
    new, and no cursor beyond the size of the file. *)
Definition settled (file : log_file) (engine : LogParser) : Prop :=
  match file with
  | Content text => last_pos engine = String.length text
  | ReadFails size => (last_pos engine <= size)%nat
  | _ => True
  end.

(** The engine reports a pause for the app. *)
Definition pause_reported (engine : LogParser) (app : Z) : Prop :=
  is_Some (snd (recent_pause engine app)).

Section FallbackVocabulary.
Context `{Re.PyRe}.

(** What the fallback keeps of a manifest that it does not skip: the
    parsed pairs, the app and the flags. *)
Definition manifest_view (acf : manifest) : option (gmap string string * Z * Z) :=
  match parse_acf (read acf) with
  | Return data =>
      app ← Py.int (default "0" (data !! "appid"));
      if app =? 0 then None
      else
        flags ← Py.int (default "4" (data !! "StateFlags"));
        Some (data, app, flags)
  | Raise _ => None
  end.

(** Both byte counts are there, are integers, and more is to download
    than was downloaded. *)
Definition in_progress (data : gmap string string) : Prop :=
  exists to_dl dl bytes_to_dl bytes_dl,
    data !! "BytesToDownload" = Some to_dl
    /\ data !! "BytesDownloaded" = Some dl
    /\ Py.int to_dl = Some bytes_to_dl
    /\ Py.int dl = Some bytes_dl
    /\ bytes_dl < bytes_to_dl.

Definition in_active_bucket (engine : LogParser) (acf : manifest) : Prop :=
  exists data app flags,
    manifest_view acf = Some (data, app, flags)
    /\ ~ pause_reported engine app
    /\ Z.land flags 512 = 0
    /\ Z.land flags DOWNLOAD_FLAGS <> 0
    /\ in_progress data.

Definition in_paused_bucket (engine : LogParser) (acf : manifest) : Prop :=
  exists data app flags,
    manifest_view acf = Some (data, app, flags)
    /\ (pause_reported engine app
        \/ Z.land flags 512 <> 0
        \/ Z.land flags DOWNLOAD_FLAGS = 0).

(** The game of a manifest that is not skipped. *)
Definition candidate_game (acf : manifest) : option DownloadingGame :=
  match manifest_view acf with
  | Some (data, app, _) => Some (game_of acf data app)
  | None => None
  end.

(** The entry that a manifest adds to [active_games], if any. *)
Definition active_entry (engine : LogParser) (acf : manifest)
  : option (Z * DownloadingGame) :=
  match manifest_view acf with
  | Some (data, app, flags) =>
      match snd (recent_pause engine app) with
      | Some _ => None
      | None =>
          if flag_set flags 512 then None
          else
            match by_progress flags data (st_mtime acf, game_of acf data app)
                    {| active_games := []; paused_games := [] |} with
            | Return b => head (active_games b)
            | Raise _ => None
            end
      end
  | None => None
  end.

(** The entry that a manifest adds to [paused_games], if any. *)
Definition paused_entry (engine : LogParser) (acf : manifest)
  : option (Z * DownloadingGame) :=
  match manifest_view acf with
  | Some (data, app, flags) =>
      match snd (recent_pause engine app) with
      | Some _ => Some (st_mtime acf, game_of acf data app)
      | None =>
          if flag_set flags 512 then Some (st_mtime acf, game_of acf data app)
          else
            match by_progress flags data (st_mtime acf, game_of acf data app)
                    {| active_games := []; paused_games := [] |} with
            | Return b => head (paused_games b)
            | Raise _ => None
            end
      end
  | None => None
  end.

(** The engine during the loop: as the fallback got it, or settled and
    answering as the refreshed engine does. *)
Definition answers_as (file : log_file) (start engine p : LogParser) : Prop :=
  p = start
  \/ (settled file p
      /\ forall app, snd (recent_pause p app) = snd (recent_pause engine app)).
End FallbackVocabulary.

Inductive bucket := Active | Paused.

(** The bucket of a manifest as the specification words it: whatever is
    not active is paused. *)
Definition bucket_as_specified (pause_signal : bool) (flags : Z)
    (bytes_to_dl bytes_dl : Z) : bucket :=
  if pause_signal || flag_set flags 512 then Paused
  else if flag_set flags DOWNLOAD_FLAGS && (bytes_dl <? bytes_to_dl) then Active
  else Paused.

(** The keys of a [dict] are distinct. *)
Definition well_formed (self : LogParser) : Prop :=
  NoDup (dict_keys (recent_events self)).

(** Lines 196-203 at once: every list filtered, the empty ones dropped. *)
Definition pruned (now : Z) (d : list (Z * list event)) : list (Z * list event) :=
  omap
    (fun item : Z * list event =>
       match filter (fun e : event => Py.total_seconds_le (now - fst e) PRUNE_AGE_SEC = true)
               (snd item) with
       | [] => None
       | kept => Some (fst item, kept)
       end)
    d.

(** An event that the refresh at [now] retains. *)
Definition fresh (now : Z) (e : event) : Prop := within now (fst e) PRUNE_AGE_SEC.

(** The patterns of the lifecycle events in the order in which line 181
    tries them, each with the kind of its event. *)
Definition classified : list (etype * string) :=
  map (pair pause) PAUSE_PATTERNS ++ map (pair start) START_PATTERNS
  ++ map (pair network) NETWORK_PATTERNS.

#[export] Instance fresh_dec (now : Z) (e : event) : Decision (fresh now e).
Proof. unfold fresh, within. apply _. Defined.

Section LinesVocabulary.
Context `{Re.PyRe}.

(** The kind of the event that a line holds for an app: that of the first
    pattern that is found in the line, the number of the app put in the
    place of its group. *)
Definition line_kind (line : string) (app : Z) : option etype :=
  fst <$> find (fun kp : etype * string =>
                  match Re.search false
                          (Py.replace "(?P<app_id>\d+)" (Py.str app) (snd kp)) line with
                  | Some _ => true
                  | None => false
                  end)
               classified.

(** The event that a line records, and the app it is recorded for: the
    app is the number after the first [AppID] of the line, the time is the
    first timestamp of the line, which is not older than 3600 s, and the
    kind is that of the line for the app. *)
Definition line_event (now : Z) (line : string) : option (Z * event) :=
  m ← Re.search false "AppID\s+(\d+)" line;
  app ← Py.int (Re.group m 1);
  tm ← Re.search false "(?P<ts>\d{4}-\d{2}-\d{2}\s+\d{2}:\d{2}:\d{2})" line;
  ts ← Py.strptime (Re.group_named tm "ts");
  if Py.total_seconds_gt (now - ts) PRUNE_AGE_SEC then None
  else kind ← line_kind line app; Some (app, (ts, kind)).

(** What a line adds to the events of an app. *)
Definition line_records (now : Z) (app : Z) (line : string) : list event :=
  match line_event now line with
  | Some (a, e) => if a =? app then [e] else []
  | None => []
  end.

(** The app of a rate line cannot be read: the number after its first
    [AppID] is no integer, or the line has no [AppID] and the mapping
    holds for its first depot a text that is no integer. *)
Definition app_unreadable (depots : gmap string string) (line : string) : bool :=
  match Re.findall "AppID\s+(\d+)" line with
  | a :: _ => match Py.int a with Some _ => false | None => true end
  | [] =>
      match Re.findall "depot\s+(\d+)" line with
      | depot :: _ =>
          match depots !! depot with
          | Some a => match Py.int a with Some _ => false | None => true end
          | None => false
          end
      | [] => false
      end
  end.

(** A line that the loop leaves at its rate: the rate pattern is found in
    it, and its sample is refused or its app cannot be read.  Nothing
    else of such a line is looked at. *)
Definition rate_refuses (now : Z) (depots : gmap string string) (line : string)
  : bool :=
  match Re.search true _LINE_RE line with
  | None => false
  | Some _ =>
      match accepted_rate now line with
      | None => true
      | Some _ => app_unreadable depots line
      end
  end.

(** The depot mapping after a line that is looked at. *)
Definition depots_after (depots : gmap string string) (line : string)
  : gmap string string :=
  foldl
    (fun depots pattern =>
       match Re.search false pattern line with
       | Some m =>
           <[Re.group_named m "depot_id" := Re.group_named m "app_id"]> depots
       | None => depots
       end)
    depots DEPOT_PATTERNS.

(** The events that lines add to the list of an app, in the order of the
    lines, from the depot mapping in force before the first of them. *)
Fixpoint events_read (now : Z) (app : Z) (depots : gmap string string)
    (lines : list string) : list event :=
  match lines with
  | [] => []
  | line :: rest =>
      if rate_refuses now depots line then events_read now app depots rest
      else line_records now app line
           ++ events_read now app (depots_after depots line) rest
  end.

(** The depot mapping after lines. *)
Fixpoint depots_read (now : Z) (depots : gmap string string)
    (lines : list string) : gmap string string :=
  match lines with
  | [] => depots
  | line :: rest =>
      if rate_refuses now depots line then depots_read now depots rest
      else depots_read now (depots_after depots line) rest
  end.
End LinesVocabulary.

(** *** Logs for the examples *)

Definition newline : string := String (ascii_of_nat 10) EmptyString.

(** A text from its lines. *)
Fixpoint unlines (lines : list string) : string :=
  match lines with
  | [] => EmptyString
  | l :: rest => l +:+ newline +:+ unlines rest
  end.

(** 2024-01-01 00:00:00, in microseconds. *)
Definition t0 : Z := 63839664000000000.

(** A start of app 12345 at [t0], its pause 20 seconds later. *)
Definition started_then_paused : log_file :=
  Content (unlines ["[2024-01-01 00:00:00] AppID 12345 update started";
                    "[2024-01-01 00:00:20] AppID 12345 update canceled"]).

(** A pause of app 12345 at [t0]. *)
Definition paused_once : log_file :=
  Content (unlines ["[2024-01-01 00:00:00] AppID 12345 update canceled"]).

(** ** Two refreshes on one engine

    [LogHandler.on_modified] (monitor.py, lines 13-16) calls
    [_update_log_state] on the thread of the observer, the queries call it
    on the thread of their caller, and both work on the attributes of the
    same object.  The source takes no lock.  A call is cut here where it
    waits for the file: after the read and before the cursor is written;
    the steps of two calls are then taken in any order. *)

(** Where a call of [_update_log_state] stands. *)
Inductive progress :=
| Entered
| HasRead (full_load : bool) (content : string) (size : nat)
| HasLines (lines : list string)
| Returned.

Section Threads.
Context `{Re.PyRe}.

(** One step of a call: lines 85-99 and 107-108 (the file is read, from
    the cursor or from its start); lines 100-105 and 109-112 (the cursor
    is written, the indexes are cleared on a reload); lines 117-203. *)
Definition step (file : log_file) (now : Z) (p : progress) (self : LogParser)
  : progress * LogParser :=
  match p with
  | Entered =>
      match file with
      | Content text =>
          let current_size := String.length text in
          if (current_size <? last_pos self)%nat
          then (HasRead true text current_size, set_last_pos 0 self)
          else (HasRead false (Py.drop (last_pos self) text) current_size, self)
      | ReadFails current_size =>
          (Returned,
           if (current_size <? last_pos self)%nat then set_last_pos 0 self else self)
      | _ => (Returned, self)
      end
  | HasRead full_load content size =>
      let lines := Py.splitlines content in
      if full_load then
        (HasLines lines,
         {| last_pos := size; latest_rate := None; recent_events := [];
            depot_to_app := ∅; rate_entries := [] |})
      else
        match lines with
        | [] => (Returned, set_last_pos size self)
        | _ => (HasLines lines, set_last_pos size self)
        end
  | HasLines lines => (Returned, scan now lines self)
  | Returned => (Returned, self)
  end.

(** The handler's call, the query's call and the engine they share. *)
Record threads := {
  handler : progress;
  query : progress;
  engine : LogParser
}.

(** The thread named by [by_query] takes its next step. *)
Definition take (file : log_file) (now_handler now_query : Z) (c : threads)
    (by_query : bool) : threads :=
  if by_query then
    let '(p, self) := step file now_query (query c) (engine c) in
    {| handler := handler c; query := p; engine := self |}
  else
    let '(p, self) := step file now_handler (handler c) (engine c) in
    {| handler := p; query := query c; engine := self |}.

Definition run (file : log_file) (now_handler now_query : Z)
    (schedule : list bool) (c : threads) : threads :=
  foldl (take file now_handler now_query) c schedule.

Definition both_enter (self : LogParser) : threads :=
  {| handler := Entered; query := Entered; engine := self |}.

(** A call is inside its update: it has read the file and not returned. *)
Definition inside (p : progress) : Prop :=
  match p with
  | HasRead _ _ _ | HasLines _ => True
  | _ => False
  end.
End Threads.

(** The handler first, then the query. *)
Definition one_after_the_other : list bool :=
  [false; false; false; true; true; true].

(** Both read the file before either writes the cursor. *)
Definition interleaved : list bool :=
  [false; true; false; false; true; true].

(** One rate line of app 12345 at [t0]. *)
Definition one_rate_line : log_file :=
  Content (unlines ["[2024-01-01 00:00:00] Download rate: 10.5 MB/s AppID 12345"]).

(** The manifest of the tests of the repository. *)
Definition test_manifest (flags downloaded to_download : string) (mtime : Z)
  : manifest :=
  {| acf_path := "appmanifest_12345.acf";
     read := fun _ => Some (acf_text [("appid", "12345"); ("name", "Test Game");
                                      ("StateFlags", flags);
                                      ("BytesDownloaded", downloaded);
                                      ("BytesToDownload", to_download)]);
     st_mtime := mtime |}.

(** The clock of the tests. *)
Definition now0 : Z := t0 + 5 * Py.second.

(** A text of decimal digits. *)
Fixpoint all_digits (s : string) : bool :=
  match s with
  | EmptyString => true
  | String c s' => Py.is_digit c && all_digits s'
  end.

(** Every rate entry is covered by the held sample: a sample is held, and
    it is at least as new as the entry. *)
Definition rates_covered (self : LogParser) : Prop :=
  forall e, e ∈ rate_entries self ->
    exists ts v, latest_rate self = Some (ts, v) /\ entry_ts e <= ts.

(** No app is a key of [recent_events] with an empty list. *)
Definition no_empty_list (self : LogParser) : Prop :=
  forall app events, (app, events) ∈ recent_events self -> events <> [].

(** The element that a stable descending sort puts first: everything
    before it in the list has a smaller key, nothing after it a greater
    one. *)
Definition first_latest {A : Type} (key : A -> Z) (l : list A) (e : A) : Prop :=
  exists l1 l2, l = l1 ++ e :: l2
    /\ (forall x, x ∈ l1 -> key x < key e)
    /\ (forall x, x ∈ l2 -> key x <= key e).

Section DepotVocabulary.
Context `{Re.PyRe}.

(** A line on which a depot pattern finds this depot and this app. *)
Definition depot_line (line depot app : string) : Prop :=
  exists pattern m,
    pattern ∈ DEPOT_PATTERNS
    /\ Re.search false pattern line = Some m
    /\ Re.group_named m "depot_id" = depot
    /\ Re.group_named m "app_id" = app.
End DepotVocabulary.

(** A rate line of app 12345 at [t0], then a start and a pause of the
    app in the same second, ten seconds later. *)
Definition rate_then_events : log_file :=
  Content (unlines ["[2024-01-01 00:00:00] Download rate: 10.5 MB/s AppID 12345";
                    "[2024-01-01 00:00:10] AppID 12345 update started";
                    "[2024-01-01 00:00:10] AppID 12345 update canceled"]).

Section ResolverVocabulary.
Context `{Re.PyRe}.

(** A manifest that the search for app [a] passes over: it cannot be
    parsed, or its [appid] is another integer. *)
Definition passed_over (a : Z) (acf : manifest) : Prop :=
  (exists e, parse_acf (read acf) = Raise e)
  \/ exists data app,
       parse_acf (read acf) = Return data
       /\ Py.int (default "0" (data !! "appid")) = Some app
       /\ app <> a.

(** A manifest whose [appid] is [a], and the game made of it. *)
Definition manifest_names (a : Z) (acf : manifest) (g : DownloadingGame) : Prop :=
  exists data,
    parse_acf (read acf) = Return data
    /\ Py.int (default "0" (data !! "appid")) = Some a
    /\ g = game_of acf data a.

(** A manifest that parses and whose [appid] is not an integer. *)
Definition appid_not_integer (acf : manifest) : Prop :=
  exists data,
    parse_acf (read acf) = Return data
    /\ Py.int (default "0" (data !! "appid")) = None.

(** The first manifest of the list that the search for [a] does not
    pass over. *)
Definition first_not_passed (a : Z) (l : list manifest) (acf : manifest) : Prop :=
  exists l1 l2, l = l1 ++ acf :: l2 /\ Forall (passed_over a) l1.

(** An engine that has read the whole file and answers the speed and
    pause queries as [engine] does. *)
Definition same_answers (file : log_file) (engine p : LogParser) : Prop :=
  settled file p
  /\ latest_rate p = latest_rate engine
  /\ forall app, snd (recent_pause p app) = snd (recent_pause engine app).
End ResolverVocabulary.

(** A manifest of app 12345 whose [appid] line is followed by text that
    is no integer for another app. *)
Definition broken_manifest : manifest :=
  {| acf_path := "appmanifest_777.acf";
     read := fun _ => Some (acf_text [("appid", "77x")]);
     st_mtime := 5 |}.

(** A host of the examples: paths are texts, [p / s] puts a slash
    between, [resolve] changes nothing, and the paths of the list
    exist. *)
Definition text_host (system : string) (home : string) (existing : list string)
    (registry : option string) : Finder.host string :=
  {| Finder.system := system;
     Finder.home := home;
     Finder.Path := fun s => s;
     Finder.joinpath := fun p s => p +:+ "/" +:+ s;
     Finder.resolve := fun p => p;
     Finder.exists_ := fun p => existsb (String.eqb p) existing;
     Finder.SteamPath := registry |}.

(** The same host seen from another platform, home and registry. *)
Definition elsewhere {path : Type} (h : Finder.host path) (system : string)
    (home : path) (registry : option string) : Finder.host path :=
  {| Finder.system := system;
     Finder.home := home;
     Finder.Path := Finder.Path h;
     Finder.joinpath := Finder.joinpath h;
     Finder.resolve := Finder.resolve h;
     Finder.exists_ := Finder.exists_ h;
     Finder.SteamPath := registry |}.

(** The two calls of the context manager. *)
Inductive monitor_call := enter | leave.

(** A sequence of [__enter__] and [__exit__] calls, and the calls made on
    the observer. *)
Fixpoint monitor_calls (self : SteamMonitor) (calls : list monitor_call)
  : SteamMonitor * list observer_call :=
  match calls with
  | [] => (self, [])
  | c :: calls' =>
      let '(self, made) :=
        match c with enter => __enter__ self | leave => __exit__ self end in
      let '(self, made') := monitor_calls self calls' in
      (self, made ++ made')
  end.

(** Starts and stops alternate: a start only when the observer is not
    running, a stop, followed by its join, only when it is. *)
Fixpoint alternates (running : bool) (made : list observer_call) : Prop :=
  match made with
  | [] => True
  | observer_start :: made' => running = false /\ alternates true made'
  | observer_stop :: made' =>
      running = true
      /\ match made' with
         | observer_join _ :: made'' => alternates false made''
         | _ => False
         end
  | observer_join _ :: _ => False
  end.




(** The worlds of the examples: the log with one rate line and the
    manifest of the tests; the same with a manifest that cannot be used
    listed first. *)
Definition fair_world : world :=
  {| w_log := one_rate_line;
     w_steamapps := [test_manifest "256" "1000000" "5000000" 1];
     w_time := 0; w_now := now0 |}.

Definition foul_world : world :=
  {| w_log := one_rate_line;
     w_steamapps := [broken_manifest; test_manifest "256" "1000000" "5000000" 1];
     w_time := 0; w_now := now0 |}.

(** *** Manifest texts *)

Definition is_quote (c : ascii) : bool := Py.ord c =? 34.

(** A text without a double quote. *)
Fixpoint quote_free (s : string) : bool :=
  match s with
  | EmptyString => true
  | String c s' => negb (is_quote c) && quote_free s'
  end.

(** A text of white space only. *)
Fixpoint blank (s : string) : bool :=
  match s with
  | EmptyString => true
  | String c s' => Py.is_space c && blank s'
  end.

(** What a manifest is made of: the quoted name of a section, followed by
    text such as its brace, or a quoted key and a quoted value with a gap
    between them. *)
Inductive acf_item :=
| acf_section (name after : string)
| acf_pair (key gap value : string).

(** The words between quotes have no quote and are not blank; the text
    after the name of a section has no quote and is not blank; a gap is
    blank. *)
Definition item_ok (item : acf_item) : bool :=
  match item with
  | acf_section name after =>
      quote_free name && negb (blank name)
      && quote_free after && negb (blank after)
  | acf_pair key gap value =>
      quote_free key && negb (blank key) && blank gap
      && quote_free value && negb (blank value)
  end.

(** The text of a manifest: each item after a separator, then a tail. *)
Fixpoint acf_document (items : list (string * acf_item)) (tail : string) : string :=
  match items with
  | [] => tail
  | (sep, acf_section name after) :: rest =>
      sep +:+ quote +:+ name +:+ quote +:+ after +:+ acf_document rest tail
  | (sep, acf_pair key gap value) :: rest =>
      sep +:+ quote +:+ key +:+ quote +:+ gap +:+ quote +:+ value +:+ quote
      +:+ acf_document rest tail
  end.

Definition document_ok (items : list (string * acf_item)) (tail : string) : Prop :=
  Forall (fun si => quote_free (fst si) = true /\ item_ok (snd si) = true) items
  /\ quote_free tail = true.

(** The pairs of a manifest, as written. *)
Fixpoint written_pairs (items : list (string * acf_item)) : list (string * string) :=
  match items with
  | [] => []
  | (_, acf_section _ _) :: rest => written_pairs rest
  | (_, acf_pair key _ value) :: rest => (key, value) :: written_pairs rest
  end.

(** The first pair of a manifest and what follows it. *)
Fixpoint first_pair (items : list (string * acf_item))
  : option (string * string * list (string * acf_item)) :=
  match items with
  | [] => None
  | (_, acf_section _ _) :: rest => first_pair rest
  | (_, acf_pair key _ value) :: rest => Some (key, value, rest)
  end.

(** The pattern of line 214, read. *)
Definition acf_word : Re.regex :=
  Re.Seq (Re.Repeat (Re.Chr (Re.COne Re.CSpace)) 0 None true)
    (Re.Seq (Re.Repeat (Re.Chr (Re.CClass true [Re.CLit (ascii_of_nat 34)])) 1 None true)
       (Re.Repeat (Re.Chr (Re.COne Re.CSpace)) 0 None true)).

Definition acf_regex : Re.regex :=
  Re.Seq (Re.Chr (Re.COne (Re.CLit (ascii_of_nat 34))))
    (Re.Seq (Re.Group 1 acf_word)
       (Re.Seq (Re.Chr (Re.COne (Re.CLit (ascii_of_nat 34))))
          (Re.Seq (Re.Repeat (Re.Chr (Re.COne Re.CSpace)) 0 None true)
             (Re.Seq (Re.Chr (Re.COne (Re.CLit (ascii_of_nat 34))))
                (Re.Seq (Re.Group 2 acf_word)
                   (Re.Chr (Re.COne (Re.CLit (ascii_of_nat 34))))))))).

(** A text whose characters are all of a class. *)
Fixpoint all_pass (ic : bool) (cs : Re.cset) (s : string) : bool :=
  match s with
  | EmptyString => true
  | String c s' => Re.cset_test ic cs c && all_pass ic cs s'
  end.

(** A text that goes on without a quote to its end, or to a quoted word
    that is not blank. *)
Definition solid_start (s : string) : Prop :=
  exists before,
    quote_free before = true
    /\ (s = before
        \/ exists word more,
             s = before +:+ quote +:+ word +:+ quote +:+ more
             /\ quote_free word = true /\ blank word = false).

(** The pairs of a manifest as [parse_acf] stores them. *)
Definition stored_pairs (items : list (string * acf_item)) : list (string * string) :=
  map (fun kv => (Py.strip (fst kv), Py.strip (snd kv))) (written_pairs items).

(** A manifest as Steam writes it: a section, pairs on lines of their
    own, a closing brace. *)
Definition steam_manifest : list (string * acf_item) :=
  [("", acf_section "AppState" (newline +:+ "{"));
   (newline +:+ "    ", acf_pair "appid" "    " "12345");
   (newline +:+ "    ", acf_pair "name" "    " "Test Game");
   (newline +:+ "    ", acf_pair "StateFlags" "    " "1026")].

(** The entries of a list that another list does not account for were
    recent when they were recorded. *)
Definition recorded_recent (now : Z) (before after : list rate_entry) : Prop :=
  exists kept recorded,
    after = kept ++ recorded
    /\ kept `sublist_of` before
    /\ Forall (fun e => within now (entry_ts e) MAX_AGE_SEC) recorded.

(** *** Units in any case *)

(** Two characters that are the same, or the same letter in its two
    cases. *)
Definition same_letter (a b : ascii) : Prop :=
  a = b
  \/ (65 <= Py.ord a <= 90 /\ Py.ord b = Py.ord a + 32)
  \/ (65 <= Py.ord b <= 90 /\ Py.ord a = Py.ord b + 32).

(** Two texts that differ at most in the case of their letters. *)
Fixpoint caseless (s t : string) : Prop :=
  match s, t with
  | EmptyString, EmptyString => True
  | String a s', String b t' => same_letter a b /\ caseless s' t'
  | _, _ => False
  end.

(** A rate line of [t0] with the number 10.5 and the given unit. *)
Definition rate_line (unit : string) : string :=
  "[2024-01-01 00:00:00] Download rate: 10.5 " +:+ unit.

Section RateVocabulary.
Context `{Re.PyRe}.

(** The app of a rate line: the number after its first [AppID], or, when
    the line has no [AppID], the number that the mapping holds for its
    first depot; none when there is neither, or when it is no integer. *)
Definition rate_app (depots : gmap string string) (line : string) : option Z :=
  match Re.findall "AppID\s+(\d+)" line with
  | a :: _ => Py.int a
  | [] =>
      match Re.findall "depot\s+(\d+)" line with
      | depot :: _ => depots !! depot ≫= Py.int
      | [] => None
      end
  end.

(** The rate entry that a line records: the time of its accepted sample,
    its app and the text of its number. *)
Definition line_rate_entry (now : Z) (depots : gmap string string) (line : string)
  : option rate_entry :=
  match Re.search true _LINE_RE line, accepted_rate now line with
  | Some m, Some (ts, _) =>
      (fun app => (ts, app, Re.group m 2)) <$> rate_app depots line
  | _, _ => None
  end.

(** The rate entries that lines record, in the order of the lines, from
    the depot mapping in force before the first of them. *)
Fixpoint rates_read (now : Z) (depots : gmap string string) (lines : list string)
  : list rate_entry :=
  match lines with
  | [] => []
  | line :: rest =>
      option_list (line_rate_entry now depots line)
      ++ rates_read now
           (if rate_refuses now depots line then depots
            else depots_after depots line)
           rest
  end.
End RateVocabulary.

(** The log before it is cut down: two rate lines of app 12345. *)
Definition long_log : string :=
  unlines ["[2024-01-01 00:00:00] Download rate: 10.5 MB/s AppID 12345";
           "[2024-01-01 00:00:01] Download rate: 10.5 MB/s AppID 12345"].

(** The log after it was cut down: a start of app 777. *)
Definition short_log : string :=
  unlines ["[2024-01-01 00:00:02] AppID 777 update started"].

(** The events of a list that have a given time, in their order. *)
Definition at_time (t : Z) (events : list event) : list event :=
  filter (fun e : event => fst e = t) events.

(** *** Trimmed texts *)

(** A text that neither begins nor ends with white space. *)
Definition solid_ends (t : string) : Prop :=
  (forall c r, t = String c r -> Py.is_space c = false)
  /\ (forall r c, t = r +:+ String c EmptyString -> Py.is_space c = false).

(** [t] is [s] without the white space at its two ends. *)
Definition trimmed (s t : string) : Prop :=
  solid_ends t
  /\ exists before after,
       s = before +:+ t +:+ after /\ blank before = true /\ blank after = true.

(** The pairs of a list, each of its two texts trimmed. *)
Definition pairs_trimmed (raw pairs : list (string * string)) : Prop :=
  Forall2 (fun r p => trimmed (fst r) (fst p) /\ trimmed (snd r) (snd p)) raw pairs.

(** * Lemmas and theorems *)

(** ** Facts on the stable sorts *)

Section SortingFacts.
Context {A : Type} (key : A -> Z).

Lemma insert_desc_perm x l : Py.insert_desc key x l ≡ₚ x :: l.
Proof.
  induction l as [|y l IH]; simpl; [done|].
  destruct (key y <=? key x); [done|].
  rewrite IH. apply Permutation_swap.
Qed.

Lemma sorted_reverse_perm l : Py.sorted_reverse key l ≡ₚ l.
Proof.
  induction l as [|x l IH]; simpl; [done|].
  unfold Py.sorted_reverse in *. simpl. rewrite insert_desc_perm. by rewrite IH.
Qed.

Lemma insert_desc_sorted x l :
  descending key l -> descending key (Py.insert_desc key x l).
Proof.
  unfold descending. induction l as [|y l IH]; simpl; intros Hs.
  - repeat constructor.
  - destruct (key y <=? key x) eqn:E.
    + apply Z.leb_le in E. apply StronglySorted_cons in Hs as Hs'.
      destruct Hs' as [Hall _]. constructor; [done|].
      constructor; [done|].
      eapply Forall_impl; [exact Hall|]. simpl. intros; lia.
    + apply Z.leb_gt in E. apply StronglySorted_cons in Hs as [Hall Hs].
      constructor; [by apply IH|].
      rewrite insert_desc_perm. constructor; [lia|done].
Qed.

Lemma sorted_reverse_sorted l : descending key (Py.sorted_reverse key l).
Proof.
  induction l as [|x l IH]; [constructor|].
  unfold Py.sorted_reverse in *. simpl. by apply insert_desc_sorted.
Qed.

Lemma sorted_reverse_elem x l : x ∈ Py.sorted_reverse key l <-> x ∈ l.
Proof. by rewrite sorted_reverse_perm. Qed.

(** The head of the descending sort has the greatest key. *)
Lemma sorted_reverse_head x rest l :
  Py.sorted_reverse key l = x :: rest ->
  x ∈ l /\ forall y, y ∈ l -> key y <= key x.
Proof.
  intros E. split.
  - apply sorted_reverse_elem. rewrite E. left.
  - intros y Hy. apply (proj2 (sorted_reverse_elem y l)) in Hy. rewrite E in Hy.
    pose proof (sorted_reverse_sorted l) as Hs. rewrite E in Hs.
    apply StronglySorted_cons in Hs as [Hall _].
    apply elem_of_cons in Hy as [->|Hy]; [lia|].
    rewrite Forall_forall in Hall. by apply Hall.
Qed.

Lemma sorted_reverse_nil l : Py.sorted_reverse key l = [] -> l = [].
Proof.
  intros E. apply Permutation_nil. rewrite <- E.
  apply sorted_reverse_perm.
Qed.

Lemma insert_asc_perm x l : Py.insert_asc key x l ≡ₚ x :: l.
Proof.
  induction l as [|y l IH]; simpl; [done|].
  destruct (key x <=? key y); [done|].
  rewrite IH. apply Permutation_swap.
Qed.

Lemma sorted_perm l : Py.sorted key l ≡ₚ l.
Proof.
  induction l as [|x l IH]; simpl; [done|].
  unfold Py.sorted in *. simpl. rewrite insert_asc_perm. by rewrite IH.
Qed.

Lemma sorted_elem x l : x ∈ Py.sorted key l <-> x ∈ l.
Proof. by rewrite sorted_perm. Qed.

Lemma last_insert_asc x s m :
  last s = Some m -> (forall y, y ∈ s -> key y <= key m) ->
  last (Py.insert_asc key x s) = Some (if key m <? key x then x else m).
Proof.
  revert m. induction s as [|y s IH]; intros m Hl Hmax; [done|].
  simpl. destruct (key x <=? key y) eqn:E.
  - apply Z.leb_le in E. rewrite last_cons. simpl in Hl. rewrite Hl.
    assert (key y <= key m) by (apply Hmax; left).
    destruct (key m <? key x) eqn:E2; [apply Z.ltb_lt in E2; lia|done].
  - apply Z.leb_gt in E. destruct s as [|z s].
    + simpl in *. injection Hl as <-.
      by destruct (key y <? key x) eqn:E2; [|apply Z.ltb_ge in E2; lia].
    + rewrite last_cons_cons in Hl.
      assert (Hne : Py.insert_asc key x (z :: s) <> []).
      { intros Hn. pose proof (insert_asc_perm x (z :: s)) as Hp.
        rewrite Hn in Hp. by apply Permutation_nil in Hp. }
      destruct (Py.insert_asc key x (z :: s)) as [|w t] eqn:Ei; [done|].
      rewrite last_cons_cons. apply IH; [done|].
      intros y' Hy'. apply Hmax. by right.
Qed.

Lemma last_sorted l :
  match last (Py.sorted key l) with
  | Some e => is_latest key l e
  | None => l = []
  end.
Proof.
  induction l as [|x l IH]; [done|].
  change (Py.sorted key (x :: l)) with (Py.insert_asc key x (Py.sorted key l)).
  destruct (last (Py.sorted key l)) as [m|] eqn:El.
  - destruct IH as (l1 & l2 & -> & H1 & H2).
    assert (Hmax : forall y, y ∈ Py.sorted key (l1 ++ m :: l2) -> key y <= key m).
    { intros y Hy. rewrite sorted_elem in Hy.
      apply elem_of_app in Hy as [Hy|Hy]; [by apply H1|].
      apply elem_of_cons in Hy as [->|Hy]; [lia|]. apply H2 in Hy. lia. }
    rewrite (last_insert_asc x _ m El Hmax).
    destruct (key m <? key x) eqn:E.
    + apply Z.ltb_lt in E. exists [], (l1 ++ m :: l2). split; [done|].
      split; [intros ? Hx; by apply elem_of_nil in Hx|].
      intros y Hy. apply (proj2 (sorted_elem y _)) in Hy. apply Hmax in Hy. lia.
    + apply Z.ltb_ge in E. exists (x :: l1), l2. split; [done|].
      split; [|done]. intros y Hy.
      apply elem_of_cons in Hy as [->|Hy]; [done|by apply H1].
  - subst l. simpl. exists [], []. split; [done|].
    split; intros ? Hx; by apply elem_of_nil in Hx.
Qed.

Lemma is_latest_max l e x : is_latest key l e -> x ∈ l -> key x <= key e.
Proof.
  intros (l1 & l2 & -> & H1 & H2) Hx.
  apply elem_of_app in Hx as [Hx|Hx]; [by apply H1|].
  apply elem_of_cons in Hx as [->|Hx]; [lia|]. apply H2 in Hx. lia.
Qed.

Lemma is_latest_elem l e : is_latest key l e -> e ∈ l.
Proof. intros (l1 & l2 & -> & _). apply elem_of_app. right. left. Qed.

Lemma is_latest_unique l e e' : is_latest key l e -> is_latest key l e' -> e = e'.
Proof.
  intros (l1 & l2 & E & H1 & H2) (k1 & k2 & E' & K1 & K2).
  rewrite E in E'. clear E.
  revert k1 E' K1. induction l1 as [|a l1 IH]; intros k1 E' K1.
  - destruct k1 as [|b k1]; simpl in E'; [congruence|].
    injection E' as <- ->.
    assert (key e' < key e) by (apply H2; apply elem_of_app; right; left).
    assert (key e <= key e') by (apply K1; left). lia.
  - destruct k1 as [|b k1]; simpl in E'.
    + injection E' as -> <-.
      assert (key e < key e') by (apply K2; apply elem_of_app; right; left).
      assert (key e' <= key e) by (apply H1; left). lia.
    + injection E' as <- E'. apply (IH (fun x Hx => H1 x (proj2 (elem_of_cons _ _ _) (or_intror Hx))) k1 E').
      intros x Hx. apply K1. by right.
Qed.

(** Where the first element that passes a test is, after one more element
    was put into a descending list. *)
Lemma find_insert_desc (p : A -> bool) x s :
  descending key s ->
  find p (Py.insert_desc key x s) =
    if p x then
      match find p s with
      | Some m => if key x <? key m then Some m else Some x
      | None => Some x
      end
    else find p s.
Proof.
  induction s as [|y s IH]; intros Hs.
  - simpl. by destruct (p x).
  - apply StronglySorted_cons in Hs as Hs'. destruct Hs' as [Hall Hs'].
    rewrite Forall_forall in Hall. cbn [Py.insert_desc].
    destruct (key y <=? key x) eqn:E.
    + apply Z.leb_le in E. cbn [find]. destruct (p x) eqn:Ex; [|done].
      destruct (p y) eqn:Ey.
      * by replace (key x <? key y) with false by (symmetry; apply Z.ltb_ge; lia).
      * destruct (find p s) as [m|] eqn:Ef; [|done].
        apply find_some in Ef as [Hin _]. apply list_elem_of_In, Hall in Hin.
        by replace (key x <? key m) with false by (symmetry; apply Z.ltb_ge; lia).
    + apply Z.leb_gt in E. cbn [find]. destruct (p y) eqn:Ey.
      * destruct (p x); [|done].
        by replace (key x <? key y) with true by (symmetry; apply Z.ltb_lt; lia).
      * by apply IH.
Qed.

(** Going through a list newest first, equal keys in the order of the
    list, the first element that passes a test is the first of the latest
    of those that pass it. *)
Lemma sorted_reverse_find (p : A -> bool) l :
  match find p (Py.sorted_reverse key l) with
  | Some e => first_latest_such key (fun x => p x = true) l e
  | None => forall x, x ∈ l -> p x = false
  end.
Proof.
  induction l as [|x l IH].
  - simpl. intros x Hx. by apply elem_of_nil in Hx.
  - change (Py.sorted_reverse key (x :: l))
      with (Py.insert_desc key x (Py.sorted_reverse key l)).
    rewrite find_insert_desc by apply sorted_reverse_sorted.
    destruct (p x) eqn:Ex.
    + destruct (find p (Py.sorted_reverse key l)) as [m|].
      * destruct IH as (l1 & l2 & -> & Hm & H1 & H2).
        destruct (key x <? key m) eqn:E.
        -- apply Z.ltb_lt in E. exists (x :: l1), l2. split; [done|].
           split; [done|]. split; [|done]. intros y Hy Hp.
           apply elem_of_cons in Hy as [->|Hy]; [done|by apply H1].
        -- apply Z.ltb_ge in E. exists [], (l1 ++ m :: l2). split; [done|].
           split; [done|]. split; [intros y Hy; by apply elem_of_nil in Hy|].
           intros y Hy Hp. apply elem_of_app in Hy as [Hy|Hy].
           ++ specialize (H1 y Hy Hp). lia.
           ++ apply elem_of_cons in Hy as [->|Hy]; [done|].
              specialize (H2 y Hy Hp). lia.
      * exists [], l. split; [done|]. split; [done|].
        split; [intros y Hy; by apply elem_of_nil in Hy|].
        intros y Hy Hp. rewrite (IH y Hy) in Hp. done.
    + destruct (find p (Py.sorted_reverse key l)) as [m|].
      * destruct IH as (l1 & l2 & -> & Hm & H1 & H2).
        exists (x :: l1), l2. split; [done|]. split; [done|]. split; [|done].
        intros y Hy Hp. apply elem_of_cons in Hy as [->|Hy]; [congruence|by apply H1].
      * intros y Hy. apply elem_of_cons in Hy as [->|Hy]; [done|by apply IH].
Qed.

Lemma first_latest_such_iff (P Q : A -> Prop) l e :
  (forall x, P x <-> Q x) ->
  first_latest_such key P l e -> first_latest_such key Q l e.
Proof.
  intros Hpq (l1 & l2 & E & He & H1 & H2). exists l1, l2. split; [done|].
  split; [by apply Hpq|]. split; intros x Hx Hq; [apply H1|apply H2]; try done;
    by apply Hpq.
Qed.

Lemma first_latest_such_elem P l e : first_latest_such key P l e -> e ∈ l /\ P e.
Proof.
  intros (l1 & l2 & -> & He & _). split; [|done]. apply elem_of_app. right. left.
Qed.

Lemma first_latest_such_max P l e x :
  first_latest_such key P l e -> x ∈ l -> P x -> key x <= key e.
Proof.
  intros (l1 & l2 & -> & He & H1 & H2) Hx Hp.
  apply elem_of_app in Hx as [Hx|Hx]; [specialize (H1 x Hx Hp); lia|].
  apply elem_of_cons in Hx as [->|Hx]; [lia|by apply H2].
Qed.
End SortingFacts.

(** The head of a list is what a test that always passes finds. *)
Lemma find_true_head {A} (l : list A) : find (fun _ => true) l = head l.
Proof. by destruct l. Qed.

(** Where an element of [omap f l] comes from. *)
Lemma omap_app_inv {A B} (f : A -> option B) l m1 y m2 :
  omap f l = m1 ++ y :: m2 ->
  exists l1 x l2, l = l1 ++ x :: l2 /\ omap f l1 = m1 /\ f x = Some y
                  /\ omap f l2 = m2.
Proof.
  revert m1. induction l as [|a l IH]; intros m1 E.
  - by destruct m1.
  - simpl in E. destruct (f a) as [b|] eqn:Ea.
    + destruct m1 as [|b' m1]; simpl in E.
      * injection E as -> <-. exists [], a, l. by rewrite Ea.
      * injection E as -> E. destruct (IH m1 E) as (l1 & x & l2 & -> & <- & Hx & <-).
        exists (a :: l1), x, l2. simpl. by rewrite Ea.
    + destruct (IH m1 E) as (l1 & x & l2 & -> & <- & Hx & <-).
      exists (a :: l1), x, l2. simpl. by rewrite Ea.
Qed.

(** [events_of] is [self.recent_events.get(app_id, [])]. *)
Lemma events_of_get self app :
  events_of self app = default [] (dict_get (recent_events self) app).
Proof.
  unfold events_of. induction (recent_events self) as [|[k l] d IH]; [done|].
  simpl. destruct (app =? k) eqn:E.
  - apply Z.eqb_eq in E as ->. by rewrite filter_cons_True.
  - apply Z.eqb_neq in E. rewrite filter_cons_False by (simpl; congruence). exact IH.
Qed.

Lemma rate_then_pause_none app t rate :
  most_recent_active
    (rate_then_pause app (t - 30 * Py.second) (t - 10 * Py.second) rate) t
  = None.
Proof.
  unfold most_recent_active, rate_then_pause. simpl. rewrite Z.eqb_refl. simpl.
  unfold Py.total_seconds_le, MAX_AGE_SEC, Py.second.
  replace (t - (t - 30 * 1000000) <=? 180 * 1000000) with true
    by (symmetry; apply Z.leb_le; lia).
  replace (t - 30 * 1000000 <? t - 10 * 1000000) with true
    by (symmetry; apply Z.ltb_lt; lia).
  replace (t - (t - 10 * 1000000) <=? 180 * 1000000) with true
    by (symmetry; apply Z.leb_le; lia).
  done.
Qed.

Lemma start_then_pause_none app t :
  most_recent_active (start_then_pause app (t - 30 * Py.second) (t - 10 * Py.second)) t
  = None.
Proof.
  unfold most_recent_active, start_then_pause. simpl.
  replace (t - 30 * Py.second <=? t - 10 * Py.second) with true
    by (symmetry; apply Z.leb_le; unfold Py.second; lia).
  done.
Qed.


Lemma total_seconds_le_within now ts sec :
  Py.total_seconds_le (now - ts) sec = true <-> within now ts sec.
Proof. unfold Py.total_seconds_le, within. apply Z.leb_le. Qed.

Lemma total_seconds_gt_within now ts sec :
  Py.total_seconds_gt (now - ts) sec = false <-> within now ts sec.
Proof. unfold Py.total_seconds_gt, within. rewrite Z.ltb_ge. lia. Qed.

Lemma etype_eqb_eq a b : etype_eqb a b = true <-> a = b.
Proof. destruct a, b; simpl; split; congruence. Qed.

Lemma has_later_pause_spec now ts events :
  has_later_pause now ts events = true <-> later_pause now ts events.
Proof.
  unfold has_later_pause, later_pause. rewrite existsb_exists.
  split; intros (e & He & Hp); exists e.
  - apply list_elem_of_In in He. rewrite !andb_true_iff in Hp.
    destruct Hp as [[Hk Hlt] Hw]. apply etype_eqb_eq in Hk.
    apply Z.ltb_lt in Hlt. by apply total_seconds_le_within in Hw.
  - destruct Hp as (Hk & Hlt & Hw). split; [by apply list_elem_of_In|].
    rewrite !andb_true_iff. rewrite etype_eqb_eq, Z.ltb_lt, total_seconds_le_within.
    done.
Qed.

Lemma later_pause_perm now ts l l' :
  l ≡ₚ l' -> later_pause now ts l <-> later_pause now ts l'.
Proof.
  intros Hp. unfold later_pause. split; intros (e & He & Hr); exists e; split; auto.
  - by rewrite <- Hp.
  - by rewrite Hp.
Qed.

Lemma has_later_pause_sorted now ts events :
  has_later_pause now ts (Py.sorted fst events) = true
  <-> later_pause now ts events.
Proof.
  rewrite has_later_pause_spec. apply later_pause_perm, sorted_perm.
Qed.

(** The loop over the rate entries answers with the first that confirms
    its app. *)
Lemma rate_confirmed_find now recent l :
  rate_confirmed now recent l = entry_app <$> find (entry_confirms now recent) l.
Proof.
  induction l as [|[[ts a] r] l IH]; [done|].
  cbn [rate_confirmed find]. unfold entry_confirms at 1. cbn [fst snd].
  destruct (Py.total_seconds_le (now - ts) MAX_AGE_SEC); [|exact IH].
  destruct (has_later_pause now ts _); [exact IH|done].
Qed.

Lemma entry_confirms_spec self now e :
  entry_confirms now (recent_events self) e = true <-> rate_qualifies self now e.
Proof.
  unfold entry_confirms, rate_qualifies. rewrite andb_true_iff, negb_true_iff.
  rewrite total_seconds_le_within. rewrite events_of_get.
  rewrite <- not_true_iff_false, has_later_pause_sorted. done.
Qed.

Lemma active_step_eq now acc item :
  active_step now acc item = acc ++ option_list (candidate_entry now item).
Proof.
  destruct item as [app events]. unfold active_step, candidate_entry, candidate_time.
  simpl. destruct (last (Py.sorted fst events)) as [[t kind]|]; simpl.
  - destruct (_ && _); simpl; [|by rewrite app_nil_r].
    destruct (has_later_pause _ _ _); simpl; [by rewrite app_nil_r|done].
  - by rewrite app_nil_r.
Qed.

Lemma active_apps_eq now (d : list (Z * list event)) acc :
  foldl (active_step now) acc d = acc ++ omap (candidate_entry now) d.
Proof.
  revert acc. induction d as [|item d IH]; intros acc; simpl.
  - by rewrite app_nil_r.
  - rewrite IH, active_step_eq. rewrite <- app_assoc. f_equal.
    by destruct (candidate_entry now item).
Qed.

Lemma candidate_time_spec now events t :
  candidate_time now events = Some t <-> app_candidate now events t.
Proof.
  unfold candidate_time, app_candidate.
  pose proof (last_sorted fst events) as Hl.
  destruct (last (Py.sorted fst events)) as [[t' kind]|].
  - split.
    + destruct (_ && _) eqn:E; [|done].
      destruct (has_later_pause _ _ _) eqn:Ep; [done|]. intros [= ->].
      apply andb_true_iff in E as [Ek Ew]. exists kind. split; [done|].
      split.
      { apply orb_true_iff in Ek as [Ek|Ek]; apply etype_eqb_eq in Ek; auto. }
      split; [by apply total_seconds_le_within|].
      intros Hp. apply has_later_pause_sorted in Hp. congruence.
    + intros (kind' & Hlat & Hk & Hw & Hp).
      pose proof (is_latest_unique fst _ _ _ Hl Hlat) as [= -> ->].
      assert (Ek : etype_eqb kind' start || etype_eqb kind' network = true).
      { destruct Hk as [-> | ->]; done. }
      rewrite Ek. apply total_seconds_le_within in Hw. rewrite Hw. simpl.
      destruct (has_later_pause _ _ _) eqn:Ep; [|done].
      apply has_later_pause_sorted in Ep. done.
  - subst events. split; [done|]. intros (kind & Hlat & _).
    apply is_latest_elem in Hlat. by apply elem_of_nil in Hlat.
Qed.

Lemma elem_of_active_apps now (d : list (Z * list event)) (t a : Z) :
  (t, a) ∈ omap (candidate_entry now) d
  <-> exists events, (a, events) ∈ d /\ app_candidate now events t.
Proof.
  rewrite list_elem_of_omap. unfold candidate_entry. split.
  - intros ([a' events] & Hin & E). simpl in E.
    destruct (candidate_time now events) as [t'|] eqn:Ec; [|done].
    injection E as -> ->. exists events. split; [done|].
    by apply candidate_time_spec.
  - intros (events & Hin & Hc). exists (a, events). split; [done|].
    apply candidate_time_spec in Hc. simpl. by rewrite Hc.
Qed.

(** C1.  For every engine state, [get_most_recent_active_download]
    refreshes the engine and answers on the refreshed state.  A rate entry
    qualifies if it is not older than 180 s at the time of the query and
    the events that the engine holds for its app have no pause that is
    strictly newer than the entry and itself within 180 s.  The answer is
    the app of the qualifying entry that comes first when the entries are
    gone through newest first, entries of the same time in the order in
    which they are stored.  If no rate entry qualifies, it is the app whose
    latest retained event is a start or a network event within 180 s with
    no later pause within 180 s, the one whose such event is the newest
    and, of several as new, the one that comes first in the event map.  It
    is none if neither a rate entry nor an app qualifies.  An engine that
    holds a start 30 s and a pause 10 s before the query, and nothing
    else, answers none; so does one that holds a rate entry 30 s and a
    pause of its app 10 s before the query. *)
Theorem get_most_recent_active_download_spec `{Re.PyRe} (self : LogParser) (file : log_file)
    (now_refresh now : Z) :
  let refreshed := _update_log_state self file false now_refresh in
  let answer := snd (get_most_recent_active_download self file now_refresh now) in
  fst (get_most_recent_active_download self file now_refresh now) = refreshed
  /\ match answer with
     | Some a =>
         (exists e,
            first_latest_such entry_ts (rate_qualifies refreshed now)
              (rate_entries refreshed) e
            /\ entry_app e = a)
         \/ ((forall e, e ∈ rate_entries refreshed -> ~ rate_qualifies refreshed now e)
             /\ exists d1 d2 events t,
                  recent_events refreshed = d1 ++ (a, events) :: d2
                  /\ app_candidate now events t
                  /\ (forall (a' : Z) events' t',
                        (a', events') ∈ d1 -> app_candidate now events' t' -> t' < t)
                  /\ (forall (a' : Z) events' t',
                        (a', events') ∈ d2 -> app_candidate now events' t' -> t' <= t))
     | None =>
         (forall e, e ∈ rate_entries refreshed -> ~ rate_qualifies refreshed now e)
         /\ forall (a : Z) events t,
              (a, events) ∈ recent_events refreshed -> ~ app_candidate now events t
     end
  /\ (forall app t,
        most_recent_active
          (start_then_pause app (t - 30 * Py.second) (t - 10 * Py.second)) t
        = None)
  /\ (forall app t rate,
        most_recent_active
          (rate_then_pause app (t - 30 * Py.second) (t - 10 * Py.second) rate) t
        = None).
Proof.
  intros refreshed answer. split; [done|].
  split; [|split; [apply start_then_pause_none|apply rate_then_pause_none]].
  subst answer. unfold get_most_recent_active_download. simpl.
  fold refreshed. unfold most_recent_active.
  rewrite rate_confirmed_find.
  pose proof (sorted_reverse_find entry_ts (entry_confirms now (recent_events refreshed))
                (rate_entries refreshed)) as Hr.
  change (fun e : rate_entry => fst (fst e)) with entry_ts.
  destruct (find _ _) as [e|]; simpl.
  - left. exists e. split; [|done].
    eapply first_latest_such_iff; [|exact Hr]. intros x. apply entry_confirms_spec.
  - assert (Hnone : forall e, e ∈ rate_entries refreshed ->
                      ~ rate_qualifies refreshed now e).
    { intros e He Hq. apply entry_confirms_spec in Hq. rewrite (Hr e He) in Hq. done. }
    rewrite active_apps_eq. simpl.
    pose proof (sorted_reverse_find fst (fun _ : Z * Z => true)
                  (omap (candidate_entry now) (recent_events refreshed))) as Hs.
    rewrite find_true_head in Hs.
    destruct (Py.sorted_reverse fst _) as [|[t a] rest] eqn:Es; simpl in Hs.
    + split; [done|]. intros a events t Hin Hc.
      assert (Hm : (t, a) ∈ omap (candidate_entry now) (recent_events refreshed)).
      { apply elem_of_active_apps. eauto. }
      by specialize (Hs _ Hm).
    + right. split; [done|].
      destruct Hs as (m1 & m2 & Em & _ & H1 & H2).
      apply omap_app_inv in Em as (d1 & [a0 events] & d2 & Ed & E1 & Ex & E2).
      unfold candidate_entry in Ex. simpl in Ex.
      destruct (candidate_time now events) as [t0|] eqn:Ec; [|done].
      injection Ex as -> ->. apply candidate_time_spec in Ec.
      exists d1, d2, events, t. split; [done|]. split; [done|].
      split; intros a' events' t' Hin Hc.
      * apply (H1 (t', a')); [|done]. rewrite <- E1. apply elem_of_active_apps. eauto.
      * apply (H2 (t', a')); [|done]. rewrite <- E2. apply elem_of_active_apps. eauto.
Qed.

Section RefreshFacts.
Context `{Re.PyRe}.

Lemma hold_rate_frame ts v self :
  last_pos (hold_rate ts v self) = last_pos self
  /\ recent_events (hold_rate ts v self) = recent_events self
  /\ depot_to_app (hold_rate ts v self) = depot_to_app self
  /\ rate_entries (hold_rate ts v self) = rate_entries self
  /\ latest_rate (hold_rate ts v self) = newer (latest_rate self) (ts, v).
Proof.
  unfold hold_rate, newer. destruct (latest_rate self) as [[h hv]|] eqn:E; simpl.
  - destruct (h <? ts); simpl; auto.
  - auto.
Qed.

Lemma rate_matcher_frame now line self :
  let self' := flow_state (rate_matcher now line self) in
  last_pos self' = last_pos self
  /\ recent_events self' = recent_events self
  /\ depot_to_app self' = depot_to_app self
  /\ latest_rate self' =
       match accepted_rate now line with
       | Some s => newer (latest_rate self) s
       | None => latest_rate self
       end.
Proof.
  unfold rate_matcher, accepted_rate.
  destruct (Re.search true _LINE_RE line) as [m|]; simpl; [|done].
  destruct (Py.strptime _) as [ts|]; simpl; [|done].
  destruct (Py.total_seconds_gt _ _); simpl; [done|].
  destruct (Py.float _) as [value|]; simpl; [|done].
  destruct (speed_bytes _ _) as [speed|]; simpl; [|done].
  pose proof (hold_rate_frame ts speed self) as (H1 & H2 & H3 & H4 & H5).
  destruct (owning_app line _) as [[a|]|]; simpl; auto.
Qed.

Lemma depot_matcher_frame line self :
  last_pos (depot_matcher line self) = last_pos self
  /\ recent_events (depot_matcher line self) = recent_events self
  /\ latest_rate (depot_matcher line self) = latest_rate self
  /\ rate_entries (depot_matcher line self) = rate_entries self.
Proof.
  unfold depot_matcher, DEPOT_PATTERNS. simpl.
  destruct (Re.search false _ line); simpl; auto.
Qed.

Lemma append_event_frame app e self :
  last_pos (append_event app e self) = last_pos self
  /\ latest_rate (append_event app e self) = latest_rate self
  /\ depot_to_app (append_event app e self) = depot_to_app self
  /\ rate_entries (append_event app e self) = rate_entries self.
Proof. unfold append_event. destruct (dict_get _ _); simpl; auto. Qed.

Lemma lifecycle_matcher_frame now line self :
  last_pos (lifecycle_matcher now line self) = last_pos self
  /\ latest_rate (lifecycle_matcher now line self) = latest_rate self
  /\ depot_to_app (lifecycle_matcher now line self) = depot_to_app self
  /\ rate_entries (lifecycle_matcher now line self) = rate_entries self.
Proof.
  unfold lifecycle_matcher.
  destruct (Re.search false "AppID\s+(\d+)" line) as [m|]; [|done].
  destruct (Py.int _) as [app|]; [|done].
  destruct (Re.search false _ line) as [tm|]; [|done].
  destruct (Py.strptime _) as [ts|]; [|done].
  destruct (Py.total_seconds_gt _ _); [done|].
  destruct (first_pattern _ _ _ _) as [idx|]; [|done].
  destruct (etypes !! idx) as [k|]; [|done].
  exact (append_event_frame app (ts, k)
           (set_recent_events (dict_setdefault (recent_events self) app []) self)).
Qed.

Lemma process_line_frame now self line :
  last_pos (process_line now self line) = last_pos self
  /\ latest_rate (process_line now self line) =
       match accepted_rate now line with
       | Some s => newer (latest_rate self) s
       | None => latest_rate self
       end.
Proof.
  unfold process_line.
  pose proof (rate_matcher_frame now line self) as (H1 & _ & _ & H4).
  destruct (rate_matcher now line self) as [s|s]; simpl in *.
  - pose proof (lifecycle_matcher_frame now line (depot_matcher line s)) as (L1 & L2 & _).
    pose proof (depot_matcher_frame line s) as (D1 & _ & D3 & _).
    split; congruence.
  - done.
Qed.

Lemma process_lines_frame now lines self :
  last_pos (foldl (process_line now) self lines) = last_pos self
  /\ latest_rate (foldl (process_line now) self lines) =
       foldl newer (latest_rate self) (omap (accepted_rate now) lines).
Proof.
  revert self. induction lines as [|line lines IH]; intros self; simpl; [done|].
  destruct (IH (process_line now self line)) as [-> ->].
  destruct (process_line_frame now self line) as [-> ->].
  split; [done|]. by destruct (accepted_rate now line).
Qed.

Lemma prune_frame now self :
  last_pos (prune now self) = last_pos self
  /\ latest_rate (prune now self) = latest_rate self
  /\ depot_to_app (prune now self) = depot_to_app self.
Proof. done. Qed.

Lemma scan_frame now lines self :
  last_pos (scan now lines self) = last_pos self
  /\ latest_rate (scan now lines self) =
       foldl newer (latest_rate self) (omap (accepted_rate now) lines).
Proof. unfold scan. apply process_lines_frame. Qed.

(** A refresh, by cases. *)
Lemma update_log_state_unfold self file full_load now :
  _update_log_state self file full_load now =
    match file with
    | Content text =>
        if reloads self file full_load then
          scan now (lines_read self file full_load)
            {| last_pos := String.length text; latest_rate := None;
               recent_events := []; depot_to_app := ∅; rate_entries := [] |}
        else
          match lines_read self file full_load with
          | [] => set_last_pos (String.length text) self
          | lines => scan now lines (set_last_pos (String.length text) self)
          end
    | ReadFails size =>
        if (size <? last_pos self)%nat then set_last_pos 0 self else self
    | _ => self
    end.
Proof.
  destruct file as [| |size|text]; try done.
  unfold _update_log_state, lines_read, reloads.
  destruct full_load; simpl; [done|].
  destruct (String.length text <? last_pos self)%nat eqn:E; simpl; done.
Qed.

Lemma update_log_state_latest_rate self file full_load now :
  latest_rate (_update_log_state self file full_load now) =
    foldl newer
      (if reloads self file full_load then None else latest_rate self)
      (omap (accepted_rate now) (lines_read self file full_load)).
Proof.
  rewrite update_log_state_unfold. destruct file as [| |size|text]; try done.
  { simpl. by destruct (size <? last_pos self)%nat. }
  destruct (reloads self (Content text) full_load) eqn:Er.
  - by destruct (scan_frame now (lines_read self (Content text) full_load)
        {| last_pos := String.length text; latest_rate := None;
           recent_events := []; depot_to_app := ∅; rate_entries := [] |}) as [_ ->].
  - destruct (lines_read self (Content text) full_load) as [|l ls] eqn:El; [done|].
    by destruct (scan_frame now (l :: ls) (set_last_pos (String.length text) self)) as [_ ->].
Qed.

Lemma update_log_state_last_pos self file full_load now :
  last_pos (_update_log_state self file full_load now) =
    match file with
    | Content text => String.length text
    | ReadFails size => if (size <? last_pos self)%nat then 0%nat else last_pos self
    | _ => last_pos self
    end.
Proof.
  rewrite update_log_state_unfold. destruct file as [| |size|text]; try done.
  { by destruct (size <? last_pos self)%nat. }
  destruct (reloads _ _ _).
  - by destruct (scan_frame now (lines_read self (Content text) full_load)
        {| last_pos := String.length text; latest_rate := None;
           recent_events := []; depot_to_app := ∅; rate_entries := [] |}) as [-> _].
  - destruct (lines_read _ _ _) as [|l ls]; [done|].
    by destruct (scan_frame now (l :: ls) (set_last_pos (String.length text) self)) as [-> _].
Qed.

End RefreshFacts.

(** The fold of [newer] keeps the first of the newest samples. *)
Lemma foldl_newer_spec (held : option (Z * Q)) (samples : list (Z * Q)) :
  match foldl newer held samples with
  | Some s => first_newest (option_list held ++ samples) s
  | None => held = None /\ samples = []
  end.
Proof.
  revert held. induction samples as [|x samples IH]; intros held; simpl.
  - destruct held as [h|]; [|done]. exists [], []. simpl. split; [done|].
    split; intros ? Hx; by apply elem_of_nil in Hx.
  - specialize (IH (newer held x)).
    destruct (foldl newer (newer held x) samples) as [s|].
    + destruct IH as (l1 & l2 & E & H1 & H2).
      destruct held as [h|]; simpl in *; [|by exists l1, l2].
      destruct (fst h <? fst x) eqn:Elt; simpl in E.
      * apply Z.ltb_lt in Elt. destruct l1 as [|y l1]; simpl in E.
        -- injection E as <- <-. exists [h], samples. split; [done|].
           split; [|done]. intros ? Hx. apply list_elem_of_singleton in Hx. by subst.
        -- injection E as <- ->. exists (h :: x :: l1), l2. split; [done|].
           split; [|done]. intros z Hz. apply elem_of_cons in Hz as [->|Hz].
           ++ assert (fst x < fst s) by (apply H1; left). lia.
           ++ by apply H1.
      * apply Z.ltb_ge in Elt. destruct l1 as [|y l1]; simpl in E.
        -- injection E as <- <-. exists [], (x :: samples). split; [done|].
           split; [intros ? Hx; by apply elem_of_nil in Hx|].
           intros z Hz. apply elem_of_cons in Hz as [->|Hz]; [done|by apply H2].
        -- injection E as <- ->. exists (h :: x :: l1), l2. split; [done|].
           split; [|done]. intros z Hz. apply elem_of_cons in Hz as [->|Hz].
           ++ by apply H1; left.
           ++ apply elem_of_cons in Hz as [->|Hz].
              ** assert (fst h < fst s) by (apply H1; left). lia.
              ** apply H1. by right.
    + destruct IH as [E _]. by destruct held as [h|]; simpl in E; [destruct (_ <? _)|].
Qed.

Lemma speed_bytes_spec unit value v :
  speed_bytes unit value = Some v ->
  (unit = "kb/s" /\ v == value * 1024)%Q
  \/ (unit = "mb/s" /\ v == value * 1048576)%Q
  \/ (unit = "mbps" /\ v == value * 125000)%Q.
Proof.
  unfold speed_bytes.
  destruct (String.eqb unit "kb/s") eqn:E1.
  { apply String.eqb_eq in E1. intros [= <-]. left. split; [done|]. reflexivity. }
  destruct (String.eqb unit "mb/s") eqn:E2.
  { apply String.eqb_eq in E2. intros [= <-]. right; left. split; [done|]. ring. }
  destruct (String.eqb unit "mbps") eqn:E3; [|done].
  apply String.eqb_eq in E3. intros [= <-]. right; right. split; [done|]. field.
Qed.

Lemma flag_set_true flags mask : flag_set flags mask = true <-> Z.land flags mask <> 0.
Proof. unfold flag_set. rewrite negb_true_iff. apply Z.eqb_neq. Qed.

Lemma flag_set_false flags mask : flag_set flags mask = false <-> Z.land flags mask = 0.
Proof. unfold flag_set. rewrite negb_false_iff. apply Z.eqb_eq. Qed.

(** [status_of], clause by clause. *)
Lemma status_of_spec flags data speed :
  (Z.land flags 512 <> 0 -> status_of flags data speed = Return PAUSED)
  /\ (Z.land flags 512 = 0 ->
      (data !! "BytesToDownload" = None \/ data !! "BytesDownloaded" = None ->
       status_of flags data speed = Return IDLE)
      /\ forall to_dl dl,
           data !! "BytesToDownload" = Some to_dl ->
           data !! "BytesDownloaded" = Some dl ->
           (Py.int to_dl = None \/ Py.int dl = None ->
            status_of flags data speed = Raise ValueError)
           /\ forall bytes_to_dl bytes_dl,
                Py.int to_dl = Some bytes_to_dl -> Py.int dl = Some bytes_dl ->
                (bytes_dl = bytes_to_dl ->
                 (Z.land flags UNPACK_FLAGS <> 0 ->
                  status_of flags data speed = Return UNPACKING)
                 /\ (Z.land flags UNPACK_FLAGS = 0 -> (0 < speed)%Q ->
                     status_of flags data speed = Return DOWNLOADING)
                 /\ (Z.land flags UNPACK_FLAGS = 0 -> (speed <= 0)%Q ->
                     status_of flags data speed = Return IDLE))
                /\ (bytes_dl <> bytes_to_dl ->
                    (Z.land flags DOWNLOAD_FLAGS <> 0 -> (0 < speed)%Q ->
                     status_of flags data speed = Return DOWNLOADING)
                    /\ (Z.land flags DOWNLOAD_FLAGS <> 0 -> (speed <= 0)%Q ->
                        status_of flags data speed = Return PAUSED)
                    /\ (Z.land flags DOWNLOAD_FLAGS = 0 ->
                        status_of flags data speed = Return PAUSED))).
Proof.
  unfold status_of. split.
  - intros Hf. apply flag_set_true in Hf. by rewrite Hf.
  - intros Hf. apply flag_set_false in Hf. rewrite Hf. split.
    + intros [-> | ->]; [done|]. by destruct (data !! "BytesToDownload").
    + intros to_dl dl -> ->. split.
      * intros [-> | ->]; [done|]. by destruct (Py.int to_dl).
      * intros bytes_to_dl bytes_dl -> ->. split.
        -- intros ->. rewrite Z.eqb_refl.
           fold UNPACK_FLAGS. split; [|split].
           ++ intros Hu. apply flag_set_true in Hu. by rewrite Hu.
           ++ intros Hu Hs. apply flag_set_false in Hu. rewrite Hu.
              destruct (Qlt_le_dec 0 speed) as [|Hle]; [done|].
              exfalso. eapply Qlt_irrefl, Qlt_le_trans; eauto.
           ++ intros Hu Hs. apply flag_set_false in Hu. rewrite Hu.
              destruct (Qlt_le_dec 0 speed) as [Hlt|]; [|done].
              exfalso. eapply Qlt_irrefl, Qlt_le_trans; eauto.
        -- intros Hne. replace (bytes_to_dl =? bytes_dl) with false
             by (symmetry; apply Z.eqb_neq; congruence).
           fold DOWNLOAD_FLAGS. split; [|split].
           ++ intros Hd Hs. apply flag_set_true in Hd. rewrite Hd.
              destruct (Qlt_le_dec 0 speed) as [|Hle]; [done|].
              exfalso. eapply Qlt_irrefl, Qlt_le_trans; eauto.
           ++ intros Hd Hs. apply flag_set_true in Hd. rewrite Hd.
              destruct (Qlt_le_dec 0 speed) as [Hlt|]; [|done].
              exfalso. eapply Qlt_irrefl, Qlt_le_trans; eauto.
           ++ intros Hd. apply flag_set_false in Hd. by rewrite Hd.
Qed.

(** C2, as amended.  [get_status] returns paused if
    [get_recent_pause_info] reports a pause for the app or [flags & 512] is
    set.  Otherwise it returns idle if [BytesToDownload] or
    [BytesDownloaded] is missing, and raises [ValueError] if one of them
    is not an integer.  Otherwise, with equal byte counts, it returns
    unpacking if [flags & (2097152 | 4194304)] is set, downloading if the
    speed is positive, idle if not; with different byte counts, whichever
    is greater, it returns downloading if [flags & (256 | 1024 | 1048576)]
    is set and the speed is positive, and paused in every other case. *)
Theorem get_status_spec `{Re.PyRe} (self : LogParser) (file : log_file)
    (flags : Z) (data : gmap string string) (speed : Q) (app now : Z) :
  let signal := snd (get_recent_pause_info self file app now) in
  let answer := snd (get_status self file flags data speed app now) in
  fst (get_status self file flags data speed app now)
    = fst (get_recent_pause_info self file app now)
  /\ (is_Some signal \/ Z.land flags 512 <> 0 -> answer = Return PAUSED)
  /\ (signal = None -> Z.land flags 512 = 0 ->
      (data !! "BytesToDownload" = None \/ data !! "BytesDownloaded" = None ->
       answer = Return IDLE)
      /\ forall to_dl dl,
           data !! "BytesToDownload" = Some to_dl ->
           data !! "BytesDownloaded" = Some dl ->
           (Py.int to_dl = None \/ Py.int dl = None -> answer = Raise ValueError)
           /\ forall bytes_to_dl bytes_dl,
                Py.int to_dl = Some bytes_to_dl -> Py.int dl = Some bytes_dl ->
                (bytes_dl = bytes_to_dl ->
                 (Z.land flags UNPACK_FLAGS <> 0 -> answer = Return UNPACKING)
                 /\ (Z.land flags UNPACK_FLAGS = 0 -> (0 < speed)%Q ->
                     answer = Return DOWNLOADING)
                 /\ (Z.land flags UNPACK_FLAGS = 0 -> (speed <= 0)%Q ->
                     answer = Return IDLE))
                /\ (bytes_dl <> bytes_to_dl ->
                    (Z.land flags DOWNLOAD_FLAGS <> 0 -> (0 < speed)%Q ->
                     answer = Return DOWNLOADING)
                    /\ (Z.land flags DOWNLOAD_FLAGS <> 0 -> (speed <= 0)%Q ->
                        answer = Return PAUSED)
                    /\ (Z.land flags DOWNLOAD_FLAGS = 0 ->
                        answer = Return PAUSED))).
Proof.
  intros signal answer. subst signal answer. unfold get_status.
  destruct (get_recent_pause_info self file app now) as [self' [info|]]; simpl.
  - split; [done|]. split; [done|]. intros [=].
  - split; [done|]. destruct (status_of_spec flags data speed) as [Hp Hrest].
    split.
    + intros [[? [=]]|Hf]. by apply Hp.
    + intros _. exact Hrest.
Qed.

(** C2: with more bytes downloaded than expected, a download flag and a
    positive speed, [get_status] answers downloading where the
    specification says paused. *)
Lemma get_status_not_as_specified :
  let data : gmap string string :=
    <["BytesToDownload" := "5"]> (<["BytesDownloaded" := "10"]> ∅) in
  snd (get_recent_pause_info (H := Re.backtracking) init Missing 7 0) = None
  /\ snd (get_status (H := Re.backtracking) init Missing 256 data 1 7 0)
     = Return DOWNLOADING
  /\ status_as_specified false 256 data 1 = PAUSED.
Proof. vm_compute. done. Qed.

(** C2: an instance of the amended statement, on the same input. *)
Lemma get_status_spec_witness :
  snd (get_status (H := Re.backtracking) init Missing 256
         (<["BytesToDownload" := "5"]> (<["BytesDownloaded" := "10"]> ∅))
         1 7 0) = Return DOWNLOADING.
Proof.
  pose proof (get_status_spec (H := Re.backtracking) init Missing 256
                (<["BytesToDownload" := "5"]> (<["BytesDownloaded" := "10"]> ∅))
                1 7 0) as (_ & _ & Hs).
  destruct (Hs eq_refl eq_refl) as [_ Hb].
  destruct (Hb "5" "10" eq_refl eq_refl) as [_ Hv].
  destruct (Hv 5 10 eq_refl eq_refl) as [_ Hne].
  destruct (Hne ltac:(lia)) as [Hd _].
  apply Hd; [by vm_compute|reflexivity].
Defined.

Lemma foldl_insert_lookup (l : list (string * string)) (m : gmap string string) k v :
  foldl (fun data kv => <[fst kv := snd kv]> data) m l !! k = Some v
  <-> last_binding l k v \/ ((forall v', (k, v') ∉ l) /\ m !! k = Some v).
Proof.
  revert v. induction l as [|[k' v'] l IH] using rev_ind; intros v.
  - simpl. split.
    + intros Hm. right. split; [|done]. intros ? Hx. by apply elem_of_nil in Hx.
    + intros [(l1 & l2 & E & _)|[_ Hm]]; [|done]. by destruct l1.
  - rewrite foldl_snoc. simpl. destruct (decide (k' = k)) as [->|Hne].
    + rewrite lookup_insert_eq. split.
      * intros [= ->]. left. exists l, []. split; [done|].
        intros ? Hx. by apply elem_of_nil in Hx.
      * intros [(l1 & l2 & E & Hn)|[Hn _]].
        -- destruct l2 as [|y l2 _] using rev_ind.
           ++ apply app_inj_tail in E as [_ E]. congruence.
           ++ rewrite app_comm_cons, app_assoc in E.
              apply app_inj_tail in E as [_ <-].
              exfalso. apply (Hn v'). apply elem_of_app. right. left.
        -- exfalso. apply (Hn v'). apply elem_of_app. right. left.
    + rewrite lookup_insert_ne by done. rewrite IH. split.
      * intros [(l1 & l2 & -> & Hn)|[Hn Hm]].
        -- left. exists l1, (l2 ++ [(k', v')]). split; [by rewrite <- app_assoc|].
           intros v0 Hx. apply elem_of_app in Hx as [Hx|Hx]; [by apply (Hn v0)|].
           apply list_elem_of_singleton in Hx. congruence.
        -- right. split; [|done]. intros v0 Hx.
           apply elem_of_app in Hx as [Hx|Hx]; [by apply (Hn v0)|].
           apply list_elem_of_singleton in Hx. congruence.
      * intros [(l1 & l2 & E & Hn)|[Hn Hm]].
        -- destruct l2 as [|y l2 _] using rev_ind.
           ++ apply app_inj_tail in E as [_ E]. congruence.
           ++ rewrite app_comm_cons, app_assoc in E.
              apply app_inj_tail in E as [-> <-].
              left. exists l1, l2. split; [done|].
              intros v0 Hx. apply (Hn v0). apply elem_of_app. by left.
        -- right. split; [|done]. intros v0 Hx. apply (Hn v0).
           apply elem_of_app. by left.
Qed.

Section ManifestReader.
Context `{Re.PyRe}.

Lemma read_file_with_retry_3 (read : nat -> option string) :
  _read_file_with_retry read 3 =
    match read 0%nat with
    | Some c => Some c
    | None =>
        match read 1%nat with
        | Some c => Some c
        | None => read 2%nat
        end
    end.
Proof.
  unfold _read_file_with_retry. simpl.
  destruct (read 0%nat); [done|]. destruct (read 1%nat); [done|].
  by destruct (read 2%nat).
Qed.

End ManifestReader.

Section DefaultFlags.
Context `{Re.PyRe}.

(** C10, as amended.  For a manifest that parses and has no [StateFlags]
    key, the fallback resolver and the sample compositor take 4 as its
    flags, so that none of the flags 512, 256, 1024, 1048576, 2097152 and
    4194304 is set.  The fallback, when the [appid] is a non-zero integer,
    appends the manifest to the paused bucket and not to the active one.
    The status that the compositor computes is never unpacking; it is
    paused, idle or downloading, and it is downloading exactly when no
    pause is reported for the app, the speed is positive and both byte
    counts are there and are the same integer. *)
Theorem missing_state_flags_spec (data : gmap string string)
    (Hmissing : data !! "StateFlags" = None) :
  Py.int (default "4" (data !! "StateFlags")) = Some 4
  /\ Z.land 4 512 = 0 /\ Z.land 4 DOWNLOAD_FLAGS = 0 /\ Z.land 4 UNPACK_FLAGS = 0
  (* the fallback resolver *)
  /\ (forall parser file now acf b app,
        parse_acf (read acf) = Return data ->
        Py.int (default "0" (data !! "appid")) = Some app -> app <> 0 ->
        let b' := snd (fallback_step file now (parser, b) acf) in
        active_games b' = active_games b
        /\ paused_games b' =
             paused_games b ++ [(st_mtime acf, game_of acf data app)])
  (* the sample compositor *)
  /\ (forall parser file read speed g now,
        parse_acf read = Return data ->
        let signal := snd (get_recent_pause_info parser file (app_id g) now) in
        let st := snd (sample_status parser file read speed g now) in
        st <> UNPACKING
        /\ (st = PAUSED \/ st = IDLE \/ st = DOWNLOADING)
        /\ (st = DOWNLOADING <->
            signal = None
            /\ (0 < speed)%Q
            /\ exists to_dl dl n,
                 data !! "BytesToDownload" = Some to_dl
                 /\ data !! "BytesDownloaded" = Some dl
                 /\ Py.int to_dl = Some n /\ Py.int dl = Some n)).
Proof.
  rewrite Hmissing. simpl.
  split; [done|]. split; [done|]. split; [done|]. split; [done|]. split.
  - intros parser file now acf b app Hp Ha Hne. unfold fallback_step.
    rewrite Hp, Ha. replace (app =? 0) with false by (symmetry; by apply Z.eqb_neq).
    rewrite Hmissing. simpl.
    change (Py.int "4") with (Some 4).
    destruct (get_recent_pause_info parser file app now) as [parser' [info|]];
      simpl; done.
  - intros parser file rd speed g now Hp. unfold sample_status.
    rewrite Hp, Hmissing. simpl. change (Py.int "4") with (Some 4).
    unfold get_status.
    destruct (get_recent_pause_info parser file (app_id g) now)
      as [parser' [info|]]; simpl.
    { split; [done|]. split; [by left|]. split; [done|]. by intros [? _]. }
    unfold status_of. change (flag_set 4 512) with false. simpl.
    destruct (data !! "BytesToDownload") as [to_dl|]; simpl.
    2:{ split; [done|]. split; [by right; left|].
        split; [done|]. by intros (_ & _ & ? & ? & ? & ? & _). }
    destruct (data !! "BytesDownloaded") as [dl|]; simpl.
    2:{ split; [done|]. split; [by right; left|].
        split; [done|]. by intros (_ & _ & ? & ? & ? & _ & ? & _). }
    destruct (Py.int to_dl) as [bt|] eqn:Eto; simpl.
    2:{ split; [done|]. split; [by right; left|].
        split; [done|]. intros (_ & _ & ? & ? & ? & [= <-] & _ & ? & _). congruence. }
    destruct (Py.int dl) as [bd|] eqn:Edl; simpl.
    2:{ split; [done|]. split; [by right; left|].
        split; [done|]. intros (_ & _ & ? & ? & ? & _ & [= <-] & _ & ?). congruence. }
    destruct (bt =? bd) eqn:E.
    + apply Z.eqb_eq in E as ->.
      change (flag_set 4 (Z.lor 2097152 4194304)) with false. simpl.
      destruct (Qlt_le_dec 0 speed) as [Hs|Hs]; simpl.
      * split; [done|]. split; [by right; right|]. split; [|done].
        intros _. split; [done|]. split; [done|]. by exists to_dl, dl, bd.
      * split; [done|]. split; [by right; left|]. split; [done|].
        intros (_ & Hlt & _). exfalso. eapply Qlt_irrefl, Qlt_le_trans; eauto.
    + apply Z.eqb_neq in E.
      change (flag_set 4 (Z.lor (Z.lor 256 1024) 1048576)) with false. simpl.
      split; [done|]. split; [by left|]. split; [done|].
      intros (_ & _ & ? & ? & n & [= <-] & [= <-] & ? & ?). congruence.
Qed.

End DefaultFlags.

(** C10: a manifest without [StateFlags], with equal byte counts, while
    the log gives a positive speed: the status is downloading. *)
Lemma missing_state_flags_downloading :
  let content :=
    acf_text [("appid", "12345"); ("BytesToDownload", "5000000");
              ("BytesDownloaded", "5000000")] in
  let g := {| app_id := 12345; name := "Unknown"; path := "appmanifest_12345.acf" |} in
  (exists data, parse_acf (H := Re.backtracking) (fun _ => Some content) = Return data
                /\ data !! "StateFlags" = None)
  /\ snd (sample_status (H := Re.backtracking) init Missing
            (fun _ => Some content) 1 g 0) = DOWNLOADING.
Proof.
  split; [|by vm_compute].
  eexists. split; [reflexivity|]. by vm_compute.
Qed.

(** C10: an instance of the amended statement, on that manifest. *)
Lemma missing_state_flags_spec_witness :
  let data : gmap string string :=
    <["BytesToDownload" := "5000000"]> (<["BytesDownloaded" := "5000000"]> ∅) in
  data !! "StateFlags" = None
  /\ Py.int (default "4" (data !! "StateFlags")) = Some 4.
Proof.
  split; [reflexivity|].
  refine (proj1 (missing_state_flags_spec (H := Re.backtracking) _ _)).
  reflexivity.
Defined.

Lemma drop_all (s : string) : Py.drop (String.length s) s = EmptyString.
Proof. induction s as [|c s IH]; simpl; done. Qed.

Lemma set_last_pos_same (self : LogParser) : set_last_pos (last_pos self) self = self.
Proof. by destruct self. Qed.

Section Settled.
Context `{Re.PyRe}.

Lemma settled_refresh file engine now :
  settled file engine -> _update_log_state engine file false now = engine.
Proof.
  destruct file as [| |size|text]; try done; unfold settled; intros Hs.
  { simpl. by replace (size <? last_pos engine)%nat with false
      by (symmetry; apply Nat.ltb_ge; lia). }
  rewrite update_log_state_unfold. unfold lines_read, reloads.
  rewrite Hs, Nat.ltb_irrefl. simpl. rewrite drop_all. simpl.
  rewrite <- Hs. apply set_last_pos_same.
Qed.

Lemma refresh_settled file self full_load now :
  settled file (_update_log_state self file full_load now).
Proof.
  destruct file as [| |size|text]; try done; unfold settled;
    rewrite update_log_state_last_pos; [|done].
  destruct (size <? last_pos self)%nat eqn:E; [lia|]. by apply Nat.ltb_ge in E.
Qed.

(** X2.  A refresh of an unchanged file, after a refresh, changes nothing:
    the second call reads no line and returns before it scans or prunes. *)
Lemma refresh_idempotent file self full_load now now' :
  _update_log_state (_update_log_state self file full_load now) file false now'
  = _update_log_state self file full_load now.
Proof. apply settled_refresh, refresh_settled. Qed.
End Settled.

Lemma dict_get_set {V} (d : list (Z * V)) k v k' :
  dict_get (dict_set d k v) k' = if k' =? k then Some v else dict_get d k'.
Proof.
  induction d as [|[k0 v0] d IH]; simpl.
  - done.
  - destruct (k =? k0) eqn:E; simpl.
    + apply Z.eqb_eq in E as ->. by destruct (k' =? k0).
    + rewrite IH. destruct (k' =? k0) eqn:E'; [|done].
      apply Z.eqb_eq in E' as ->. apply Z.eqb_neq in E.
      by replace (k0 =? k) with false by (symmetry; apply Z.eqb_neq; congruence).
Qed.

Section SortedTwice.
Context {A : Type} (key : A -> Z).

Lemma insert_desc_head x l :
  (forall y, y ∈ l -> key y <= key x) -> Py.insert_desc key x l = x :: l.
Proof.
  destruct l as [|y l]; [done|]. intros Hmax. simpl.
  replace (key y <=? key x) with true; [done|].
  symmetry. apply Z.leb_le. apply Hmax. left.
Qed.

Lemma sorted_reverse_fixed l : descending key l -> Py.sorted_reverse key l = l.
Proof.
  induction l as [|x l IH]; [done|]. intros Hs.
  apply StronglySorted_cons in Hs as [Hall Hs].
  change (Py.sorted_reverse key (x :: l))
    with (Py.insert_desc key x (Py.sorted_reverse key l)).
  rewrite IH by done. apply insert_desc_head.
  rewrite Forall_forall in Hall. exact Hall.
Qed.

Lemma sorted_reverse_twice l :
  Py.sorted_reverse key (Py.sorted_reverse key l) = Py.sorted_reverse key l.
Proof. apply sorted_reverse_fixed, sorted_reverse_sorted. Qed.
End SortedTwice.

Section RecentPause.
#[local] Arguments Py.sorted_reverse : simpl never.

(** What [recent_pause] does, by cases on the list of the app. *)
Lemma recent_pause_unfold engine app :
  recent_pause engine app =
    match default [] (dict_get (recent_events engine) app) with
    | [] => (engine, None)
    | events =>
        (set_recent_events
           (dict_set (recent_events engine) app (Py.sorted_reverse fst events))
           engine,
         match Py.sorted_reverse fst events with
         | (ts, k) :: _ => if etype_eqb k pause then Some (ts, "paused") else None
         | [] => None
         end)
    end.
Proof.
  unfold recent_pause.
  destruct (default [] (dict_get (recent_events engine) app)) as [|e events]; [done|].
  destruct (Py.sorted_reverse fst (e :: events)) as [|[ts k] rest] eqn:Es; [|by destruct (etype_eqb k pause)].
  by apply sorted_reverse_nil in Es.
Qed.

Lemma recent_pause_frame engine app :
  last_pos (fst (recent_pause engine app)) = last_pos engine
  /\ latest_rate (fst (recent_pause engine app)) = latest_rate engine
  /\ rate_entries (fst (recent_pause engine app)) = rate_entries engine
  /\ depot_to_app (fst (recent_pause engine app)) = depot_to_app engine.
Proof.
  rewrite recent_pause_unfold.
  by destruct (default [] (dict_get (recent_events engine) app)).
Qed.

Lemma recent_pause_settled file engine app :
  settled file engine -> settled file (fst (recent_pause engine app)).
Proof.
  destruct file as [| |size|text]; try done; unfold settled;
    by destruct (recent_pause_frame engine app) as [-> _].
Qed.

(** The answer for an app is the same after a question about any app. *)
Lemma recent_pause_again engine a b :
  snd (recent_pause (fst (recent_pause engine a)) b) = snd (recent_pause engine b).
Proof.
  rewrite (recent_pause_unfold engine a).
  destruct (default [] (dict_get (recent_events engine) a)) as [|e events] eqn:Ea;
    [done|].
  simpl. rewrite !recent_pause_unfold. simpl. rewrite dict_get_set.
  destruct (b =? a) eqn:E.
  - apply Z.eqb_eq in E as ->. rewrite Ea. simpl.
    destruct (Py.sorted_reverse fst (e :: events)) as [|e' rest] eqn:Es.
    { by apply sorted_reverse_nil in Es. }
    assert (Hfix : Py.sorted_reverse fst (e' :: rest) = e' :: rest)
      by (rewrite <- Es; apply sorted_reverse_twice).
    simpl. rewrite Hfix. by destruct e'.
  - by destruct (default [] (dict_get (recent_events engine) b)).
Qed.
End RecentPause.

Section FallbackFacts.
Context `{Re.PyRe}.

Lemma by_progress_add flags data entry b :
  by_progress flags data entry b =
    match by_progress flags data entry {| active_games := []; paused_games := [] |} with
    | Return b' =>
        Return {| active_games := active_games b ++ active_games b';
                  paused_games := paused_games b ++ paused_games b' |}
    | Raise e => Raise e
    end.
Proof.
  unfold by_progress. destruct b as [a p]. simpl.
  destruct (flag_set flags _); simpl; [|by rewrite app_nil_r].
  destruct (data !! "BytesToDownload") as [to_dl|]; simpl; [|by rewrite !app_nil_r].
  destruct (data !! "BytesDownloaded") as [dl|]; simpl; [|by rewrite !app_nil_r].
  destruct (Py.int to_dl); simpl; [|done].
  destruct (Py.int dl) as [bd|]; simpl; [|done].
  destruct (bd <? _); simpl; by rewrite ?app_nil_r.
Qed.

Lemma by_progress_single flags data entry b :
  by_progress flags data entry {| active_games := []; paused_games := [] |} = Return b ->
  (active_games b = [] \/ active_games b = [entry])
  /\ (paused_games b = [] \/ paused_games b = [entry]).
Proof.
  unfold by_progress.
  destruct (flag_set flags _); simpl; [|intros [= <-]; simpl; auto].
  destruct (data !! "BytesToDownload") as [to_dl|]; simpl; [|intros [= <-]; simpl; auto].
  destruct (data !! "BytesDownloaded") as [dl|]; simpl; [|intros [= <-]; simpl; auto].
  destruct (Py.int to_dl); simpl; [|done].
  destruct (Py.int dl) as [bd|]; simpl; [|done].
  destruct (bd <? _); simpl; intros [= <-]; simpl; auto.
Qed.

(** One turn of the loop: the engine keeps answering as the refreshed
    one, and the buckets grow by the entries of the manifest. *)
Lemma fallback_step_spec file now start p b acf :
  let engine := _update_log_state start file false now in
  answers_as file start engine p ->
  answers_as file start engine (fst (fallback_step file now (p, b) acf))
  /\ snd (fallback_step file now (p, b) acf) =
       {| active_games := active_games b ++ option_list (active_entry engine acf);
          paused_games := paused_games b ++ option_list (paused_entry engine acf) |}.
Proof.
  intros engine Hp. unfold fallback_step, active_entry, paused_entry, manifest_view.
  destruct (parse_acf (read acf)) as [data|e]; simpl.
  2:{ split; [done|]. destruct b. simpl. by rewrite !app_nil_r. }
  destruct (Py.int (default "0" (data !! "appid"))) as [app|]; simpl.
  2:{ split; [done|]. destruct b. simpl. by rewrite !app_nil_r. }
  destruct (app =? 0); simpl.
  { split; [done|]. destruct b. simpl. by rewrite !app_nil_r. }
  destruct (Py.int (default "4" (data !! "StateFlags"))) as [flags|]; simpl.
  2:{ split; [done|]. destruct b. simpl. by rewrite !app_nil_r. }
  assert (Hq : answers_as file start engine
                 (fst (get_recent_pause_info p file app now))
               /\ snd (get_recent_pause_info p file app now)
                  = snd (recent_pause engine app)).
  { unfold get_recent_pause_info. destruct Hp as [->|[Hs Ha]].
    - fold engine. split; [|done]. right. split.
      + apply recent_pause_settled, refresh_settled.
      + intros b'. apply recent_pause_again.
    - rewrite (settled_refresh file p now Hs). split; [|apply Ha].
      right. split; [by apply recent_pause_settled|].
      intros b'. rewrite recent_pause_again. apply Ha. }
  destruct (get_recent_pause_info p file app now) as [p' info]. simpl in Hq.
  destruct Hq as [Hp' ->].
  destruct (snd (recent_pause engine app)) as [i|]; simpl.
  { split; [done|]. by rewrite app_nil_r. }
  destruct (flag_set flags 512); simpl.
  { split; [done|]. by rewrite app_nil_r. }
  rewrite by_progress_add.
  destruct (by_progress flags data _ {| active_games := []; paused_games := [] |})
    as [b'|e] eqn:Eb; simpl.
  - split; [done|]. apply by_progress_single in Eb as [[-> | ->] [-> | ->]]; done.
  - split; [done|]. destruct b. simpl. by rewrite !app_nil_r.
Qed.

Lemma fallback_loop_spec file now start steamapps p b :
  let engine := _update_log_state start file false now in
  answers_as file start engine p ->
  snd (foldl (fallback_step file now) (p, b) steamapps) =
    {| active_games := active_games b ++ omap (active_entry engine) steamapps;
       paused_games := paused_games b ++ omap (paused_entry engine) steamapps |}.
Proof.
  intros engine. subst engine. revert p b.
  induction steamapps as [|acf l IH]; intros p b Hp.
  - destruct b. simpl. by rewrite !app_nil_r.
  - destruct (fallback_step_spec file now start p b acf Hp) as [Hp' Hb].
    change (foldl (fallback_step file now) (p, b) (acf :: l))
      with (foldl (fallback_step file now) (fallback_step file now (p, b) acf) l).
    destruct (fallback_step file now (p, b) acf) as [p' b'] eqn:Es.
    cbn [fst snd] in Hp', Hb. rewrite (IH p' b' Hp'). rewrite Hb. simpl.
    rewrite <- !app_assoc. f_equal; f_equal.
    + simpl. by destruct (active_entry _ acf).
    + simpl. by destruct (paused_entry _ acf).
Qed.

Lemma not_pause_reported engine app :
  ~ pause_reported engine app <-> snd (recent_pause engine app) = None.
Proof.
  unfold pause_reported. destruct (snd (recent_pause engine app)); split; try done.
  intros Hn. destruct Hn. by eexists.
Qed.

Lemma active_entry_spec engine acf e :
  active_entry engine acf = Some e
  <-> in_active_bucket engine acf
      /\ exists g, candidate_game acf = Some g /\ e = (st_mtime acf, g).
Proof.
  unfold active_entry, in_active_bucket, candidate_game. split.
  - destruct (manifest_view acf) as [[[data app] flags]|]; [|done].
    destruct (snd (recent_pause engine app)) as [i|] eqn:Ei; [done|].
    destruct (flag_set flags 512) eqn:E5; [done|].
    apply flag_set_false in E5. unfold by_progress. fold DOWNLOAD_FLAGS.
    destruct (flag_set flags DOWNLOAD_FLAGS) eqn:Ed; [|done].
    apply flag_set_true in Ed.
    destruct (data !! "BytesToDownload") as [to_dl|] eqn:Eto; [|done].
    destruct (data !! "BytesDownloaded") as [dl|] eqn:Edl; [|done].
    destruct (Py.int to_dl) as [bt|] eqn:Et; [|done].
    destruct (Py.int dl) as [bd|] eqn:Eb; [|done].
    destruct (bd <? bt) eqn:El; [|done].
    apply Z.ltb_lt in El. simpl. intros [= <-]. split; [|by eexists].
    exists data, app, flags. split; [done|].
    split; [by apply not_pause_reported|]. split; [done|]. split; [done|].
    by exists to_dl, dl, bt, bd.
  - intros [(data & app & flags & Hv & Hnp & H5 & Hd & Hprog) (g & Hg & ->)].
    destruct Hprog as (to_dl & dl & bt & bd & Eto & Edl & Et & Eb & Hlt).
    rewrite Hv in *. injection Hg as <-.
    apply not_pause_reported in Hnp. rewrite Hnp.
    apply flag_set_false in H5. rewrite H5.
    unfold by_progress. fold DOWNLOAD_FLAGS.
    apply flag_set_true in Hd. rewrite Hd, Eto, Edl, Et, Eb.
    apply Z.ltb_lt in Hlt. by rewrite Hlt.
Qed.

Lemma paused_entry_spec engine acf e :
  paused_entry engine acf = Some e
  <-> in_paused_bucket engine acf
      /\ exists g, candidate_game acf = Some g /\ e = (st_mtime acf, g).
Proof.
  unfold paused_entry, in_paused_bucket, candidate_game. split.
  - destruct (manifest_view acf) as [[[data app] flags]|]; [|done].
    destruct (snd (recent_pause engine app)) as [i|] eqn:Ei.
    { intros [= <-]. split; [|by eexists]. exists data, app, flags.
      split; [done|]. left. unfold pause_reported. rewrite Ei. by eexists. }
    destruct (flag_set flags 512) eqn:E5.
    { apply flag_set_true in E5. intros [= <-]. split; [|by eexists].
      exists data, app, flags. auto. }
    unfold by_progress. fold DOWNLOAD_FLAGS.
    destruct (flag_set flags DOWNLOAD_FLAGS) eqn:Ed.
    + destruct (data !! "BytesToDownload") as [to_dl|]; [|done].
      destruct (data !! "BytesDownloaded") as [dl|]; [|done].
      destruct (Py.int to_dl) as [bt|]; [|done].
      destruct (Py.int dl) as [bd|]; [|done].
      by destruct (bd <? bt).
    + apply flag_set_false in Ed. simpl. intros [= <-]. split; [|by eexists].
      exists data, app, flags. auto.
  - intros [(data & app & flags & Hv & Hcase) (g & Hg & ->)].
    rewrite Hv in *. injection Hg as <-.
    destruct (snd (recent_pause engine app)) as [i|] eqn:Ei; [done|].
    destruct Hcase as [Hp|[H5|Hd]].
    + unfold pause_reported in Hp. rewrite Ei in Hp. by destruct Hp.
    + apply flag_set_true in H5. by rewrite H5.
    + destruct (flag_set flags 512); [done|].
      unfold by_progress. fold DOWNLOAD_FLAGS.
      apply flag_set_false in Hd. by rewrite Hd.
Qed.

End FallbackFacts.

Section FallbackResolver.
Context `{Re.PyRe}.

Lemma in_active_bucket_game engine acf :
  in_active_bucket engine acf -> is_Some (candidate_game acf).
Proof.
  intros (data & app & flags & Hv & _). unfold candidate_game. rewrite Hv. by eexists.
Qed.

Lemma in_paused_bucket_game engine acf :
  in_paused_bucket engine acf -> is_Some (candidate_game acf).
Proof.
  intros (data & app & flags & Hv & _). unfold candidate_game. rewrite Hv. by eexists.
Qed.

Lemma elem_of_active_entries engine (steamapps : list manifest) m g :
  (m, g) ∈ omap (active_entry engine) steamapps
  <-> exists acf, acf ∈ steamapps /\ in_active_bucket engine acf
        /\ candidate_game acf = Some g /\ m = st_mtime acf.
Proof.
  rewrite list_elem_of_omap. split.
  - intros (acf & Hin & He). apply active_entry_spec in He as [Ha (g' & Hg & [= -> ->])].
    by exists acf.
  - intros (acf & Hin & Ha & Hg & ->). exists acf. split; [done|].
    apply active_entry_spec. split; [done|]. by exists g.
Qed.

Lemma elem_of_paused_entries engine (steamapps : list manifest) m g :
  (m, g) ∈ omap (paused_entry engine) steamapps
  <-> exists acf, acf ∈ steamapps /\ in_paused_bucket engine acf
        /\ candidate_game acf = Some g /\ m = st_mtime acf.
Proof.
  rewrite list_elem_of_omap. split.
  - intros (acf & Hin & He). apply paused_entry_spec in He as [Ha (g' & Hg & [= -> ->])].
    by exists acf.
  - intros (acf & Hin & Ha & Hg & ->). exists acf. split; [done|].
    apply paused_entry_spec. split; [done|]. by exists g.
Qed.

(** The head of a bucket sorted by modification time, newest first. *)
Lemma newest_of_bucket (l : list (Z * DownloadingGame)) :
  match Py.sorted_reverse fst l with
  | (m, g) :: _ => (m, g) ∈ l /\ forall m' g', (m', g') ∈ l -> m' <= m
  | [] => l = []
  end.
Proof.
  destruct (Py.sorted_reverse fst l) as [|[m g] rest] eqn:Es.
  - by apply sorted_reverse_nil in Es.
  - apply sorted_reverse_head in Es as [Hin Hmax]. split; [done|].
    intros m' g' Hin'. apply (Hmax (m', g') Hin').
Qed.

(** C4, as amended.  The fallback resolver puts in no bucket a manifest
    that fails to parse or whose [appid] is 0.  A manifest is in the paused
    bucket if a pause is reported for its app, or [flags & 512] is set, or
    no flag of [256 | 1024 | 1048576] is set; it is in the active bucket if
    no pause is reported, [flags & 512] is not set, a flag of
    [256 | 1024 | 1048576] is set and [BytesToDownload] is strictly greater
    than [BytesDownloaded]; a manifest with such a flag and no such
    progress is in neither.  The resolver returns the game of a manifest of
    the active bucket that none of that bucket was modified after; if the
    active bucket is empty, the same of the paused bucket; and none if
    both are empty. *)
Theorem find_active_game_fallback_spec (parser : LogParser) (file : log_file)
    (steamapps : list manifest) (now : Z) :
  let engine := _update_log_state parser file false now in
  let answer := snd (_find_active_game_fallback parser file steamapps now) in
  (forall acf,
     (exists e, parse_acf (read acf) = Raise e)
     \/ (exists data, parse_acf (read acf) = Return data
           /\ Py.int (default "0" (data !! "appid")) = Some 0) ->
     ~ in_active_bucket engine acf /\ ~ in_paused_bucket engine acf)
  /\ match answer with
     | Some g =>
         exists acf, acf ∈ steamapps /\ candidate_game acf = Some g
           /\ ((in_active_bucket engine acf
                /\ forall acf', acf' ∈ steamapps -> in_active_bucket engine acf' ->
                     st_mtime acf' <= st_mtime acf)
               \/ ((forall acf', acf' ∈ steamapps -> ~ in_active_bucket engine acf')
                   /\ in_paused_bucket engine acf
                   /\ forall acf', acf' ∈ steamapps -> in_paused_bucket engine acf' ->
                        st_mtime acf' <= st_mtime acf))
     | None =>
         forall acf, acf ∈ steamapps ->
           ~ in_active_bucket engine acf /\ ~ in_paused_bucket engine acf
     end.
Proof.
  intros engine answer. split.
  - intros acf Hskip.
    assert (Hv : manifest_view acf = None).
    { unfold manifest_view. destruct Hskip as [[e ->]|(data & -> & Ha)]; [done|].
      by rewrite Ha. }
    split; intros (? & ? & ? & Hv' & _); congruence.
  - subst answer. unfold _find_active_game_fallback.
    pose proof (fallback_loop_spec file now parser steamapps parser
                  {| active_games := []; paused_games := [] |}
                  (or_introl eq_refl)) as Hloop.
    destruct (foldl (fallback_step file now) _ steamapps) as [p' b] eqn:Ef.
    simpl in Hloop. subst b. fold engine. unfold pick. simpl.
    assert (Hno_active : omap (active_entry engine) steamapps = [] ->
              forall acf', acf' ∈ steamapps -> ~ in_active_bucket engine acf').
    { intros Hnil acf' Hin Ha.
      destruct (in_active_bucket_game _ _ Ha) as [g Hg].
      assert (Hm : (st_mtime acf', g) ∈ omap (active_entry engine) steamapps).
      { apply elem_of_active_entries. by exists acf'. }
      rewrite Hnil in Hm. by apply elem_of_nil in Hm. }
    assert (Hno_paused : omap (paused_entry engine) steamapps = [] ->
              forall acf', acf' ∈ steamapps -> ~ in_paused_bucket engine acf').
    { intros Hnil acf' Hin Ha.
      destruct (in_paused_bucket_game _ _ Ha) as [g Hg].
      assert (Hm : (st_mtime acf', g) ∈ omap (paused_entry engine) steamapps).
      { apply elem_of_paused_entries. by exists acf'. }
      rewrite Hnil in Hm. by apply elem_of_nil in Hm. }
    destruct (omap (active_entry engine) steamapps) as [|ea la] eqn:Ea.
    + destruct (omap (paused_entry engine) steamapps) as [|ep lp] eqn:Ep.
      * intros acf Hin. split; [by apply Hno_active|by apply Hno_paused].
      * pose proof (newest_of_bucket (ep :: lp)) as Hn.
        destruct (Py.sorted_reverse fst (ep :: lp)) as [|[m g] rest]; [done|].
        destruct Hn as [Hin Hmax]. rewrite <- Ep in Hin.
        apply elem_of_paused_entries in Hin as (acf & Hin & Hp & Hg & ->).
        exists acf. split; [done|]. split; [done|]. right.
        split; [by apply Hno_active|]. split; [done|].
        intros acf' Hin' Hp'. destruct (in_paused_bucket_game _ _ Hp') as [g' Hg'].
        apply (Hmax (st_mtime acf') g'). rewrite <- Ep.
        apply elem_of_paused_entries. by exists acf'.
    + pose proof (newest_of_bucket (ea :: la)) as Hn.
      destruct (Py.sorted_reverse fst (ea :: la)) as [|[m g] rest]; [done|].
      destruct Hn as [Hin Hmax]. rewrite <- Ea in Hin.
      apply elem_of_active_entries in Hin as (acf & Hin & Hp & Hg & ->).
      exists acf. split; [done|]. split; [done|]. left. split; [done|].
      intros acf' Hin' Hp'. destruct (in_active_bucket_game _ _ Hp') as [g' Hg'].
      apply (Hmax (st_mtime acf') g'). rewrite <- Ea.
      apply elem_of_active_entries. by exists acf'.
Qed.

End FallbackResolver.

(** C4: a manifest with a download flag whose byte counts are equal is in
    no bucket: the fallback finds nothing, where the specification puts it
    in the paused bucket. *)
Lemma fallback_drops_completed_download :
  let acf :=
    {| acf_path := "appmanifest_12345.acf";
       read := fun _ => Some (acf_text [("appid", "12345"); ("StateFlags", "256");
                                        ("BytesDownloaded", "5000000");
                                        ("BytesToDownload", "5000000")]);
       st_mtime := 1 |} in
  (exists data, manifest_view (H := Re.backtracking) acf = Some (data, 12345, 256)
                /\ (Py.int <$> data !! "BytesToDownload") = Some (Some 5000000)
                /\ (Py.int <$> data !! "BytesDownloaded") = Some (Some 5000000))
  /\ snd (get_recent_pause_info (H := Re.backtracking) init Missing 12345 0) = None
  /\ bucket_as_specified false 256 5000000 5000000 = Paused
  /\ snd (_find_active_game_fallback (H := Re.backtracking) init Missing [acf] 0)
     = None.
Proof.
  split; [|by vm_compute].
  eexists. split; [reflexivity|]. by vm_compute.
Qed.

Section DictFacts.
Context {V : Type}.
Implicit Types (d : list (Z * V)) (k : Z) (v : V).

Lemma dict_get_None d k : dict_get d k = None <-> k ∉ dict_keys d.
Proof.
  unfold dict_keys. induction d as [|[k' v'] d IH]; simpl.
  - split; [intros _ Hx; by apply elem_of_nil in Hx|done].
  - rewrite not_elem_of_cons. destruct (k =? k') eqn:E.
    + apply Z.eqb_eq in E. split; [done|]. intros [? _]. done.
    + apply Z.eqb_neq in E. rewrite IH. tauto.
Qed.

Lemma dict_get_Some_elem d k v : dict_get d k = Some v -> (k, v) ∈ d.
Proof.
  induction d as [|[k' v'] d IH]; simpl; [done|].
  destruct (k =? k') eqn:E.
  - apply Z.eqb_eq in E as ->. intros [= ->]. left.
  - intros Hg. right. by apply IH.
Qed.

Lemma dict_get_app d1 d2 k :
  dict_get (d1 ++ d2) k =
    match dict_get d1 k with Some v => Some v | None => dict_get d2 k end.
Proof.
  induction d1 as [|[k' v'] d1 IH]; simpl; [done|]. by destruct (k =? k').
Qed.

Lemma dict_set_keys d k v :
  is_Some (dict_get d k) -> dict_keys (dict_set d k v) = dict_keys d.
Proof.
  unfold dict_keys. induction d as [|[k' v'] d IH]; simpl.
  - by intros [? ?].
  - destruct (k =? k') eqn:E; simpl.
    + apply Z.eqb_eq in E as ->. done.
    + intros Hs. by rewrite IH.
Qed.

Lemma dict_set_new d k v :
  dict_get d k = None -> dict_set d k v = d ++ [(k, v)].
Proof.
  induction d as [|[k' v'] d IH]; simpl; [done|].
  destruct (k =? k'); [done|]. intros Hn. by rewrite IH.
Qed.

Lemma dict_setdefault_keys d k v :
  NoDup (dict_keys d) -> NoDup (dict_keys (dict_setdefault d k v)).
Proof.
  unfold dict_setdefault. destruct (dict_get d k) eqn:E; [done|].
  intros Hnd. rewrite dict_set_new by done. unfold dict_keys.
  rewrite fmap_app. simpl. apply NoDup_app. split; [done|].
  split; [|apply NoDup_singleton].
  intros x Hx Hx'. apply list_elem_of_singleton in Hx' as ->.
  by apply dict_get_None in E.
Qed.

Lemma dict_get_setdefault d k v k' :
  default v (dict_get (dict_setdefault d k v) k') = default v (dict_get d k').
Proof.
  unfold dict_setdefault. destruct (dict_get d k) eqn:E; [done|].
  rewrite dict_get_set. destruct (k' =? k) eqn:E'; [|done].
  apply Z.eqb_eq in E' as ->. by rewrite E.
Qed.

Lemma dict_set_app d1 d2 k v :
  k ∉ dict_keys d1 -> dict_set (d1 ++ d2) k v = d1 ++ dict_set d2 k v.
Proof.
  unfold dict_keys. induction d1 as [|[k' v'] d1 IH]; simpl; [done|].
  rewrite not_elem_of_cons. intros [Hne Hn].
  replace (k =? k') with false by (symmetry; by apply Z.eqb_neq).
  by rewrite IH.
Qed.

Lemma dict_del_app d1 d2 k :
  k ∉ dict_keys d1 -> dict_del (d1 ++ d2) k = d1 ++ dict_del d2 k.
Proof.
  unfold dict_keys. induction d1 as [|[k' v'] d1 IH]; simpl; [done|].
  rewrite not_elem_of_cons. intros [Hne Hn].
  replace (k =? k') with false by (symmetry; by apply Z.eqb_neq).
  by rewrite IH.
Qed.
End DictFacts.

Lemma pruned_keys now d k : k ∈ dict_keys (pruned now d) -> k ∈ dict_keys d.
Proof.
  unfold dict_keys, pruned. rewrite !list_elem_of_fmap.
  intros ([k' l'] & -> & Hin). apply list_elem_of_omap in Hin as ([k0 l0] & Hin & E).
  simpl in E. destruct (filter _ l0); [done|]. injection E as <- <-.
  by exists (k0, l0).
Qed.

Lemma pruned_NoDup now d : NoDup (dict_keys d) -> NoDup (dict_keys (pruned now d)).
Proof.
  unfold dict_keys. induction d as [|[k l] d IH]; simpl; [done|].
  rewrite NoDup_cons. intros [Hk Hnd]. unfold pruned in *. simpl.
  destruct (filter _ l) as [|e kept]; [by apply IH|].
  simpl. apply NoDup_cons. split; [|by apply IH].
  intros Hin. apply Hk. by apply (pruned_keys now d k).
Qed.

(** The loop of lines 196-203 is [pruned]. *)
Lemma prune_loop now (done_ rest : list (Z * list event)) :
  NoDup (dict_keys (done_ ++ rest)) ->
  foldl (prune_app now) (done_ ++ rest) (dict_keys rest)
  = done_ ++ pruned now rest.
Proof.
  revert done_. induction rest as [|[k l] rest IH]; intros done_ Hnd; [done|].
  assert (Hk : k ∉ dict_keys done_).
  { unfold dict_keys in *. rewrite fmap_app in Hnd. apply NoDup_app in Hnd as (_ & Hd & _).
    intros Hin. apply (Hd k Hin). left. }
  simpl. unfold prune_app at 2.
  rewrite dict_get_app. apply dict_get_None in Hk as Hg. rewrite Hg. simpl.
  rewrite Z.eqb_refl. unfold pruned. simpl.
  destruct (filter _ l) as [|e kept] eqn:Ef.
  - rewrite dict_del_app by done. simpl. rewrite Z.eqb_refl.
    apply IH. unfold dict_keys in *. rewrite fmap_app in *. simpl in Hnd.
    apply NoDup_app in Hnd as (H1 & H2 & H3). apply NoDup_cons in H3 as [_ H3].
    apply NoDup_app. split; [done|]. split; [|done].
    intros x Hx Hx'. apply (H2 x Hx). by right.
  - rewrite dict_set_app by done. simpl. rewrite Z.eqb_refl.
    specialize (IH (done_ ++ [(k, e :: kept)])).
    rewrite <- !app_assoc in IH. simpl in IH. apply IH.
    unfold dict_keys in *. rewrite !fmap_app in *. simpl in *. done.
Qed.

Lemma prune_events now self :
  well_formed self -> recent_events (prune now self) = pruned now (recent_events self).
Proof.
  intros Hwf. unfold prune. simpl.
  apply (prune_loop now [] (recent_events self)). exact Hwf.
Qed.

Lemma dict_get_pruned now d k :
  NoDup (dict_keys d) ->
  default [] (dict_get (pruned now d) k) =
    filter (fun e : event => Py.total_seconds_le (now - fst e) PRUNE_AGE_SEC = true)
           (default [] (dict_get d k)).
Proof.
  unfold dict_keys. induction d as [|[k' l] d IH]; simpl; [done|].
  rewrite NoDup_cons. intros [Hk Hnd]. unfold pruned in *. simpl.
  destruct (k =? k') eqn:E.
  - apply Z.eqb_eq in E as ->. simpl.
    destruct (filter _ l) as [|e kept] eqn:Ef; simpl; [|by rewrite Z.eqb_refl].
    assert (Hn : dict_get (pruned now d) k' = None).
    { apply dict_get_None. intros Hin. apply Hk. by apply (pruned_keys now d k'). }
    unfold pruned in Hn. by rewrite Hn.
  - destruct (filter _ l) as [|e kept]; simpl; [by apply IH|].
    rewrite E. by apply IH.
Qed.

Section RetainedEvents.
Context `{Re.PyRe}.

Lemma filter_fresh now (l : list event) :
  Forall (fresh now) l ->
  filter (fun e : event => Py.total_seconds_le (now - fst e) PRUNE_AGE_SEC = true) l = l.
Proof.
  induction 1 as [|e l He _ IH]; [done|].
  rewrite filter_cons_True; [by rewrite IH|]. by apply total_seconds_le_within.
Qed.

Lemma filter_fresh_all now (l : list event) :
  Forall (fresh now)
    (filter (fun e : event => Py.total_seconds_le (now - fst e) PRUNE_AGE_SEC = true) l).
Proof.
  apply Forall_forall. intros e He. apply list_elem_of_filter in He as [He _].
  by apply total_seconds_le_within in He.
Qed.

(** The test of lines 194 and 200 is [fresh]. *)
Lemma filter_fresh_test now (l : list event) :
  filter (fun e : event => Py.total_seconds_le (now - fst e) PRUNE_AGE_SEC = true) l
  = filter (fresh now) l.
Proof.
  induction l as [|e l IH]; [done|].
  destruct (decide (fresh now e)) as [He|He].
  - rewrite !filter_cons_True; [by rewrite IH|done|by apply total_seconds_le_within].
  - rewrite !filter_cons_False; [done|done|by rewrite total_seconds_le_within].
Qed.

(** The loop of lines 181-187 finds the kind of the line. *)
Lemma first_pattern_find line app (kps before : list (etype * string)) :
  (first_pattern line app (length before) (map snd kps)
   ≫= fun idx => map fst (before ++ kps) !! idx)
  = fst <$> find (fun kp : etype * string =>
                    match Re.search false
                            (Py.replace "(?P<app_id>\d+)" (Py.str app) (snd kp)) line with
                    | Some _ => true
                    | None => false
                    end)
                 kps.
Proof.
  revert before. induction kps as [|[k p] kps IH]; intros before; [done|].
  cbn [map first_pattern find snd].
  destruct (Re.search false _ line) as [m|].
  - cbn [mbind option_bind fmap option_fmap option_map fst].
    rewrite map_app, lookup_app_r by (by rewrite length_map).
    by rewrite length_map, Nat.sub_diag.
  - specialize (IH (before ++ [(k, p)])).
    rewrite length_app, Nat.add_1_r, <- app_assoc in IH. exact IH.
Qed.

Lemma first_pattern_kind line app :
  (first_pattern line app 0 all_patterns ≫= fun idx => etypes !! idx)
  = line_kind line app.
Proof. exact (first_pattern_find line app classified []). Qed.

#[local] Arguments first_pattern : simpl never.
#[local] Arguments line_kind : simpl never.
#[local] Arguments Py.strptime : simpl never.
#[local] Arguments Py.int : simpl never.

Lemma line_records_fresh now app line : Forall (fresh now) (line_records now app line).
Proof.
  unfold line_records, line_event.
  destruct (Re.search false "AppID\s+(\d+)" line) as [m|]; [|done]. simpl.
  destruct (Py.int _) as [a|]; [|done]. simpl.
  destruct (Re.search false _ line) as [tm|]; [|done]. simpl.
  destruct (Py.strptime _) as [ts|]; [|done]. simpl.
  destruct (Py.total_seconds_gt _ _) eqn:Eg; [done|].
  destruct (line_kind line a) as [k|]; [|done]. simpl.
  destruct (a =? app); [|done].
  constructor; [|done]. by apply total_seconds_gt_within.
Qed.

(** What the lifecycle matcher does to the events of an app: it appends
    what the line records for it. *)
Lemma lifecycle_matcher_appends now line self app :
  (well_formed self -> well_formed (lifecycle_matcher now line self))
  /\ events_of (lifecycle_matcher now line self) app
     = events_of self app ++ line_records now app line.
Proof.
  unfold lifecycle_matcher, line_records, line_event.
  destruct (Re.search false "AppID\s+(\d+)" line) as [m|];
    [|by rewrite app_nil_r]. simpl.
  destruct (Py.int _) as [a|]; [|by rewrite app_nil_r]. simpl.
  set (self1 := set_recent_events (dict_setdefault (recent_events self) a []) self).
  assert (Hwf1 : well_formed self -> well_formed self1).
  { unfold well_formed, self1. simpl. apply dict_setdefault_keys. }
  assert (Hev1 : events_of self1 app = events_of self app).
  { rewrite !events_of_get. unfold self1. simpl. apply dict_get_setdefault. }
  assert (Hget1 : is_Some (dict_get (recent_events self1) a)).
  { unfold self1, dict_setdefault. simpl.
    destruct (dict_get (recent_events self) a) eqn:E; [by rewrite E|].
    rewrite dict_get_set, Z.eqb_refl. by eexists. }
  clearbody self1.
  destruct (Re.search false _ line) as [tm|]; [|by rewrite app_nil_r]. simpl.
  destruct (Py.strptime _) as [ts|]; [|by rewrite app_nil_r]. simpl.
  destruct (Py.total_seconds_gt _ _) eqn:Eg; [by rewrite app_nil_r|].
  rewrite <- first_pattern_kind.
  destruct (first_pattern _ _ _ _) as [idx|]; simpl; [|by rewrite app_nil_r].
  destruct (etypes !! idx) as [k|]; simpl; [|by rewrite app_nil_r].
  unfold append_event. destruct Hget1 as [events Eget]. rewrite Eget.
  split.
  - intros Hwf. unfold well_formed. simpl.
    rewrite dict_set_keys by (rewrite Eget; by eexists). by apply Hwf1.
  - rewrite events_of_get. simpl. rewrite dict_get_set.
    rewrite (Z.eqb_sym a app). destruct (app =? a) eqn:E.
    + apply Z.eqb_eq in E as ->. simpl. f_equal. rewrite <- Hev1.
      rewrite events_of_get. by rewrite Eget.
    + rewrite app_nil_r. rewrite <- Hev1. by rewrite events_of_get.
Qed.

Lemma lifecycle_matcher_events now line self app :
  (well_formed self -> well_formed (lifecycle_matcher now line self))
  /\ exists extra,
       events_of (lifecycle_matcher now line self) app = events_of self app ++ extra
       /\ Forall (fresh now) extra.
Proof.
  destruct (lifecycle_matcher_appends now line self app) as [Hwf He].
  split; [done|]. exists (line_records now app line). split; [done|].
  apply line_records_fresh.
Qed.

(** Whether the rate block leaves the line. *)
Lemma rate_matcher_flow now line self :
  rate_matcher now line self =
    if rate_refuses now (depot_to_app self) line
    then Continue (flow_state (rate_matcher now line self))
    else Next (flow_state (rate_matcher now line self)).
Proof.
  unfold rate_matcher, rate_refuses, accepted_rate.
  destruct (Re.search true _LINE_RE line) as [m|]; simpl; [|done].
  destruct (Py.strptime _) as [ts|]; simpl; [|done].
  destruct (Py.total_seconds_gt _ _); simpl; [done|].
  destruct (Py.float _) as [value|]; simpl; [|done].
  destruct (speed_bytes _ _) as [speed|]; simpl; [|done].
  pose proof (hold_rate_frame ts speed self) as (_ & _ & Hd & _).
  unfold owning_app, app_unreadable. rewrite Hd.
  destruct (Re.findall "AppID\s+(\d+)" line) as [|a rest].
  - destruct (Re.findall "depot\s+(\d+)" line) as [|depot rest]; [done|].
    destruct (depot_to_app self !! depot) as [a|]; [|done].
    by destruct (Py.int a).
  - by destruct (Py.int a).
Qed.

Lemma depot_matcher_after line self :
  depot_to_app (depot_matcher line self) = depots_after (depot_to_app self) line.
Proof.
  unfold depot_matcher, depots_after, DEPOT_PATTERNS. simpl.
  by destruct (Re.search false _ line).
Qed.

Lemma process_line_appends now self line app :
  (well_formed self -> well_formed (process_line now self line))
  /\ events_of (process_line now self line) app
     = events_of self app
       ++ (if rate_refuses now (depot_to_app self) line then []
           else line_records now app line)
  /\ depot_to_app (process_line now self line)
     = if rate_refuses now (depot_to_app self) line then depot_to_app self
       else depots_after (depot_to_app self) line.
Proof.
  unfold process_line. rewrite rate_matcher_flow.
  pose proof (rate_matcher_frame now line self) as (_ & Hr & Hdm & _).
  cbv zeta in Hr, Hdm.
  set (self1 := flow_state (rate_matcher now line self)) in *.
  destruct (rate_refuses now (depot_to_app self) line).
  - split; [unfold well_formed; by rewrite Hr|].
    split; [|done]. rewrite app_nil_r, !events_of_get. by rewrite Hr.
  - pose proof (depot_matcher_frame line self1) as (_ & Hd & _).
    destruct (lifecycle_matcher_appends now line (depot_matcher line self1) app)
      as [Hwf He].
    split; [|split].
    + intros Hs. apply Hwf. unfold well_formed in *. by rewrite Hd, Hr.
    + rewrite He. f_equal. rewrite !events_of_get. by rewrite Hd, Hr.
    + destruct (lifecycle_matcher_frame now line (depot_matcher line self1))
        as (_ & _ & -> & _).
      by rewrite depot_matcher_after, Hdm.
Qed.

Lemma process_line_events now self line app :
  (well_formed self -> well_formed (process_line now self line))
  /\ exists extra,
       events_of (process_line now self line) app = events_of self app ++ extra
       /\ Forall (fresh now) extra.
Proof.
  destruct (process_line_appends now self line app) as (Hwf & He & _).
  split; [done|]. eexists. split; [exact He|].
  destruct (rate_refuses _ _ _); [done|apply line_records_fresh].
Qed.

Lemma events_read_fresh now app depots lines :
  Forall (fresh now) (events_read now app depots lines).
Proof.
  revert depots. induction lines as [|line lines IH]; intros depots; [done|].
  simpl. destruct (rate_refuses now depots line); [apply IH|].
  apply Forall_app. split; [apply line_records_fresh|apply IH].
Qed.

Lemma process_lines_appends now lines self app :
  (well_formed self -> well_formed (foldl (process_line now) self lines))
  /\ events_of (foldl (process_line now) self lines) app
     = events_of self app ++ events_read now app (depot_to_app self) lines
  /\ depot_to_app (foldl (process_line now) self lines)
     = depots_read now (depot_to_app self) lines.
Proof.
  revert self. induction lines as [|line lines IH]; intros self; simpl.
  - by rewrite app_nil_r.
  - destruct (process_line_appends now self line app) as (Hwf & He & Hd).
    destruct (IH (process_line now self line)) as (Hwf' & He' & Hd').
    split; [auto|]. rewrite He', He, Hd', Hd.
    destruct (rate_refuses now (depot_to_app self) line).
    + by rewrite app_nil_r.
    + by rewrite app_assoc.
Qed.

Lemma process_lines_events now lines self app :
  (well_formed self -> well_formed (foldl (process_line now) self lines))
  /\ exists appended,
       events_of (foldl (process_line now) self lines) app
       = events_of self app ++ appended
       /\ Forall (fresh now) appended.
Proof.
  destruct (process_lines_appends now lines self app) as (Hwf & He & _).
  split; [done|]. eexists. split; [exact He|]. apply events_read_fresh.
Qed.

Lemma prune_well_formed now self : well_formed self -> well_formed (prune now self).
Proof.
  intros Hwf. unfold well_formed. rewrite prune_events by done.
  by apply pruned_NoDup.
Qed.

Lemma prune_events_of now self app :
  well_formed self ->
  events_of (prune now self) app =
    filter (fun e : event => Py.total_seconds_le (now - fst e) PRUNE_AGE_SEC = true)
           (events_of self app).
Proof.
  intros Hwf. rewrite !events_of_get. rewrite prune_events by done.
  by apply dict_get_pruned.
Qed.

(** The events of an app after a scan: the fresh ones of those it had,
    then those of the lines, in their order. *)
Lemma scan_appends now lines self app :
  well_formed self ->
  well_formed (scan now lines self)
  /\ events_of (scan now lines self) app
     = filter (fresh now) (events_of self app)
       ++ events_read now app (depot_to_app self) lines.
Proof.
  intros Hwf. unfold scan.
  destruct (process_lines_appends now lines self app) as (Hwf' & He & _).
  split; [by apply prune_well_formed, Hwf'|].
  rewrite prune_events_of by auto. rewrite He, filter_app. f_equal.
  - apply filter_fresh_test.
  - apply filter_fresh, events_read_fresh.
Qed.

Lemma scan_events now lines self app :
  well_formed self ->
  well_formed (scan now lines self)
  /\ exists appended,
       events_of (scan now lines self) app =
         filter (fun e : event => Py.total_seconds_le (now - fst e) PRUNE_AGE_SEC = true)
                (events_of self app)
         ++ appended
       /\ Forall (fresh now) appended.
Proof.
  intros Hwf. destruct (scan_appends now lines self app Hwf) as [Hwf' He].
  split; [done|]. eexists. split; [|apply events_read_fresh].
  rewrite He. by rewrite filter_fresh_test.
Qed.

(** The events of an app after a refresh. *)
Lemma refresh_appends self file full_load now app :
  well_formed self ->
  let refreshed := _update_log_state self file full_load now in
  let lines := lines_read self file full_load in
  well_formed refreshed
  /\ events_of refreshed app
     = (if reloads self file full_load then []
        else match lines with
             | [] => events_of self app
             | _ => filter (fresh now) (events_of self app)
             end)
       ++ events_read now app
            (if reloads self file full_load then ∅ else depot_to_app self) lines.
Proof.
  intros Hwf refreshed lines. subst refreshed lines.
  rewrite update_log_state_unfold.
  destruct file as [| |size|text].
  1,2: split; [done|]; simpl; by rewrite app_nil_r.
  { simpl. rewrite app_nil_r. by destruct (size <? last_pos self)%nat. }
  destruct (reloads self (Content text) full_load) eqn:Er.
  - destruct (scan_appends now (lines_read self (Content text) full_load)
                {| last_pos := String.length text; latest_rate := None;
                   recent_events := []; depot_to_app := ∅; rate_entries := [] |}
                app) as [Hwf' He].
    { unfold well_formed. simpl. constructor. }
    split; [done|]. rewrite He. done.
  - destruct (lines_read self (Content text) full_load) as [|l ls] eqn:El.
    + split; [done|]. simpl. by rewrite app_nil_r.
    + destruct (scan_appends now (l :: ls) (set_last_pos (String.length text) self) app)
        as [Hwf' He]; [done|].
      split; [done|]. rewrite He. done.
Qed.

Lemma refresh_events self file full_load now app :
  well_formed self ->
  let refreshed := _update_log_state self file full_load now in
  well_formed refreshed
  /\ exists kept appended,
       events_of refreshed app = kept ++ appended
       /\ kept `sublist_of`
            (if reloads self file full_load then [] else events_of self app)
       /\ Forall (fresh now) appended
       /\ (lines_read self file full_load <> [] -> Forall (fresh now) kept).
Proof.
  intros Hwf refreshed.
  destruct (refresh_appends self file full_load now app Hwf) as [Hwf' He].
  split; [done|]. eexists _, _. split; [exact He|].
  split; [|split; [apply events_read_fresh|]].
  - destruct (reloads self file full_load); [done|].
    destruct (lines_read self file full_load); [done|apply sublist_filter].
  - intros Hne. destruct (reloads self file full_load); [done|].
    destruct (lines_read self file full_load); [done|].
    apply Forall_forall. intros e He'. by apply list_elem_of_filter in He' as [? _].
Qed.

Lemma recent_pause_events engine asked :
  well_formed engine ->
  let after := fst (recent_pause engine asked) in
  well_formed after
  /\ events_of after asked = Py.sorted_reverse fst (events_of engine asked)
  /\ forall other, other <> asked -> events_of after other = events_of engine other.
Proof.
  intros Hwf after. subst after. rewrite recent_pause_unfold.
  setoid_rewrite events_of_get.
  destruct (dict_get (recent_events engine) asked) as [events|] eqn:Eg; simpl.
  2:{ rewrite Eg. by repeat split. }
  destruct events as [|e events]; [simpl; rewrite Eg; by repeat split|]. simpl.
  split; [|split].
  - unfold well_formed. simpl. rewrite dict_set_keys by (rewrite Eg; by eexists). done.
  - by rewrite dict_get_set, Z.eqb_refl.
  - intros other Hne. rewrite dict_get_set.
    by replace (other =? asked) with false by (symmetry; by apply Z.eqb_neq).
Qed.

End RetainedEvents.

(** C7: after the query, the list of the app is newest first. *)
Lemma pause_query_reorders_events :
  let engine := __init__ (H := Re.backtracking) started_then_paused (t0 + 30 * Py.second) in
  let after :=
    fst (get_recent_pause_info (H := Re.backtracking) engine started_then_paused
           12345 (t0 + 30 * Py.second)) in
  events_of engine 12345 = [(t0, start); (t0 + 20 * Py.second, pause)]
  /\ events_of after 12345 = [(t0 + 20 * Py.second, pause); (t0, start)]
  /\ ~ ascending fst (events_of after 12345).
Proof.
  assert (E : events_of
                (fst (get_recent_pause_info (H := Re.backtracking)
                        (__init__ (H := Re.backtracking) started_then_paused
                           (t0 + 30 * Py.second))
                        started_then_paused 12345 (t0 + 30 * Py.second))) 12345
              = [(t0 + 20 * Py.second, pause); (t0, start)]) by (by vm_compute).
  split; [by vm_compute|]. split; [exact E|].
  cbv zeta. rewrite E. intros Hs. apply StronglySorted_cons in Hs as [Hall _].
  apply Forall_cons in Hall as [Hle _]. vm_compute in Hle. by apply Hle.
Qed.

(** C6.  A pause that is two hours old is still reported: the file did
    not grow, so the refresh returned before its pruning, and
    [get_recent_pause_info] checks no age.  [get_status] answers paused
    from it. *)
Lemma stale_pause_is_reported :
  let engine := __init__ (H := Re.backtracking) paused_once (t0 + 10 * Py.second) in
  let later := t0 + 7200 * Py.second in
  recent_events engine = [(12345, [(t0, pause)])]
  /\ ~ within later t0 PRUNE_AGE_SEC
  /\ get_recent_pause_info (H := Re.backtracking) engine paused_once 12345 later
     = (engine, Some (t0, "paused"))
  /\ snd (get_status (H := Re.backtracking) engine paused_once 4 ∅ 0 12345 later)
     = Return PAUSED.
Proof.
  split; [by vm_compute|]. split; [by vm_compute|]. split; by vm_compute.
Qed.

Section ThreadFacts.
Context `{Re.PyRe}.

(** The three steps of a call (read the file, write the cursor, scan the
    lines), taken alone, are [_update_log_state]. *)
Lemma steps_alone file now self :
  let '(p1, s1) := step file now Entered self in
  let '(p2, s2) := step file now p1 s1 in
  snd (step file now p2 s2) = _update_log_state self file false now.
Proof.
  rewrite update_log_state_unfold. destruct file as [| |size|text]; try done.
  unfold step, lines_read, reloads. simpl.
  destruct (String.length text <? last_pos self)%nat; simpl; [done|].
  by destruct (Py.splitlines (Py.drop (last_pos self) text)).
Qed.

(** C9, as amended.  No lock protects the indexes of the engine.  When
    the file has grown by at least one line, the refresh of the handler and
    the refresh of a query can both have read the file before either has
    written the cursor: both are then inside the update at once, and once
    both have returned the new lines were scanned twice, where one refresh
    after the other scans them once. *)
Theorem refreshes_interleave (self : LogParser) (text : string)
    (now_handler now_query : Z)
    (Hgrown : (last_pos self <= String.length text)%nat)
    (Hnew : Py.splitlines (Py.drop (last_pos self) text) <> []) :
  let lines := Py.splitlines (Py.drop (last_pos self) text) in
  let read_once := set_last_pos (String.length text) self in
  (* both calls are inside the update at once *)
  (let c := run (Content text) now_handler now_query [false; true] (both_enter self) in
   inside (handler c) /\ inside (query c) /\ engine c = self)
  (* and the new lines are then scanned twice *)
  /\ run (Content text) now_handler now_query interleaved (both_enter self)
     = {| handler := Returned; query := Returned;
          engine := scan now_query lines (scan now_handler lines read_once) |}
  (* where one call after the other scans them once *)
  /\ run (Content text) now_handler now_query one_after_the_other (both_enter self)
     = {| handler := Returned; query := Returned;
          engine := scan now_handler lines read_once |}.
Proof.
  intros lines read_once. subst lines read_once.
  assert (Hlt : (String.length text <? last_pos self)%nat = false)
    by (apply Nat.ltb_ge; lia).
  destruct (Py.splitlines (Py.drop (last_pos self) text)) as [|l ls] eqn:El; [done|].
  assert (Hpos : last_pos (scan now_handler (l :: ls)
                             (set_last_pos (String.length text) self))
                 = String.length text).
  { by destruct (scan_frame now_handler (l :: ls)
                   (set_last_pos (String.length text) self)) as [-> _]. }
  assert (Hsame : set_last_pos (String.length text)
                    (scan now_handler (l :: ls)
                       (set_last_pos (String.length text) self))
                  = scan now_handler (l :: ls)
                      (set_last_pos (String.length text) self)).
  { rewrite <- Hpos at 1. apply set_last_pos_same. }
  unfold run, interleaved, one_after_the_other, both_enter.
  cbn [foldl]. unfold take.
  cbn [handler query engine step last_pos set_last_pos inside].
  repeat (first [ rewrite Hlt | rewrite El | rewrite Hpos
                | rewrite Nat.ltb_irrefl | rewrite drop_all | rewrite Hsame ];
          cbn [handler query engine step last_pos set_last_pos
               Py.splitlines Py.splitlines_from inside]).
  done.
Qed.

End ThreadFacts.

(** C9: with the handler and a query both refreshing after one rate line
    was written, both are inside the update at once, and the line is
    recorded twice. *)
Lemma refreshes_are_not_exclusive :
  let c :=
    run (H := Re.backtracking) one_rate_line (t0 + Py.second) (t0 + Py.second)
      [false; true] (both_enter init) in
  inside (handler c) /\ inside (query c)
  /\ rate_entries
       (engine (run (H := Re.backtracking) one_rate_line (t0 + Py.second)
                  (t0 + Py.second) interleaved (both_enter init)))
     = [(t0, 12345, "10.5"); (t0, 12345, "10.5")]
  /\ rate_entries
       (engine (run (H := Re.backtracking) one_rate_line (t0 + Py.second)
                  (t0 + Py.second) one_after_the_other (both_enter init)))
     = [(t0, 12345, "10.5")].
Proof. vm_compute. done. Qed.

(** C9: an instance of the amended statement, on the same log. *)
Lemma refreshes_interleave_witness :
  let text := unlines ["[2024-01-01 00:00:00] Download rate: 10.5 MB/s AppID 12345"] in
  (last_pos init <= String.length text)%nat
  /\ Py.splitlines (Py.drop (last_pos init) text) <> []
  /\ handler (run (H := Re.backtracking) (Content text) (t0 + Py.second)
                (t0 + Py.second) interleaved (both_enter init)) = Returned.
Proof.
  assert (H1 : (last_pos init <= String.length
                  (unlines ["[2024-01-01 00:00:00] Download rate: 10.5 MB/s AppID 12345"]))%nat)
    by (vm_compute; lia).
  assert (H2 : Py.splitlines (Py.drop (last_pos init)
                  (unlines ["[2024-01-01 00:00:00] Download rate: 10.5 MB/s AppID 12345"])) <> [])
    by (by vm_compute).
  split; [exact H1|]. split; [exact H2|].
  destruct (refreshes_interleave (H := Re.backtracking) init _ (t0 + Py.second)
              (t0 + Py.second) H1 H2) as (_ & -> & _).
  reflexivity.
Defined.

(** *** The tests of the repository, on the matcher of this file *)

Section Tests.
#[local] Existing Instance Re.backtracking.

Example test_initialization : __init__ Missing now0 = init.
Proof. reflexivity. Qed.

Example test_read_latest_speed_from_kb_s :
  snd (read_latest_speed init
         (Content (unlines ["[2024-01-01 00:00:00] Download rate: 1024.5 KB/s AppID 12345"]))
         now0 now0)
  = Some (t0, (10245 # 10) * 1024)%Q.
Proof. by vm_compute. Qed.

Example test_read_latest_speed_from_mb_s :
  snd (read_latest_speed init
         (Content (unlines ["[2024-01-01 00:00:00] Download rate: 10.5 MB/s AppID 12345"]))
         now0 now0)
  = Some (t0, (105 # 10) * 1024 * 1024)%Q.
Proof. by vm_compute. Qed.

Example test_read_latest_speed_from_mbps :
  snd (read_latest_speed init
         (Content (unlines ["[2024-01-01 00:00:00] Download rate: 100.0 Mbps AppID 12345"]))
         now0 now0)
  = Some (t0, (1000 # 10) * 1000000 / 8)%Q.
Proof. by vm_compute. Qed.

Example test_read_latest_speed_old_entry :
  snd (read_latest_speed init
         (Content (unlines ["[2024-01-01 00:00:00] Download rate: 10.0 MB/s AppID 12345"]))
         (t0 + 200 * Py.second) (t0 + 200 * Py.second))
  = None.
Proof. by vm_compute. Qed.

Example test_read_latest_speed_no_log :
  snd (read_latest_speed init Missing now0 now0) = None.
Proof. reflexivity. Qed.

Example test_build_depot_app_mapping :
  let mapping :=
    snd (build_depot_app_mapping init
           (Content (unlines
              ["[2024-01-01 00:00:00] Downloading 50 chunks from depot 12346 AppID 12345";
               "[2024-01-01 00:00:00] Downloading 30 chunks from depot 12347 AppID 12345"]))
           now0) in
  mapping !! "12346" = Some "12345" /\ mapping !! "12347" = Some "12345".
Proof. by vm_compute. Qed.

Example test_get_recent_pause_info_paused :
  snd (get_recent_pause_info init paused_once 12345 now0) = Some (t0, "paused").
Proof. by vm_compute. Qed.

Example test_get_recent_pause_info_not_paused :
  snd (get_recent_pause_info init
         (Content (unlines ["[2024-01-01 00:00:00] AppID 12345 update started"]))
         12345 now0)
  = None.
Proof. by vm_compute. Qed.

Example test_get_status :
  let data : gmap string string :=
    <["BytesToDownload" := "5000000"]> (<["BytesDownloaded" := "1000000"]> ∅) in
  let full : gmap string string :=
    <["BytesToDownload" := "5000000"]> (<["BytesDownloaded" := "5000000"]> ∅) in
  snd (get_status init Missing 256 data 100000 12345 now0) = Return DOWNLOADING
  /\ snd (get_status init Missing 512 data 0 12345 now0) = Return PAUSED
  /\ snd (get_status init Missing 2097152 full 0 12345 now0) = Return UNPACKING
  /\ snd (get_status init Missing 4 full 0 12345 now0) = Return IDLE
  /\ snd (get_status init Missing 256 data 0 12345 now0) = Return PAUSED.
Proof. by vm_compute. Qed.

Example test_get_most_recent_active_download_with_rate :
  snd (get_most_recent_active_download init one_rate_line now0 now0) = Some 12345.
Proof. by vm_compute. Qed.

Example test_get_most_recent_active_download_with_start_event :
  snd (get_most_recent_active_download init
         (Content (unlines ["[2024-01-01 00:00:00] AppID 12345 update started"]))
         now0 now0)
  = Some 12345.
Proof. by vm_compute. Qed.

Example test_get_most_recent_active_download_paused_after_rate :
  snd (get_most_recent_active_download init
         (Content (unlines
            ["[2024-01-01 00:00:00] Download rate: 10.0 MB/s AppID 12345";
             "[2024-01-01 00:00:20] AppID 12345 update canceled"]))
         (t0 + 30 * Py.second) (t0 + 30 * Py.second))
  = None.
Proof. by vm_compute. Qed.

(** The start 30 seconds and the pause 10 seconds before the query. *)
Example test_start_then_pause :
  snd (get_most_recent_active_download init started_then_paused
         (t0 + 30 * Py.second) (t0 + 30 * Py.second))
  = None.
Proof. by vm_compute. Qed.

Example test_log_file_truncation :
  let longer :=
    Content (unlines ["[2024-01-01 00:00:00] Download rate: 5.0 MB/s AppID 12345";
                      "[2024-01-01 00:00:00] Download rate: 5.0 MB/s AppID 12345"]) in
  let shorter :=
    Content (unlines ["[2024-01-01 00:00:00] Download rate: 3.0 MB/s AppID 12345"]) in
  let engine := _update_log_state (__init__ longer now0) shorter false now0 in
  (0 < last_pos (__init__ longer now0))%nat
  /\ snd (read_latest_speed engine shorter now0 now0)
     = Some (t0, (30 # 10) * 1024 * 1024)%Q
  /\ rate_entries engine = [(t0, 12345, "3.0")].
Proof. vm_compute. repeat split; try done. lia. Qed.

Example test_parse_acf_invalid :
  parse_acf (fun _ => Some "invalid content") = Return ∅
  /\ parse_acf (fun _ => None) = Raise ACFParseError.
Proof. by vm_compute. Qed.

Example test_find_active_game_fallback :
  (* active: a download flag and bytes left *)
  (app_id <$> snd (_find_active_game_fallback init Missing
                     [test_manifest "256" "1000000" "5000000" 1] now0)) = Some 12345
  (* paused by flag *)
  /\ (app_id <$> snd (_find_active_game_fallback init Missing
                        [test_manifest "512" "1000000" "5000000" 1] now0)) = Some 12345
  (* no files *)
  /\ snd (_find_active_game_fallback init Missing [] now0) = None
  (* a completed download *)
  /\ snd (_find_active_game_fallback init Missing
            [test_manifest "256" "5000000" "5000000" 1] now0) = None.
Proof. by vm_compute. Qed.

Example test_sample_end_to_end :
  snd (get_current_sample init one_rate_line
         [test_manifest "256" "1000000" "5000000" 1] 0 now0)
  = Return {| timestamp := 0;
              speed_bytes_per_sec := ((105 # 10) * 1024 * 1024)%Q;
              status := "downloading";
              game := Some {| app_id := 12345; name := "Test Game";
                              path := "appmanifest_12345.acf" |} |}
  /\ snd (get_current_sample init Missing [] 0 now0)
     = Return {| timestamp := 0; speed_bytes_per_sec := 0%Q; status := "idle";
                 game := None |}.
Proof. by vm_compute. Qed.

End Tests.

(** ** The digits that the matcher captures

    [lifecycle_matcher] passes over a line where [int] fails on the group
    of the [AppID] pattern; with the matcher of this file that group is a
    run of digits, and [int] fails on it only when it is longer than
    [Py.MAX_STR_DIGITS]. *)

Lemma append_cons c s t : String c s +:+ t = String c (s +:+ t).
Proof. reflexivity. Qed.

Lemma append_empty_r s : s +:+ EmptyString = s.
Proof. induction s as [|c s IH]; [done|]. by rewrite append_cons, IH. Qed.

Lemma append_assoc s t u : (s +:+ t) +:+ u = s +:+ (t +:+ u).
Proof. induction s as [|c s IH]; [done|]. by rewrite !append_cons, IH. Qed.

Lemma rev_onto_app s acc : Py.rev_onto s acc = Py.rev_onto s EmptyString +:+ acc.
Proof.
  revert acc. induction s as [|c s IH]; intros acc; simpl; [done|].
  rewrite (IH (String c acc)), (IH (String c EmptyString)).
  by rewrite append_assoc.
Qed.

Lemma rev_cons c s : Py.rev (String c s) = Py.rev s +:+ String c EmptyString.
Proof. unfold Py.rev. simpl. apply rev_onto_app. Qed.

Lemma rev_append s t : Py.rev (s +:+ t) = Py.rev t +:+ Py.rev s.
Proof.
  induction s as [|c s IH].
  - change (EmptyString +:+ t) with t. by rewrite append_empty_r.
  - rewrite append_cons, !rev_cons, IH. by rewrite append_assoc.
Qed.

Lemma rev_rev s : Py.rev (Py.rev s) = s.
Proof.
  induction s as [|c s IH]; [done|].
  rewrite rev_cons, rev_append, IH. done.
Qed.

Lemma all_digits_append s t :
  all_digits (s +:+ t) = all_digits s && all_digits t.
Proof.
  induction s as [|c s IH]; [done|].
  rewrite append_cons. simpl. by rewrite IH, andb_assoc.
Qed.

Lemma all_digits_rev s : all_digits (Py.rev s) = all_digits s.
Proof.
  induction s as [|c s IH]; [done|].
  rewrite rev_cons, all_digits_append, IH. simpl.
  rewrite andb_true_r. apply andb_comm.
Qed.

Lemma is_digit_not_space c : Py.is_digit c = true -> Py.is_space c = false.
Proof.
  unfold Py.is_digit, Py.is_space. rewrite andb_true_iff, !Z.leb_le.
  intros [H1 H2]. apply orb_false_iff.
  split; apply andb_false_iff; rewrite !Z.leb_gt; lia.
Qed.

Lemma lstrip_digits s : all_digits s = true -> Py.lstrip s = s.
Proof.
  destruct s as [|c s]; [done|]. simpl. rewrite andb_true_iff. intros [Hc _].
  by rewrite (is_digit_not_space c Hc).
Qed.

Lemma strip_digits s : all_digits s = true -> Py.strip s = s.
Proof.
  intros Hd. unfold Py.strip, Py.rstrip. rewrite (lstrip_digits s Hd).
  rewrite lstrip_digits by (by rewrite all_digits_rev). apply rev_rev.
Qed.

Lemma int_digits_some s acc seen :
  all_digits s = true -> (s <> EmptyString \/ seen = true) ->
  0 <= acc -> exists n, Py.int_digits s acc seen = Some n /\ 0 <= n.
Proof.
  revert acc seen. induction s as [|c s IH]; intros acc seen Hd Hne Hacc; simpl.
  - destruct Hne as [? | ->]; [done|]. by exists acc.
  - simpl in Hd. apply andb_true_iff in Hd as [Hc Hd]. rewrite Hc.
    apply IH; [done|by right|].
    unfold Py.is_digit in Hc. apply andb_true_iff in Hc as [Hc _].
    apply Z.leb_le in Hc. lia.
Qed.

Lemma count_all_digits s :
  all_digits s = true -> Py.count_digits s = Z.of_nat (String.length s).
Proof.
  induction s as [|c s IH]; [done|]. simpl String.length. simpl.
  rewrite andb_true_iff. intros [-> Hd]. rewrite (IH Hd). lia.
Qed.

Lemma int_too_long s :
  Py.MAX_STR_DIGITS < Py.count_digits s -> Py.int s = None.
Proof.
  intros Hlong. unfold Py.int.
  by replace (Py.MAX_STR_DIGITS <? Py.count_digits s) with true
    by (symmetry; by apply Z.ltb_lt).
Qed.

Lemma int_of_digits s :
  all_digits s = true -> s <> EmptyString ->
  Z.of_nat (String.length s) <= Py.MAX_STR_DIGITS ->
  exists n, Py.int s = Some n /\ 0 <= n.
Proof.
  intros Hd Hne Hlen. unfold Py.int. rewrite (count_all_digits s Hd).
  replace (Py.MAX_STR_DIGITS <? Z.of_nat (String.length s)) with false
    by (symmetry; apply Z.ltb_ge; lia).
  clear Hlen. rewrite (strip_digits s Hd).
  destruct s as [|c s]; [done|].
  simpl in Hd. apply andb_true_iff in Hd as [Hc Hd].
  assert (Hb : 48 <= Py.ord c <= 57).
  { unfold Py.is_digit in Hc. apply andb_true_iff in Hc as [H1 H2].
    apply Z.leb_le in H1, H2. lia. }
  replace (Py.ord c =? 45) with false by (symmetry; apply Z.eqb_neq; lia).
  replace (Py.ord c =? 43) with false by (symmetry; apply Z.eqb_neq; lia).
  apply int_digits_some; [|by left|lia]. simpl. by rewrite Hc, Hd.
Qed.

Lemma take_append s t : Py.take (String.length s) (s +:+ t) = s.
Proof.
  induction s as [|c s IH]; [by destruct t|].
  rewrite append_cons. simpl. by rewrite IH.
Qed.

Lemma length_append s t :
  String.length (s +:+ t) = (String.length s + String.length t)%nat.
Proof.
  induction s as [|c s IH]; [done|]. rewrite append_cons. simpl. by rewrite IH.
Qed.

Lemma consumed_append s t : Re.consumed (s +:+ t) t = s.
Proof.
  unfold Re.consumed. rewrite length_append.
  replace (String.length s + String.length t - String.length t)%nat
    with (String.length s) by lia.
  apply take_append.
Qed.

(** What a repetition of [\d] leaves: the text after a run of digits, at
    least [min] of them. *)
Lemma rep_digits ic greedy fuel min max s caps o :
  In o (Re.rep (Re.run ic (Re.Chr (Re.COne Re.CDigit))) greedy fuel min max s caps) ->
  exists d, s = d +:+ fst o /\ all_digits d = true /\ snd o = caps
            /\ (min <= String.length d)%nat.
Proof.
  revert min max s caps. induction fuel as [|fuel IH]; intros min max s caps; [done|].
  simpl.
  assert (Hstop : In o (match min with O => [(s, caps)] | S _ => [] end) ->
                  exists d, s = d +:+ fst o /\ all_digits d = true /\ snd o = caps
                            /\ (min <= String.length d)%nat).
  { destruct min; [|done]. intros [<-|[]]. exists EmptyString. simpl. auto with lia. }
  assert (Hmore :
    In o (match max with
          | Some O => []
          | _ =>
              flat_map
                (fun o0 : Re.outcome =>
                   if (String.length (fst o0) <? String.length s)%nat
                   then Re.rep (Re.run ic (Re.Chr (Re.COne Re.CDigit))) greedy fuel
                          (Nat.pred min) (Nat.pred <$> max) (fst o0) (snd o0)
                   else [])
                (Re.run ic (Re.Chr (Re.COne Re.CDigit)) s caps)
          end) ->
    exists d, s = d +:+ fst o /\ all_digits d = true /\ snd o = caps
              /\ (min <= String.length d)%nat).
  { intros Hin.
    assert (Hin' : In o (flat_map
                (fun o0 : Re.outcome =>
                   if (String.length (fst o0) <? String.length s)%nat
                   then Re.rep (Re.run ic (Re.Chr (Re.COne Re.CDigit))) greedy fuel
                          (Nat.pred min) (Nat.pred <$> max) (fst o0) (snd o0)
                   else [])
                (Re.run ic (Re.Chr (Re.COne Re.CDigit)) s caps))).
    { destruct max as [[|m]|]; done. }
    clear Hin. apply in_flat_map in Hin' as (o0 & Hstep & Hrest).
    simpl in Hstep. destruct s as [|x s']; [done|].
    destruct (Py.is_digit x) eqn:Ex; simpl in Hstep; [|done].
    destruct Hstep as [<-|[]]. simpl in Hrest.
    destruct (String.length s' <? S (String.length s'))%nat; [|done].
    apply IH in Hrest as (d & -> & Hd & Hc & Hlen).
    exists (String x d). simpl. rewrite Ex, Hd. repeat split; try done. lia. }
  destruct greedy; intros Hin; apply in_app_or in Hin as [Hin|Hin]; auto.
Qed.

Lemma search_at_outcome ic r names whole s m :
  Re.search_at ic r names whole s = Some m ->
  exists s' o rest, Re.run ic r s' [] = o :: rest /\ Re.m_groups m = snd o.
Proof.
  induction s as [|c s IH]; simpl.
  - destruct (Re.run ic r EmptyString []) as [|o rest] eqn:E; [done|].
    intros [= <-]. by exists EmptyString, o, rest.
  - destruct (Re.run ic r (String c s) []) as [|o rest] eqn:E; [exact IH|].
    intros [= <-]. by exists (String c s), o, rest.
Qed.

Lemma run_seq ic a b s caps o :
  In o (Re.run ic (Re.Seq a b) s caps) ->
  exists o1, In o1 (Re.run ic a s caps) /\ In o (Re.run ic b (fst o1) (snd o1)).
Proof. simpl. intros Hin. by apply in_flat_map in Hin. Qed.

Lemma run_group ic i a s caps o :
  In o (Re.run ic (Re.Group i a) s caps) ->
  exists o', In o' (Re.run ic a s caps)
             /\ o = (fst o', (i, Re.consumed s (fst o')) :: snd o').
Proof.
  simpl. intros Hin. apply in_map_iff in Hin as (o' & <- & Hin). by exists o'.
Qed.

Lemma run_repeat ic a min max greedy s caps :
  Re.run ic (Re.Repeat a min max greedy) s caps
  = Re.rep (Re.run ic a) greedy (S (String.length s)) min max s caps.
Proof. reflexivity. Qed.

(** X1.  With the matcher of this file, whenever [AppID\s+(\d+)] is found
    in a line, its group is a run of digits that is not empty; [int] of it
    is a natural number if it has at most 4300 digits, and fails if it has
    more.  Line 170 of parser.py, which catches nothing, raises on no
    other line. *)
Lemma appid_group_is_int (line : string) (m : Re.re_match) :
  Re.search (PyRe := Re.backtracking) false "AppID\s+(\d+)" line = Some m ->
  all_digits (Re.group m 1) = true
  /\ Re.group m 1 <> EmptyString
  /\ (Z.of_nat (String.length (Re.group m 1)) <= 4300 ->
      exists n, Py.int (Re.group m 1) = Some n /\ 0 <= n)
  /\ (4300 < Z.of_nat (String.length (Re.group m 1)) ->
      Py.int (Re.group m 1) = None).
Proof.
  unfold Re.search, Re.backtracking, Re.backtrack_search.
  destruct (Re.compile "AppID\s+(\d+)") as [[r nm]|] eqn:Ec; [|done].
  vm_compute in Ec. injection Ec as <- <-. simpl.
  intros Hs. apply search_at_outcome in Hs as (s' & o & rest & Hrun & Hg).
  assert (Hin : In o (Re.run false
     (Re.Seq (Re.Chr (Re.COne (Re.CLit "A")))
        (Re.Seq (Re.Chr (Re.COne (Re.CLit "p")))
           (Re.Seq (Re.Chr (Re.COne (Re.CLit "p")))
              (Re.Seq (Re.Chr (Re.COne (Re.CLit "I")))
                 (Re.Seq (Re.Chr (Re.COne (Re.CLit "D")))
                    (Re.Seq (Re.Repeat (Re.Chr (Re.COne Re.CSpace)) 1 None true)
                       (Re.Group 1
                          (Re.Repeat (Re.Chr (Re.COne Re.CDigit)) 1 None true))))))))
     s' [])).
  { rewrite Hrun. by left. }
  clear Hrun.
  do 6 (apply run_seq in Hin; destruct Hin as (? & _ & Hin)).
  apply run_group in Hin as (o' & Hin & ->). rewrite run_repeat in Hin.
  apply rep_digits in Hin as (d & Hsplit & Hd & _ & Hlen).
  unfold Re.group. rewrite Hg. simpl. rewrite Hsplit, consumed_append.
  assert (Hne : d <> EmptyString) by (destruct d; [simpl in Hlen; lia|done]).
  split; [done|]. split; [done|]. split.
  - intros Hshort. by apply int_of_digits.
  - intros Hlong. apply int_too_long. by rewrite count_all_digits.
Qed.

(** X1: an instance, on a line of the log. *)
Lemma appid_group_is_int_witness :
  exists m,
    Re.search (PyRe := Re.backtracking) false "AppID\s+(\d+)"
      "[2024-01-01 00:00:00] AppID 12345 update canceled" = Some m
    /\ Re.group m 1 <> EmptyString.
Proof.
  eexists. split; [vm_compute; reflexivity|].
  refine (proj1 (proj2 (appid_group_is_int
           "[2024-01-01 00:00:00] AppID 12345 update canceled" _ _))).
  vm_compute. reflexivity.
Defined.

(** ** Invariants of the indexes *)

Section IndexInvariants.
Context `{Re.PyRe}.

Lemma newer_covers held s :
  exists ts v, newer held s = Some (ts, v) /\ fst s <= ts
    /\ forall t w, held = Some (t, w) -> t <= ts.
Proof.
  destruct s as [t0 v0]. destruct held as [[h hv]|]; simpl.
  - destruct (h <? t0) eqn:E.
    + apply Z.ltb_lt in E. exists t0, v0. repeat split; [lia|].
      intros t w [= <- <-]. lia.
    + apply Z.ltb_ge in E. exists h, hv. repeat split; [done|].
      intros t w [= <- <-]. lia.
  - exists t0, v0. repeat split; [lia|]. by intros.
Qed.

Lemma hold_rate_covered ts v self :
  rates_covered self ->
  rates_covered (hold_rate ts v self)
  /\ exists t w, latest_rate (hold_rate ts v self) = Some (t, w) /\ ts <= t.
Proof.
  intros Hc. destruct (hold_rate_frame ts v self) as (_ & _ & _ & He & Hl).
  destruct (newer_covers (latest_rate self) (ts, v)) as (t & w & Hn & Hle & Hold).
  split.
  - intros e Hin. rewrite He in Hin. destruct (Hc e Hin) as (t' & w' & Hl' & Hle').
    exists t, w. split; [congruence|]. specialize (Hold t' w' Hl'). lia.
  - exists t, w. split; [congruence|]. exact Hle.
Qed.

Lemma rate_matcher_covered now line self :
  rates_covered self -> rates_covered (flow_state (rate_matcher now line self)).
Proof.
  intros Hc. unfold rate_matcher.
  destruct (Re.search true _LINE_RE line) as [m|]; simpl; [|done].
  destruct (Py.strptime _) as [ts|]; simpl; [|done].
  destruct (Py.total_seconds_gt _ _); simpl; [done|].
  destruct (Py.float _) as [value|]; simpl; [|done].
  destruct (speed_bytes _ _) as [speed|]; simpl; [|done].
  destruct (hold_rate_covered ts speed self Hc) as [Hc' (t & w & Hl & Hle)].
  destruct (owning_app line _) as [[a|]|]; simpl; try done.
  intros e Hin. simpl in Hin. apply elem_of_app in Hin as [Hin|Hin].
  - exact (Hc' e Hin).
  - apply list_elem_of_singleton in Hin as ->. by exists t, w.
Qed.

Lemma process_line_covered now self line :
  rates_covered self -> rates_covered (process_line now self line).
Proof.
  intros Hc. unfold process_line.
  pose proof (rate_matcher_covered now line self Hc) as Hc1.
  destruct (rate_matcher now line self) as [s|s]; simpl in Hc1; [|done].
  pose proof (lifecycle_matcher_frame now line (depot_matcher line s)) as (_ & L2 & _ & L4).
  pose proof (depot_matcher_frame line s) as (_ & _ & D3 & D4).
  intros e Hin. rewrite L4, D4 in Hin. rewrite L2, D3. by apply Hc1.
Qed.

Lemma process_lines_covered now lines self :
  rates_covered self -> rates_covered (foldl (process_line now) self lines).
Proof.
  revert self. induction lines as [|line lines IH]; intros self Hc; [done|].
  simpl. by apply IH, process_line_covered.
Qed.

Lemma scan_covered now lines self :
  rates_covered self -> rates_covered (scan now lines self).
Proof.
  intros Hc. unfold scan. apply (process_lines_covered now lines) in Hc.
  intros e Hin. unfold prune in Hin. simpl in Hin.
  apply list_elem_of_filter in Hin as [_ Hin]. exact (Hc e Hin).
Qed.

Lemma refresh_covered self file full_load now :
  rates_covered self -> rates_covered (_update_log_state self file full_load now).
Proof.
  intros Hc. rewrite update_log_state_unfold. destruct file as [| |size|text]; try done.
  { by destruct (size <? last_pos self)%nat. }
  destruct (reloads _ _ _).
  - apply scan_covered. intros e Hin. by apply elem_of_nil in Hin.
  - destruct (lines_read _ _ _) as [|l ls]; [done|]. by apply scan_covered.
Qed.

(** X4.  The held sample covers the rate entries: in the state that
    [__init__] leaves, and after every refresh of a state where it does,
    whenever [rate_entries] holds an entry, [latest_rate] holds a sample
    whose timestamp is not older than the entry's.  [read_latest_speed]
    and [get_most_recent_active_download] leave the indexes as their
    refresh left them, so the same holds after them. *)
Theorem rate_entries_covered (self : LogParser) (file : log_file)
    (full_load : bool) (now now' : Z) (Hcovered : rates_covered self) :
  rates_covered (__init__ file now)
  /\ rates_covered (_update_log_state self file full_load now)
  /\ rates_covered (fst (read_latest_speed self file now now'))
  /\ rates_covered (fst (get_most_recent_active_download self file now now')).
Proof.
  split; [|split; [|split]].
  - unfold __init__. apply refresh_covered. intros e Hin. by apply elem_of_nil in Hin.
  - by apply refresh_covered.
  - unfold read_latest_speed.
    pose proof (refresh_covered self file false now Hcovered) as Hc.
    destruct (latest_rate (_update_log_state self file false now)) as [[ts v]|]; [|done].
    by destruct (Py.total_seconds_le _ _).
  - by apply refresh_covered.
Qed.

Lemma pruned_nonempty now (d : list (Z * list event)) app events :
  (app, events) ∈ pruned now d -> events <> [].
Proof.
  unfold pruned. intros Hin. apply list_elem_of_omap in Hin as ([k l] & _ & E).
  simpl in E. destruct (filter _ l) as [|e kept]; [done|]. by injection E as <- <-.
Qed.

Lemma scan_no_empty_list now lines self :
  well_formed self -> no_empty_list (scan now lines self).
Proof.
  intros Hwf app events Hin. unfold scan in Hin.
  rewrite prune_events in Hin.
  - by apply pruned_nonempty in Hin.
  - by apply (process_lines_events now lines self 0).
Qed.

Lemma elem_of_dict_set {V} (d : list (Z * V)) k v k' v' :
  (k', v') ∈ dict_set d k v -> (k', v') ∈ d \/ (k' = k /\ v' = v).
Proof.
  induction d as [|[k0 v0] d IH]; simpl.
  - intros Hin. apply list_elem_of_singleton in Hin as [= -> ->]. by right.
  - destruct (k =? k0).
    + intros Hin. apply elem_of_cons in Hin as [[= -> ->]|Hin]; [by right|].
      left. by right.
    + intros Hin. apply elem_of_cons in Hin as [[= -> ->]|Hin]; [left; left|].
      destruct (IH Hin) as [?|?]; [left; by right|by right].
Qed.

Lemma recent_pause_no_empty_list engine app :
  no_empty_list engine -> no_empty_list (fst (recent_pause engine app)).
Proof.
  intros Hn. rewrite recent_pause_unfold.
  destruct (default [] (dict_get (recent_events engine) app)) as [|e events]; [done|].
  cbn [fst]. intros a l Hin. cbn [recent_events set_recent_events] in Hin.
  apply elem_of_dict_set in Hin as [Hin|[-> ->]].
  - exact (Hn a l Hin).
  - intros E. by apply sorted_reverse_nil in E.
Qed.

(** X5.  The event map stays tidy: in the state that [__init__] leaves,
    and after every refresh and every [get_recent_pause_info] on a state
    where it is so, the keys of [recent_events] are distinct and none of
    them has an empty list (the empty lists that [setdefault] creates
    during a scan are deleted at its end). *)
Theorem recent_events_tidy (self : LogParser) (file : log_file)
    (full_load : bool) (now : Z) (app : Z)
    (Hkeys : well_formed self) (Hlists : no_empty_list self) :
  (well_formed (__init__ file now) /\ no_empty_list (__init__ file now))
  /\ (well_formed (_update_log_state self file full_load now)
      /\ no_empty_list (_update_log_state self file full_load now))
  /\ (well_formed (fst (get_recent_pause_info self file app now))
      /\ no_empty_list (fst (get_recent_pause_info self file app now))).
Proof.
  assert (Hrefresh : forall s fl, well_formed s -> no_empty_list s ->
            well_formed (_update_log_state s file fl now)
            /\ no_empty_list (_update_log_state s file fl now)).
  { intros s fl Hw Hl. split; [by apply (refresh_events s file fl now 0)|].
    rewrite update_log_state_unfold. destruct file as [| |size|text]; try done.
    { by destruct (size <? last_pos s)%nat. }
    destruct (reloads _ _ _).
    - apply scan_no_empty_list. unfold well_formed. simpl. constructor.
    - destruct (lines_read _ _ _) as [|l ls]; [done|]. by apply scan_no_empty_list. }
  split; [|split].
  - apply Hrefresh.
    + unfold well_formed. simpl. constructor.
    + intros a l Hin. by apply elem_of_nil in Hin.
  - by apply Hrefresh.
  - unfold get_recent_pause_info.
    destruct (Hrefresh self false Hkeys Hlists) as [Hw Hl]. split.
    + by apply (recent_pause_events _ app).
    + by apply recent_pause_no_empty_list.
Qed.

End IndexInvariants.

(** X4: an instance, on the log with one rate line: the engine that
    [__init__] leaves holds the entry of the line, and a later refresh
    keeps it covered. *)
Lemma rate_entries_covered_witness :
  rate_entries (__init__ (H := Re.backtracking) one_rate_line now0)
  = [(t0, 12345, "10.5")]
  /\ rates_covered (__init__ (H := Re.backtracking) one_rate_line now0)
  /\ rates_covered
       (_update_log_state (H := Re.backtracking)
          (__init__ (H := Re.backtracking) one_rate_line now0)
          one_rate_line false (now0 + Py.second)).
Proof.
  assert (Hnone : rates_covered init).
  { intros e He. by apply elem_of_nil in He. }
  assert (Hinit : rates_covered (__init__ (H := Re.backtracking) one_rate_line now0)).
  { exact (proj1 (rate_entries_covered (H := Re.backtracking) init one_rate_line
                    false now0 now0 Hnone)). }
  split; [by vm_compute|]. split; [exact Hinit|].
  exact (proj1 (proj2 (rate_entries_covered (H := Re.backtracking)
                         (__init__ (H := Re.backtracking) one_rate_line now0)
                         one_rate_line false (now0 + Py.second) now0 Hinit))).
Defined.

(** X5: an instance, on the log with a start and a pause. *)
Lemma recent_events_tidy_witness :
  recent_events (__init__ (H := Re.backtracking) started_then_paused
                   (t0 + 30 * Py.second))
  = [(12345, [(t0, start); (t0 + 20 * Py.second, pause)])]
  /\ no_empty_list
       (fst (get_recent_pause_info (H := Re.backtracking)
               (__init__ (H := Re.backtracking) started_then_paused
                  (t0 + 30 * Py.second))
               started_then_paused 12345 (t0 + 40 * Py.second))).
Proof.
  assert (Hinit :
    well_formed (__init__ (H := Re.backtracking) started_then_paused
                   (t0 + 30 * Py.second))
    /\ no_empty_list (__init__ (H := Re.backtracking) started_then_paused
                        (t0 + 30 * Py.second))).
  { assert (Hkeys : well_formed init) by constructor.
    assert (Hlists : no_empty_list init).
    { intros a l Hin. by apply elem_of_nil in Hin. }
    exact (proj1 (recent_events_tidy (H := Re.backtracking) init started_then_paused
                    true (t0 + 30 * Py.second) 0 Hkeys Hlists)). }
  split; [by vm_compute|].
  exact (proj2 (proj2 (proj2
    (recent_events_tidy (H := Re.backtracking)
       (__init__ (H := Re.backtracking) started_then_paused (t0 + 30 * Py.second))
       started_then_paused false (t0 + 40 * Py.second) 12345
       (proj1 Hinit) (proj2 Hinit))))).
Defined.

(** ** The two stable sorts, one after the other *)

Section SortedAfterReverse.
Context {A : Type} (key : A -> Z).

Lemma insert_asc_comm a b l :
  key a <> key b ->
  Py.insert_asc key a (Py.insert_asc key b l)
  = Py.insert_asc key b (Py.insert_asc key a l).
Proof.
  intros Hne. induction l as [|y l IH]; simpl.
  - destruct (key a <=? key b) eqn:E1, (key b <=? key a) eqn:E2; try done.
    + apply Z.leb_le in E1, E2. lia.
    + apply Z.leb_gt in E1, E2. lia.
  - destruct (key b <=? key y) eqn:Eb, (key a <=? key y) eqn:Ea; simpl;
      rewrite ?Ea, ?Eb;
      destruct (key a <=? key b) eqn:E1, (key b <=? key a) eqn:E2; simpl;
      rewrite ?Ea, ?Eb; try done;
      repeat match goal with
             | H : (_ <=? _) = true |- _ => apply Z.leb_le in H
             | H : (_ <=? _) = false |- _ => apply Z.leb_gt in H
             end; try lia; by rewrite IH.
Qed.

Lemma sorted_middle l1 x l2 :
  (forall y, y ∈ l1 -> key y <> key x) ->
  Py.sorted key (l1 ++ x :: l2) = Py.insert_asc key x (Py.sorted key (l1 ++ l2)).
Proof.
  induction l1 as [|y l1 IH]; intros Hne; [done|].
  simpl. change (foldr (Py.insert_asc key) []) with (Py.sorted key).
  rewrite IH by (intros z Hz; apply Hne; by right).
  apply insert_asc_comm. apply Hne. left.
Qed.

Lemma insert_desc_split x l :
  exists l1 l2, l = l1 ++ l2 /\ Py.insert_desc key x l = l1 ++ x :: l2
    /\ forall y, y ∈ l1 -> key x < key y.
Proof.
  induction l as [|y l (l1 & l2 & -> & E & Hgt)]; simpl.
  - exists [], []. repeat split. intros y Hy. by apply elem_of_nil in Hy.
  - destruct (key y <=? key x) eqn:Ey.
    + exists [], (y :: l1 ++ l2). repeat split. intros z Hz. by apply elem_of_nil in Hz.
    + apply Z.leb_gt in Ey. exists (y :: l1), l2. rewrite E. repeat split.
      intros z Hz. apply elem_of_cons in Hz as [->|Hz]; [done|by apply Hgt].
Qed.

Lemma sorted_insert_desc x l :
  Py.sorted key (Py.insert_desc key x l) = Py.insert_asc key x (Py.sorted key l).
Proof.
  destruct (insert_desc_split x l) as (l1 & l2 & -> & -> & Hgt).
  apply sorted_middle. intros y Hy. apply Hgt in Hy. lia.
Qed.

(** The ascending sort does not see a descending sort made before it. *)
Lemma sorted_sorted_reverse l :
  Py.sorted key (Py.sorted_reverse key l) = Py.sorted key l.
Proof.
  induction l as [|x l IH]; [done|].
  change (Py.sorted_reverse key (x :: l))
    with (Py.insert_desc key x (Py.sorted_reverse key l)).
  rewrite sorted_insert_desc, IH. done.
Qed.

Lemma first_latest_head x rest l :
  Py.sorted_reverse key l = x :: rest -> first_latest key l x.
Proof.
  revert x rest. induction l as [|y l IH]; intros x rest; [done|].
  change (Py.sorted_reverse key (y :: l))
    with (Py.insert_desc key y (Py.sorted_reverse key l)).
  destruct (Py.sorted_reverse key l) as [|e' rest'] eqn:Es.
  - apply sorted_reverse_nil in Es as ->. simpl. intros [= <- <-].
    exists [], []. repeat split; intros z Hz; by apply elem_of_nil in Hz.
  - simpl. destruct (key e' <=? key y) eqn:Ey.
    + apply Z.leb_le in Ey. intros [= <- <-].
      exists [], l. repeat split; [intros z Hz; by apply elem_of_nil in Hz|].
      intros z Hz. destruct (sorted_reverse_head key e' rest' l Es) as [_ Hmax].
      specialize (Hmax z Hz). lia.
    + apply Z.leb_gt in Ey. intros [= <- <-].
      destruct (IH e' rest' eq_refl) as (l1 & l2 & -> & H1 & H2).
      exists (y :: l1), l2. repeat split; [|done].
      intros z Hz. apply elem_of_cons in Hz as [->|Hz]; [done|by apply H1].
Qed.

Lemma first_latest_unique l e e' :
  first_latest key l e -> first_latest key l e' -> e = e'.
Proof.
  intros (l1 & l2 & E & H1 & H2) (k1 & k2 & E' & K1 & K2).
  rewrite E in E'. clear E.
  revert k1 E' K1. induction l1 as [|a l1 IH]; intros k1 E' K1.
  - destruct k1 as [|b k1]; simpl in E'; [congruence|].
    injection E' as <- ->.
    assert (key e' <= key e) by (apply H2; apply elem_of_app; right; left).
    assert (key e < key e') by (apply K1; left). lia.
  - destruct k1 as [|b k1]; simpl in E'.
    + injection E' as -> <-.
      assert (key e <= key e') by (apply K2; apply elem_of_app; right; left).
      assert (key e' < key e) by (apply H1; left). lia.
    + injection E' as <- E'.
      apply (IH (fun x Hx => H1 x (proj2 (elem_of_cons _ _ _) (or_intror Hx))) k1 E').
      intros x Hx. apply K1. by right.
Qed.
End SortedAfterReverse.

(** ** The pause query *)

Section PauseQuery.
Context `{Re.PyRe}.
#[local] Arguments Py.sorted_reverse : simpl never.
#[local] Arguments Py.sorted : simpl never.

(** X6.  [get_recent_pause_info] refreshes the engine and looks at one
    event of the app only: among the events with the greatest timestamp,
    the one stored first.  It returns that timestamp with the label
    [paused] if that event is a pause, and none if it is not or if the app
    has no event; no other event, and no age, enters the answer. *)
Theorem get_recent_pause_info_spec (self : LogParser) (file : log_file)
    (app now : Z) :
  let refreshed := _update_log_state self file false now in
  match snd (get_recent_pause_info self file app now) with
  | Some (ts, label) =>
      label = "paused"
      /\ first_latest fst (events_of refreshed app) (ts, pause)
  | None =>
      events_of refreshed app = []
      \/ exists e, first_latest fst (events_of refreshed app) e /\ snd e <> pause
  end.
Proof.
  cbv zeta. unfold get_recent_pause_info.
  set (engine := _update_log_state self file false now).
  rewrite recent_pause_unfold. rewrite !events_of_get.
  destruct (default [] (dict_get (recent_events engine) app)) as [|e events] eqn:Ee;
    [by left|].
  cbn [snd].
  destruct (Py.sorted_reverse fst (e :: events)) as [|[ts k] rest] eqn:Es.
  { by apply sorted_reverse_nil in Es. }
  apply first_latest_head in Es.
  destruct (etype_eqb k pause) eqn:Ek.
  - apply etype_eqb_eq in Ek as ->. done.
  - right. exists (ts, k). split; [done|]. simpl. intros ->. by destruct pause.
Qed.

Lemma rate_confirmed_dict_set now (d : list (Z * list event)) app events entries :
  dict_get d app = Some events ->
  rate_confirmed now (dict_set d app (Py.sorted_reverse fst events)) entries
  = rate_confirmed now d entries.
Proof.
  intros Hg. induction entries as [|[[ts a] r] entries IH]; [done|].
  cbn [rate_confirmed]. rewrite IH. rewrite dict_get_set.
  destruct (a =? app) eqn:E; [|done].
  apply Z.eqb_eq in E as ->. rewrite Hg. cbn [default id].
  by rewrite sorted_sorted_reverse.
Qed.

Lemma active_step_sorted_reverse now acc app (events : list event) :
  active_step now acc (app, Py.sorted_reverse fst events)
  = active_step now acc (app, events).
Proof. unfold active_step. by rewrite sorted_sorted_reverse. Qed.

Lemma active_apps_dict_set now (d : list (Z * list event)) app events acc :
  dict_get d app = Some events ->
  foldl (active_step now) acc (dict_set d app (Py.sorted_reverse fst events))
  = foldl (active_step now) acc d.
Proof.
  revert acc. induction d as [|[k v] d IH]; intros acc; [done|].
  cbn [dict_get dict_set]. destruct (app =? k) eqn:E.
  - apply Z.eqb_eq in E as ->. intros [= ->]. cbn [foldl].
    by rewrite active_step_sorted_reverse.
  - intros Hg. cbn [foldl]. by apply IH.
Qed.

Lemma most_recent_active_after_pause engine app now :
  most_recent_active (fst (recent_pause engine app)) now
  = most_recent_active engine now.
Proof.
  rewrite recent_pause_unfold.
  destruct (dict_get (recent_events engine) app) as [events|] eqn:Eg;
    cbn [default id]; [|done].
  destruct events as [|e events]; [done|].
  cbn [fst]. unfold most_recent_active.
  cbn [rate_entries recent_events set_recent_events].
  rewrite rate_confirmed_dict_set by done.
  by rewrite active_apps_dict_set.
Qed.

(** X7.  The reordering that [get_recent_pause_info] leaves behind changes
    no answer: on a log that has not changed since,
    [get_most_recent_active_download], [read_latest_speed] and
    [get_recent_pause_info] for any app answer after it what they answer
    without it. *)
Theorem pause_query_changes_no_answer (self : LogParser) (file : log_file)
    (app other : Z) (now now' now_query : Z) :
  let after := fst (get_recent_pause_info self file app now) in
  snd (get_most_recent_active_download after file now' now_query)
  = snd (get_most_recent_active_download self file now now_query)
  /\ snd (read_latest_speed after file now' now_query)
     = snd (read_latest_speed self file now now_query)
  /\ snd (get_recent_pause_info after file other now')
     = snd (get_recent_pause_info self file other now).
Proof.
  cbv zeta. unfold get_recent_pause_info, get_most_recent_active_download,
    read_latest_speed.
  set (refreshed := _update_log_state self file false now).
  assert (Hs : _update_log_state (fst (recent_pause refreshed app)) file false now'
               = fst (recent_pause refreshed app)).
  { apply settled_refresh, recent_pause_settled, refresh_settled. }
  rewrite Hs. split; [|split].
  - cbn [snd]. apply most_recent_active_after_pause.
  - destruct (recent_pause_frame refreshed app) as (_ & -> & _).
    destruct (latest_rate refreshed) as [[ts v]|]; [|done].
    by destruct (Py.total_seconds_le _ _).
  - apply recent_pause_again.
Qed.

End PauseQuery.

(** X6, X7: a start and a pause of one second.  The pause query answers
    by the event stored first, the active query by the one stored last. *)
Lemma pause_query_tie :
  let engine := __init__ (H := Re.backtracking) rate_then_events (t0 + 20 * Py.second) in
  events_of engine 12345 = [(t0 + 10 * Py.second, start); (t0 + 10 * Py.second, pause)]
  /\ snd (get_recent_pause_info (H := Re.backtracking) engine rate_then_events 12345
            (t0 + 20 * Py.second)) = None
  /\ snd (get_most_recent_active_download (H := Re.backtracking) engine
            rate_then_events (t0 + 20 * Py.second) (t0 + 20 * Py.second)) = None.
Proof. vm_compute. done. Qed.

(** ** The depot mapping *)

Section DepotMapping.
Context `{Re.PyRe}.

Lemma depot_matcher_binding line self :
  depot_to_app (depot_matcher line self) = depot_to_app self
  \/ exists depot app,
       depot_line line depot app
       /\ depot_to_app (depot_matcher line self) = <[depot := app]> (depot_to_app self).
Proof.
  unfold depot_matcher, DEPOT_PATTERNS. cbn [foldl].
  destruct (Re.search false _ line) as [m|] eqn:Em; [|by left].
  right. eexists _, _. split; [|done].
  eexists _, m. split; [|split; [exact Em|done]].
  unfold DEPOT_PATTERNS. left.
Qed.

Lemma process_line_binding now self line :
  depot_to_app (process_line now self line) = depot_to_app self
  \/ exists depot app,
       depot_line line depot app
       /\ depot_to_app (process_line now self line)
          = <[depot := app]> (depot_to_app self).
Proof.
  unfold process_line.
  pose proof (rate_matcher_frame now line self) as (_ & _ & Hd & _).
  destruct (rate_matcher now line self) as [s|s]; simpl in Hd; [|by left].
  destruct (lifecycle_matcher_frame now line (depot_matcher line s)) as (_ & _ & -> & _).
  rewrite <- Hd. apply depot_matcher_binding.
Qed.

Lemma process_lines_binding now lines self depot app :
  depot_to_app (foldl (process_line now) self lines) !! depot = Some app ->
  depot_to_app self !! depot = Some app
  \/ exists line, line ∈ lines /\ depot_line line depot app.
Proof.
  revert self. induction lines as [|line lines IH]; intros self; [by left|].
  cbn [foldl]. intros Hl. destruct (IH _ Hl) as [Hin|(l & Hin & Hd)].
  - destruct (process_line_binding now self line) as [E|(d & a & Hd & E)];
      rewrite E in Hin; [by left|].
    destruct (decide (d = depot)) as [->|Hne].
    + rewrite lookup_insert_eq in Hin. injection Hin as ->.
      right. exists line. split; [left|done].
    + rewrite lookup_insert_ne in Hin by done. by left.
  - right. exists l. split; [by right|done].
Qed.

Lemma process_lines_keeps now lines self depot :
  is_Some (depot_to_app self !! depot) ->
  is_Some (depot_to_app (foldl (process_line now) self lines) !! depot).
Proof.
  revert self. induction lines as [|line lines IH]; intros self Hs; [done|].
  cbn [foldl]. apply IH.
  destruct (process_line_binding now self line) as [E|(d & a & Hd & E)];
    rewrite E; [done|].
  destruct (decide (d = depot)) as [->|Hne].
  - rewrite lookup_insert_eq. by eexists.
  - by rewrite lookup_insert_ne.
Qed.

(** X8.  The depot mapping forgets nothing and invents nothing: after a
    refresh, a depot is mapped to an app only if it was so before (and the
    refresh did not reload) or a line that was read matches the depot
    pattern with that depot and that app; unless the refresh reloads, a
    depot that was mapped is still mapped, whatever the age of its line.
    [build_depot_app_mapping] returns the mapping of the refreshed
    state. *)
Theorem depot_mapping_spec (self : LogParser) (file : log_file)
    (full_load : bool) (now : Z) :
  let refreshed := _update_log_state self file full_load now in
  (forall depot app,
     depot_to_app refreshed !! depot = Some app ->
     (reloads self file full_load = false /\ depot_to_app self !! depot = Some app)
     \/ exists line, line ∈ lines_read self file full_load /\ depot_line line depot app)
  /\ (reloads self file full_load = false ->
      forall depot, is_Some (depot_to_app self !! depot) ->
                    is_Some (depot_to_app refreshed !! depot))
  /\ snd (build_depot_app_mapping self file now)
     = depot_to_app (_update_log_state self file false now).
Proof.
  cbv zeta. rewrite update_log_state_unfold. split; [|split; [|done]].
  - intros depot app. destruct file as [| |size|text]; try (intros; by left).
    { destruct (size <? last_pos self)%nat; intros; by left. }
    destruct (reloads _ _ _) eqn:Er.
    + unfold scan. destruct (prune_frame now (foldl (process_line now)
        {| last_pos := String.length text; latest_rate := None;
           recent_events := []; depot_to_app := ∅; rate_entries := [] |}
        (lines_read self (Content text) full_load))) as (_ & _ & ->).
      intros Hl. apply process_lines_binding in Hl as [Hl|Hl]; [|by right].
      simpl in Hl. by rewrite lookup_empty in Hl.
    + destruct (lines_read _ _ _) as [|l ls] eqn:El; [intros; by left|].
      unfold scan. destruct (prune_frame now (foldl (process_line now)
        (set_last_pos (String.length text) self) (l :: ls))) as (_ & _ & ->).
      intros Hl. apply process_lines_binding in Hl as [Hl|Hl]; [by left|by right].
  - intros Er depot Hs. destruct file as [| |size|text]; try done.
    { by destruct (size <? last_pos self)%nat. }
    rewrite Er.
    destruct (lines_read _ _ _) as [|l ls] eqn:El; [done|].
    unfold scan. destruct (prune_frame now (foldl (process_line now)
        (set_last_pos (String.length text) self) (l :: ls))) as (_ & _ & ->).
    by apply process_lines_keeps.
Qed.

End DepotMapping.

(** ** The resolver and the sample *)

Section Resolver.
Context `{Re.PyRe}.

Lemma manifest_of_spec a l :
  match manifest_of a l with
  | Return (Some g) =>
      exists acf, first_not_passed a l acf /\ manifest_names a acf g
  | Return None => Forall (passed_over a) l
  | Raise e =>
      e = ValueError
      /\ exists acf, first_not_passed a l acf /\ appid_not_integer acf
  end.
Proof.
  induction l as [|acf l IH]; simpl; [constructor|].
  assert (Hcons : forall x,
            passed_over a acf -> first_not_passed a l x ->
            first_not_passed a (acf :: l) x).
  { intros x Hp (l1 & l2 & -> & Hall). exists (acf :: l1), l2.
    split; [done|]. by constructor. }
  assert (Hhere : first_not_passed a (acf :: l) acf).
  { exists [], l. split; [done|]. constructor. }
  destruct (parse_acf (read acf)) as [data|e] eqn:Ep.
  - destruct (Py.int (default "0" (data !! "appid"))) as [app|] eqn:Ea.
    + destruct (app =? a) eqn:E.
      * apply Z.eqb_eq in E as ->. exists acf. split; [done|]. by exists data.
      * apply Z.eqb_neq in E.
        assert (Hp : passed_over a acf) by (right; by exists data, app).
        destruct (manifest_of a l) as [[g|]|e].
        -- destruct IH as (x & Hx & Hg). exists x. auto.
        -- by constructor.
        -- destruct IH as (-> & x & Hx & Hb). split; [done|]. exists x. auto.
    + split; [done|]. exists acf. split; [done|]. by exists data.
  - assert (Hp : passed_over a acf) by (left; by exists e).
    destruct (manifest_of a l) as [[g|]|e'].
    + destruct IH as (x & Hx & Hg). exists x. auto.
    + by constructor.
    + destruct IH as (-> & x & Hx & Hb). split; [done|]. exists x. auto.
Qed.

Lemma not_passed_not_both a l x y g :
  first_not_passed a l x -> manifest_names a x g ->
  first_not_passed a l y -> appid_not_integer y -> False.
Proof.
  intros (l1 & l2 & -> & H1) (data & Hp & Ha & _) (k1 & k2 & E & K1) (data' & Hp' & Ha').
  assert (Hx : ~ passed_over a x).
  { intros [[e He]|(d & app & Hd & Happ & Hne)]; congruence. }
  assert (Hy : ~ passed_over a y).
  { intros [[e He]|(d & app & Hd & Happ & Hne)]; congruence. }
  revert k1 E K1. induction l1 as [|z l1 IH]; intros k1 E K1.
  - destruct k1 as [|b k1]; simpl in E.
    + injection E as -> _. congruence.
    + injection E as -> _. apply Forall_cons in K1 as [K1 _]. done.
  - apply Forall_cons in H1 as [Hz H1].
    destruct k1 as [|b k1]; simpl in E.
    + injection E as <- _. done.
    + injection E as _ E. apply Forall_cons in K1 as [_ K1]. by apply (IH H1 k1).
Qed.

(** The fallback answers from the refreshed engine, whatever was
    refreshed before. *)
Lemma fallback_from_refreshed parser file steamapps now :
  snd (_find_active_game_fallback (_update_log_state parser file false now)
         file steamapps now)
  = snd (_find_active_game_fallback parser file steamapps now).
Proof.
  unfold _find_active_game_fallback.
  pose proof (fallback_loop_spec file now parser steamapps parser
                {| active_games := []; paused_games := [] |}
                (or_introl eq_refl)) as H1.
  pose proof (fallback_loop_spec file now (_update_log_state parser file false now)
                steamapps (_update_log_state parser file false now)
                {| active_games := []; paused_games := [] |}
                (or_introl eq_refl)) as H2.
  cbv zeta in H1, H2.
  rewrite (settled_refresh file _ now (refresh_settled file parser false now)) in H2.
  destruct (foldl (fallback_step file now) (parser, _) steamapps) as [p1 b1].
  destruct (foldl (fallback_step file now) (_update_log_state _ _ _ _, _) steamapps)
    as [p2 b2].
  simpl in *. congruence.
Qed.

Lemma candidate_game_data acf g :
  candidate_game acf = Some g ->
  app_id g <> 0 /\ manifest_names (app_id g) acf g.
Proof.
  unfold candidate_game, manifest_view, manifest_names.
  destruct (parse_acf (read acf)) as [data|e]; [|done].
  destruct (Py.int (default "0" (data !! "appid"))) as [app|] eqn:Ea; [|done].
  simpl. destruct (app =? 0) eqn:E; [done|]. apply Z.eqb_neq in E.
  destruct (Py.int (default "4" (data !! "StateFlags"))) as [flags|]; [|done].
  simpl. intros [= <-]. simpl. split; [done|]. by exists data.
Qed.

Lemma fallback_answer_listed parser file steamapps now g :
  snd (_find_active_game_fallback parser file steamapps now) = Some g ->
  exists acf, acf ∈ steamapps /\ candidate_game acf = Some g.
Proof.
  unfold _find_active_game_fallback.
  pose proof (fallback_loop_spec file now parser steamapps parser
                {| active_games := []; paused_games := [] |}
                (or_introl eq_refl)) as Hloop.
  destruct (foldl (fallback_step file now) _ steamapps) as [p' b].
  simpl in Hloop. subst b. unfold pick. simpl.
  set (engine := _update_log_state parser file false now).
  destruct (omap (active_entry engine) steamapps) as [|ea la] eqn:Ea.
  - destruct (omap (paused_entry engine) steamapps) as [|ep lp] eqn:Ep; [done|].
    pose proof (newest_of_bucket (ep :: lp)) as Hn.
    destruct (Py.sorted_reverse fst (ep :: lp)) as [|[m g'] rest]; [done|].
    destruct Hn as [Hin _]. rewrite <- Ep in Hin.
    apply elem_of_paused_entries in Hin as (acf & Hin & _ & Hg & _).
    intros [= <-]. by exists acf.
  - pose proof (newest_of_bucket (ea :: la)) as Hn.
    destruct (Py.sorted_reverse fst (ea :: la)) as [|[m g'] rest]; [done|].
    destruct Hn as [Hin _]. rewrite <- Ea in Hin.
    apply elem_of_active_entries in Hin as (acf & Hin & _ & Hg & _).
    intros [= <-]. by exists acf.
Qed.

Lemma find_active_game_unfold parser file steamapps now :
  snd (find_active_game parser file steamapps now) =
    let fallback :=
      Return (snd (_find_active_game_fallback parser file steamapps now)) in
    match most_recent_active (_update_log_state parser file false now) now with
    | Some a =>
        if a =? 0 then fallback
        else
          match manifest_of a steamapps with
          | Return (Some g) => Return (Some g)
          | Return None => fallback
          | Raise e => Raise e
          end
    | None => fallback
    end.
Proof.
  unfold find_active_game, get_most_recent_active_download. cbv zeta.
  rewrite <- fallback_from_refreshed.
  destruct (_find_active_game_fallback (_update_log_state parser file false now)
              file steamapps now) as [p g].
  destruct (most_recent_active _ now) as [a|]; [|done].
  destruct (a =? 0); [done|].
  by destruct (manifest_of a steamapps) as [[g'|]|e].
Qed.

(** X9.  [find_active_game] by cases on the app that the log names.  If
    it names an app that is not 0, the manifests are gone through in the
    order of the directory listing, those that cannot be parsed or have
    another [appid] passed over: the first one left gives the game if its
    [appid] is that app, whatever its flags, byte counts and modification
    time, and makes the call raise [ValueError] if its [appid] is not an
    integer.  If the log names no app, or app 0, or every manifest is
    passed over, the answer is that of [_find_active_game_fallback].
    Nothing but [ValueError] is raised, and only when the log names an
    app. *)
Theorem find_active_game_spec (parser : LogParser) (file : log_file)
    (steamapps : list manifest) (now : Z) :
  let named := snd (get_most_recent_active_download parser file now now) in
  let answer := snd (find_active_game parser file steamapps now) in
  let fallback := snd (_find_active_game_fallback parser file steamapps now) in
  (forall a acf g,
     named = Some a -> a <> 0 ->
     first_not_passed a steamapps acf -> manifest_names a acf g ->
     answer = Return (Some g))
  /\ (forall a acf,
        named = Some a -> a <> 0 ->
        first_not_passed a steamapps acf -> appid_not_integer acf ->
        answer = Raise ValueError)
  /\ (named = None \/ named = Some 0
      \/ (exists a, named = Some a /\ Forall (passed_over a) steamapps) ->
      answer = Return fallback)
  /\ (forall e, answer = Raise e ->
        e = ValueError /\ exists a, named = Some a /\ a <> 0).
Proof.
  cbv zeta. rewrite find_active_game_unfold. cbv zeta.
  unfold get_most_recent_active_download. cbn [snd].
  destruct (most_recent_active _ now) as [a|].
  2:{ repeat split; done. }
  destruct (a =? 0) eqn:E0.
  { apply Z.eqb_eq in E0 as ->.
    repeat split; try done; intros; simplify_eq. }
  apply Z.eqb_neq in E0. pose proof (manifest_of_spec a steamapps) as Hm.
  destruct (manifest_of a steamapps) as [[g|]|e].
  - destruct Hm as (x & Hx & Hg). split; [|split; [|split]].
    + intros a' acf g' [= <-] _ Hf Hn. f_equal. f_equal.
      destruct Hx as (l1 & l2 & E & H1). destruct Hf as (k1 & k2 & E' & K1).
      destruct Hg as (data & Hp & Ha & ->). destruct Hn as (data' & Hp' & Ha' & ->).
      assert (Hnx : ~ passed_over a x).
      { intros [[e He]|(d & app & Hd & Happ & Hne)]; congruence. }
      assert (Hny : ~ passed_over a acf).
      { intros [[e He]|(d & app & Hd & Happ & Hne)]; congruence. }
      assert (Heq : x = acf).
      { rewrite E in E'. clear E. revert k1 E' K1.
        induction l1 as [|z l1 IH]; intros k1 E' K1.
        - destruct k1 as [|b k1]; simpl in E'; [congruence|].
          injection E' as -> _. apply Forall_cons in K1 as [K1 _]. done.
        - apply Forall_cons in H1 as [Hz H1].
          destruct k1 as [|b k1]; simpl in E'.
          + injection E' as <- _. done.
          + injection E' as _ E'. apply Forall_cons in K1 as [_ K1].
            by apply (IH H1 k1). }
      subst acf. congruence.
    + intros a' acf [= <-] _ Hf Hb. exfalso.
      by apply (not_passed_not_both a steamapps x acf g).
    + intros [?|[[= ?]|(a' & [= <-] & Hall)]]; [done|done|]. exfalso.
      destruct Hx as (l1 & l2 & -> & H1). destruct Hg as (data & Hp & Ha & _).
      apply Forall_app in Hall as [_ Hall]. apply Forall_cons in Hall as [Hx _].
      destruct Hx as [[e He]|(d & app & Hd & Happ & Hne)]; congruence.
    + done.
  - split; [|split; [|split]]; try done.
    + intros a' acf g [= <-] _ (l1 & l2 & -> & H1) (data & Hp & Ha & _). exfalso.
      apply Forall_app in Hm as [_ Hall]. apply Forall_cons in Hall as [Hx _].
      destruct Hx as [[e He]|(d & app & Hd & Happ & Hne)]; congruence.
    + intros a' acf [= <-] _ (l1 & l2 & -> & H1) (data & Hp & Ha). exfalso.
      apply Forall_app in Hm as [_ Hall]. apply Forall_cons in Hall as [Hx _].
      destruct Hx as [[e He]|(d & app & Hd & Happ & Hne)]; congruence.
  - destruct Hm as (-> & x & Hx & Hb). split; [|split; [|split]].
    + intros a' acf g [= <-] _ Hf Hn. exfalso.
      by apply (not_passed_not_both a steamapps acf x g).
    + done.
    + intros [?|[[= ?]|(a' & [= <-] & Hall)]]; [done|done|]. exfalso.
      destruct Hx as (l1 & l2 & -> & H1). destruct Hb as (data & Hp & Ha).
      apply Forall_app in Hall as [_ Hall]. apply Forall_cons in Hall as [Hx _].
      destruct Hx as [[e He]|(d & app & Hd & Happ & Hne)]; congruence.
    + intros e [= <-]. split; [done|]. by exists a.
Qed.

(** X10.  Whatever the route, a game that [find_active_game] returns is
    the game of a manifest of the directory listing: the manifest parses,
    its [appid] is the integer [app_id] of the game and is not 0, the name
    is its [name] value, or [Unknown] if it has none, and the path is its
    path. *)
Theorem find_active_game_sound (parser : LogParser) (file : log_file)
    (steamapps : list manifest) (now : Z) (g : DownloadingGame)
    (Hfound : snd (find_active_game parser file steamapps now) = Return (Some g)) :
  app_id g <> 0
  /\ exists acf data,
       acf ∈ steamapps
       /\ parse_acf (read acf) = Return data
       /\ Py.int (default "0" (data !! "appid")) = Some (app_id g)
       /\ name g = default "Unknown" (data !! "name")
       /\ path g = acf_path acf.
Proof.
  rewrite find_active_game_unfold in Hfound. cbv zeta in Hfound.
  assert (Hfallback :
    Return (snd (_find_active_game_fallback parser file steamapps now))
      = Return (Some g) ->
    app_id g <> 0
    /\ exists acf data,
         acf ∈ steamapps
         /\ parse_acf (read acf) = Return data
         /\ Py.int (default "0" (data !! "appid")) = Some (app_id g)
         /\ name g = default "Unknown" (data !! "name")
         /\ path g = acf_path acf).
  { intros [= Hf]. apply fallback_answer_listed in Hf as (acf & Hin & Hc).
    apply candidate_game_data in Hc as [Hne (data & Hp & Ha & Hg)].
    split; [done|]. exists acf, data.
    split; [done|]. split; [done|]. split; [done|].
    split; by rewrite Hg. }
  destruct (most_recent_active _ now) as [a|]; [|by apply Hfallback].
  destruct (a =? 0) eqn:E0; [by apply Hfallback|]. apply Z.eqb_neq in E0.
  pose proof (manifest_of_spec a steamapps) as Hm.
  destruct (manifest_of a steamapps) as [[g'|]|e]; [|by apply Hfallback|done].
  injection Hfound as ->.
  destruct Hm as (acf & (l1 & l2 & -> & _) & (data & Hp & Ha & ->)).
  simpl. split; [done|]. exists acf, data. split; [|done].
  apply elem_of_app. right. left.
Qed.

(** *** The engine after the resolver *)

Lemma same_answers_refl file engine : settled file engine -> same_answers file engine engine.
Proof. by intros Hs. Qed.

Lemma same_answers_refresh file engine p now :
  same_answers file engine p -> _update_log_state p file false now = p.
Proof. intros [Hs _]. by apply settled_refresh. Qed.

Lemma same_answers_pause file engine p app now :
  same_answers file engine p ->
  same_answers file engine (fst (get_recent_pause_info p file app now))
  /\ snd (get_recent_pause_info p file app now) = snd (recent_pause engine app).
Proof.
  intros Hp. unfold get_recent_pause_info.
  rewrite (same_answers_refresh file engine p now Hp).
  destruct Hp as (Hs & Hr & Ha). split; [|apply Ha].
  split; [by apply recent_pause_settled|]. split.
  - destruct (recent_pause_frame p app) as (_ & -> & _). done.
  - intros b. rewrite recent_pause_again. apply Ha.
Qed.

Lemma fallback_step_same file engine now p b acf :
  same_answers file engine p ->
  same_answers file engine (fst (fallback_step file now (p, b) acf)).
Proof.
  intros Hp. unfold fallback_step.
  destruct (parse_acf (read acf)) as [data|e]; [|done].
  destruct (Py.int (default "0" (data !! "appid"))) as [app|]; [|done].
  destruct (app =? 0); [done|].
  destruct (Py.int (default "4" (data !! "StateFlags"))) as [flags|]; [|done].
  destruct (same_answers_pause file engine p app now Hp) as [Hp' _].
  destruct (get_recent_pause_info p file app now) as [p' info]. simpl in Hp'.
  destruct (_ || _); [done|].
  by destruct (by_progress _ _ _ _).
Qed.

Lemma fallback_loop_same file engine now steamapps p b :
  same_answers file engine p ->
  same_answers file engine (fst (foldl (fallback_step file now) (p, b) steamapps)).
Proof.
  revert p b. induction steamapps as [|acf l IH]; intros p b Hp; [done|].
  cbn [foldl].
  pose proof (fallback_step_same file engine now p b acf Hp) as Hp'.
  destruct (fallback_step file now (p, b) acf) as [p' b']. by apply IH.
Qed.

Lemma find_active_game_same parser file steamapps now :
  same_answers file (_update_log_state parser file false now)
    (fst (find_active_game parser file steamapps now)).
Proof.
  set (engine := _update_log_state parser file false now).
  assert (He : same_answers file engine engine)
    by apply same_answers_refl, refresh_settled.
  assert (Hf : same_answers file engine
                 (fst (_find_active_game_fallback engine file steamapps now))).
  { unfold _find_active_game_fallback.
    pose proof (fallback_loop_same file engine now steamapps engine
                  {| active_games := []; paused_games := [] |} He) as Hl.
    by destruct (foldl (fallback_step file now) _ steamapps) as [p b]. }
  unfold find_active_game, get_most_recent_active_download. cbv zeta. fold engine.
  destruct (_find_active_game_fallback engine file steamapps now) as [p g].
  destruct (most_recent_active engine now) as [a|]; [|done].
  destruct (a =? 0); [done|].
  by destruct (manifest_of a steamapps) as [[g'|]|e].
Qed.

Lemma sample_status_same file engine p read speed g now :
  settled file engine ->
  same_answers file engine p ->
  snd (sample_status p file read speed g now)
  = snd (sample_status engine file read speed g now).
Proof.
  intros Hs Hp. unfold sample_status.
  destruct (parse_acf read) as [data|e]; [|done].
  destruct (Py.int (default "4" (data !! "StateFlags"))) as [flags|]; [|done].
  unfold get_status.
  destruct (same_answers_pause file engine p (app_id g) now Hp) as [_ Hq].
  assert (He : same_answers file engine engine) by (by apply same_answers_refl).
  destruct (same_answers_pause file engine engine (app_id g) now He) as [_ Hq'].
  destruct (get_recent_pause_info p file (app_id g) now) as [p' info].
  destruct (get_recent_pause_info engine file (app_id g) now) as [e' info'].
  simpl in Hq, Hq'. rewrite Hq, Hq'.
  destruct (snd (recent_pause engine (app_id g))); [done|].
  by destruct (status_of flags data speed).
Qed.

(** X11.  [get_current_sample] composes the three queries without one
    disturbing the next.  It raises what [find_active_game] raises, and
    nothing else.  If no game is found, the sample is idle with speed 0
    and no game, whatever speed the log holds.  If a game is found, the
    sample carries it and the speed that [read_latest_speed] answers on
    the engine as it was given (0 if it answers none).  Its status is
    idle if the manifest of the game cannot be read, if its [StateFlags]
    (4 when there is none) is no integer, or if [get_status] raises;
    otherwise it is what [get_status] answers for these flags, the pairs of
    the manifest, that speed and the app of the game, on the refreshed
    engine.  The status is one of the four values of [DownloadState]. *)
Theorem get_current_sample_spec (parser : LogParser) (file : log_file)
    (steamapps : list manifest) (time now : Z) :
  let engine := _update_log_state parser file false now in
  let speed :=
    match snd (read_latest_speed parser file now now) with
    | Some (_, v) => v
    | None => 0%Q
    end in
  match snd (find_active_game parser file steamapps now) with
  | Raise e => snd (get_current_sample parser file steamapps time now) = Raise e
  | Return None =>
      snd (get_current_sample parser file steamapps time now)
      = Return {| timestamp := time; speed_bytes_per_sec := 0%Q;
                  status := "idle"; game := None |}
  | Return (Some g) =>
      exists st,
        snd (get_current_sample parser file steamapps time now)
        = Return {| timestamp := time; speed_bytes_per_sec := speed;
                    status := value st; game := Some g |}
        /\ match parse_acf (reader steamapps (path g)) with
           | Raise _ => st = IDLE
           | Return data =>
               match Py.int (default "4" (data !! "StateFlags")) with
               | None => st = IDLE
               | Some flags =>
                   match snd (get_status engine file flags data speed (app_id g) now)
                   with
                   | Return answered => st = answered
                   | Raise _ => st = IDLE
                   end
               end
           end
        /\ value st ∈ ["downloading"; "paused"; "unpacking"; "idle"]
  end.
Proof.
  cbv zeta. unfold get_current_sample.
  pose proof (find_active_game_same parser file steamapps now) as Hp.
  destruct (find_active_game parser file steamapps now) as [p [found|e]];
    cbn [fst snd] in *; [|done].
  set (engine := _update_log_state parser file false now) in *.
  assert (Hspeed : read_latest_speed p file now now
                   = (p, snd (read_latest_speed parser file now now))).
  { unfold read_latest_speed. rewrite (same_answers_refresh file engine p now Hp).
    fold engine. destruct Hp as (_ & -> & _).
    destruct (latest_rate engine) as [[ts v]|]; [|done].
    by destruct (Py.total_seconds_le _ _). }
  rewrite Hspeed. destruct found as [g|]; [|done].
  set (speed := match snd (read_latest_speed parser file now now) with
                | Some (_, v) => v
                | None => 0%Q
                end).
  pose proof (sample_status_same file engine p (reader steamapps (path g)) speed g now
                (refresh_settled file parser false now) Hp) as Hst.
  destruct (sample_status p file (reader steamapps (path g)) speed g now) as [p' st].
  simpl in Hst. exists st. split; [done|]. split; [|destruct st; simpl; set_solver].
  rewrite Hst. unfold sample_status.
  destruct (parse_acf (reader steamapps (path g))) as [data|e]; [|done].
  destruct (Py.int (default "4" (data !! "StateFlags"))) as [flags|]; [|done].
  by destruct (get_status engine file flags data speed (app_id g) now) as [q [answered|e]].
Qed.

End Resolver.

(** X9: a manifest whose [appid] is no integer, listed before the
    manifest of the app that the log names, makes the resolver raise;
    the fallback alone skips it. *)
Lemma find_active_game_raises :
  let steamapps := [broken_manifest; test_manifest "256" "1000000" "5000000" 1] in
  snd (find_active_game (H := Re.backtracking) init one_rate_line steamapps now0)
  = Raise ValueError
  /\ (app_id <$> snd (_find_active_game_fallback (H := Re.backtracking) init
                        one_rate_line steamapps now0)) = Some 12345.
Proof. by vm_compute. Qed.

(** X10: an instance, on the log and the manifest of the tests. *)
Lemma find_active_game_sound_witness :
  let g := {| app_id := 12345; name := "Test Game"; path := "appmanifest_12345.acf" |} in
  snd (find_active_game (H := Re.backtracking) init one_rate_line
         [test_manifest "256" "1000000" "5000000" 1] now0) = Return (Some g)
  /\ app_id g <> 0.
Proof.
  assert (Hfound :
    snd (find_active_game (H := Re.backtracking) init one_rate_line
           [test_manifest "256" "1000000" "5000000" 1] now0)
    = Return (Some {| app_id := 12345; name := "Test Game";
                      path := "appmanifest_12345.acf" |})) by (by vm_compute).
  split; [exact Hfound|].
  exact (proj1 (find_active_game_sound (H := Re.backtracking) init one_rate_line
                  [test_manifest "256" "1000000" "5000000" 1] now0 _ Hfound)).
Defined.

(** ** The finder *)

Section FinderFacts.
Context {path : Type} (h : Finder.host path).

(** X12.  Whatever the route (a custom path, the registry, the symbolic
    link of the home directory, the library of the home directory), an
    installation that [SteamFinder.find] returns is complete: its
    [steamapps] and [logs] are the directories of these names under its
    root, and both exist. *)
Theorem find_returns_complete_install (custom_path : option string)
    (steam : Finder.SteamInstall path)
    (Hfound : Finder.find h custom_path = Finder.Return steam) :
  Finder.steamapps steam = Finder.joinpath h (Finder.root steam) "steamapps"
  /\ Finder.logs steam = Finder.joinpath h (Finder.root steam) "logs"
  /\ Finder.exists_ h (Finder.steamapps steam) = true
  /\ Finder.exists_ h (Finder.logs steam) = true.
Proof.
  assert (Hauto :
    match
      (if String.eqb (Finder.system h) "Windows" then Finder._find_windows_steam h
       else if String.eqb (Finder.system h) "Linux" then Finder._find_linux_steam h
       else if String.eqb (Finder.system h) "Darwin" then Finder._find_macos_steam h
       else None)
    with
    | None => Finder.SteamNotFoundError ("Steam not found on " +:+ Finder.system h)
    | Some steam => Finder.Return steam
    end = Finder.Return steam ->
    Finder.steamapps steam = Finder.joinpath h (Finder.root steam) "steamapps"
    /\ Finder.logs steam = Finder.joinpath h (Finder.root steam) "logs"
    /\ Finder.exists_ h (Finder.steamapps steam) = true
    /\ Finder.exists_ h (Finder.logs steam) = true).
  { destruct (String.eqb (Finder.system h) "Windows").
    { unfold Finder._find_windows_steam.
      destruct (Finder.SteamPath h) as [p|]; [|done]. cbv zeta.
      destruct (Finder.exists_ h (Finder.joinpath h _ "steamapps")) eqn:E1; [|done].
      destruct (Finder.exists_ h (Finder.joinpath h _ "logs")) eqn:E2; [|done].
      simpl. intros [= <-]. done. }
    destruct (String.eqb (Finder.system h) "Linux").
    { unfold Finder._find_linux_steam. cbv zeta.
      destruct (negb _); [done|].
      destruct (Finder.exists_ h (Finder.joinpath h _ "steamapps")) eqn:E1; [|done].
      destruct (Finder.exists_ h (Finder.joinpath h _ "logs")) eqn:E2; [|done].
      simpl. intros [= <-]. done. }
    destruct (String.eqb (Finder.system h) "Darwin"); [|done].
    unfold Finder._find_macos_steam. cbv zeta.
    destruct (Finder.exists_ h (Finder.joinpath h _ "steamapps")) eqn:E1; [|done].
    destruct (Finder.exists_ h (Finder.joinpath h _ "logs")) eqn:E2; [|done].
    simpl. intros [= <-]. done. }
  unfold Finder.find in Hfound. destruct custom_path as [[|c p]|]; try by apply Hauto.
  cbv zeta in Hfound.
  destruct (Finder.exists_ h (Finder.joinpath h _ "steamapps")) eqn:E1; [|done].
  destruct (Finder.exists_ h (Finder.joinpath h _ "logs")) eqn:E2; [|done].
  simpl in Hfound. injection Hfound as <-. done.
Qed.

(** X13.  A custom path that is not empty decides alone: the answer is
    the same on any platform, with any home directory and registry; if
    [steamapps] or [logs] is missing under it, [SteamNotFoundError] is
    raised with a message that names the path, and no other place is
    tried.  An empty custom path is no custom path.  Without one, a
    platform that is not Windows, Linux or Darwin raises
    [SteamNotFoundError]. *)
Theorem find_custom_path_decides (c : ascii) (p : string) (system : string)
    (home : path) (registry : option string) :
  let custom_path := String c p in
  let under name :=
    Finder.joinpath h (Finder.resolve h (Finder.Path h custom_path)) name in
  Finder.find (elsewhere h system home registry) (Some custom_path)
  = Finder.find h (Some custom_path)
  /\ (Finder.exists_ h (under "steamapps") = false
      \/ Finder.exists_ h (under "logs") = false ->
      Finder.find h (Some custom_path)
      = Finder.SteamNotFoundError
          ("Custom Steam path " +:+ custom_path
           +:+ " is invalid: missing steamapps or logs directory"))
  /\ Finder.find h (Some EmptyString) = Finder.find h None
  /\ (Finder.system h <> "Windows" -> Finder.system h <> "Linux" ->
      Finder.system h <> "Darwin" ->
      Finder.find h None
      = Finder.SteamNotFoundError ("Steam not found on " +:+ Finder.system h)).
Proof.
  cbv zeta. split; [done|]. split; [|split; [done|]].
  - unfold Finder.find. cbv zeta.
    intros [-> | ->]; [done|]. by rewrite andb_false_r.
  - intros H1 H2 H3. unfold Finder.find. cbv zeta.
    apply String.eqb_neq in H1, H2, H3. by rewrite H1, H2, H3.
Qed.

End FinderFacts.

(** X12: an instance, on a Linux host whose link leads to an
    installation. *)
Lemma find_returns_complete_install_witness :
  let h := text_host "Linux" "/home/u"
             ["/home/u/.steam/steam"; "/home/u/.steam/steam/steamapps";
              "/home/u/.steam/steam/logs"] None in
  Finder.find h None
  = Finder.Return {| Finder.root := "/home/u/.steam/steam";
                     Finder.steamapps := "/home/u/.steam/steam/steamapps";
                     Finder.logs := "/home/u/.steam/steam/logs" |}
  /\ Finder.exists_ h "/home/u/.steam/steam/logs" = true.
Proof.
  split; [reflexivity|].
  refine (proj2 (proj2 (proj2
    (find_returns_complete_install
       (text_host "Linux" "/home/u"
          ["/home/u/.steam/steam"; "/home/u/.steam/steam/steamapps";
           "/home/u/.steam/steam/logs"] None)
       None
       {| Finder.root := "/home/u/.steam/steam";
          Finder.steamapps := "/home/u/.steam/steam/steamapps";
          Finder.logs := "/home/u/.steam/steam/logs" |} _)))).
  reflexivity.
Defined.

(** ** The context manager *)

(** X14.  Whatever the order of the [__enter__] and [__exit__] calls on a
    monitor, the observer is started only when it is not running, and
    stopped, then joined with a timeout of 2 seconds, only when it is; a
    second [__enter__] or a second [__exit__] in a row makes no call on
    it. *)
Theorem observer_calls_alternate (self : SteamMonitor) (calls : list monitor_call) :
  alternates (_started self) (snd (monitor_calls self calls))
  /\ snd (monitor_calls self (enter :: enter :: calls))
     = snd (monitor_calls self (enter :: calls))
  /\ snd (monitor_calls self (leave :: leave :: calls))
     = snd (monitor_calls self (leave :: calls)).
Proof.
  split; [|split].
  - revert self. induction calls as [|c calls IH]; intros self; [done|].
    cbn [monitor_calls].
    destruct c; unfold __enter__, __exit__; destruct self as [[|]]; simpl.
    + specialize (IH {| _started := true |}).
      by destruct (monitor_calls {| _started := true |} calls).
    + specialize (IH {| _started := true |}).
      by destruct (monitor_calls {| _started := true |} calls).
    + specialize (IH {| _started := false |}).
      by destruct (monitor_calls {| _started := false |} calls).
    + specialize (IH {| _started := false |}).
      by destruct (monitor_calls {| _started := false |} calls).
  - cbn [monitor_calls]. unfold __enter__. destruct self as [[|]]; simpl;
      by destruct (monitor_calls {| _started := true |} calls).
  - cbn [monitor_calls]. unfold __exit__. destruct self as [[|]]; simpl;
      by destruct (monitor_calls {| _started := false |} calls).
Qed.

(** ** The loop of [main] *)

Section MainLoop.
Context `{Re.PyRe}.

(** X15.  What [main] shows of a sample of the monitor.  An idle sample
    is shown with the name [None] and the speed 0, also when a game was
    found; a paused one with the name of its game and the speed 0; any
    other with the name of its game and its speed.  A sample that is not
    idle always carries its game, so the name [Unknown] of line 62 is
    never shown for another reason than a game of that name. *)
Theorem display_of_sample (parser : LogParser) (file : log_file)
    (steamapps : list manifest) (time now : Z) (sample : DownloadSample)
    (Hsample : snd (get_current_sample parser file steamapps time now)
               = Return sample) :
  (status sample = "idle" ->
   display_name sample = "None" /\ speed_display sample = 0%Q)
  /\ (status sample <> "idle" ->
      exists g, game sample = Some g /\ display_name sample = name g)
  /\ (status sample = "paused" -> speed_display sample = 0%Q)
  /\ (status sample = "downloading" \/ status sample = "unpacking" ->
      speed_display sample = speed_bytes_per_sec sample).
Proof.
  unfold get_current_sample in Hsample.
  destruct (find_active_game parser file steamapps now) as [p [found|e]]; [|done].
  destruct (read_latest_speed p file now now) as [p' speed_entry].
  destruct found as [g|].
  - destruct (sample_status p' file _ _ g now) as [p'' st].
    simpl in Hsample. injection Hsample as <-.
    unfold display_name, speed_display. simpl.
    destruct st; simpl; repeat split; try done; try (by intros [?|?]);
      intros _; by exists g.
  - simpl in Hsample. injection Hsample as <-.
    unfold display_name, speed_display. simpl.
    repeat split; try done; by intros [?|?].
Qed.





End MainLoop.

(** X15: an instance, on the log and the manifest of the tests. *)
Lemma display_of_sample_witness :
  let sample :=
    {| timestamp := 0; speed_bytes_per_sec := ((105 # 10) * 1024 * 1024)%Q;
       status := "downloading";
       game := Some {| app_id := 12345; name := "Test Game";
                       path := "appmanifest_12345.acf" |} |} in
  log_msg sample = "Status: DOWNLOADING, Game: Test Game, Speed: 10.50 MB/s"
  /\ speed_display sample = speed_bytes_per_sec sample.
Proof.
  split; [by vm_compute|].
  refine (proj2 (proj2 (proj2
    (display_of_sample (H := Re.backtracking) init one_rate_line
       [test_manifest "256" "1000000" "5000000" 1] 0 now0 _ _))) _).
  - by vm_compute.
  - by left.
Defined.

(** X16, X17: three samples are asked for and the second cannot be taken;
    the bounded loop stops there, the unbounded one goes on.  With an
    interval of -1 second, the first sample is the last. *)
Lemma sample_loop_runs :
  let host : Z -> option exn := fun _ => None in
  sample_loop (H := Re.backtracking) host 3 60 0 init
    [fair_world; foul_world; fair_world]
  = ([info "Status: DOWNLOADING, Game: Test Game, Speed: 10.50 MB/s"; sleep 60;
      error_getting_sample ValueError],
     raised ValueError)
  /\ fst (sample_loop (H := Re.backtracking) host 0 60 0 init
            [fair_world; foul_world; fair_world])
     = [info "Status: DOWNLOADING, Game: Test Game, Speed: 10.50 MB/s"; sleep 60;
        error_getting_sample ValueError; sleep 5;
        info "Status: DOWNLOADING, Game: Test Game, Speed: 10.50 MB/s"; sleep 60]
  /\ sample_loop (H := Re.backtracking) host 2 60 0 init
       [fair_world; fair_world; fair_world]
     = ([info "Status: DOWNLOADING, Game: Test Game, Speed: 10.50 MB/s"; sleep 60;
         info "Status: DOWNLOADING, Game: Test Game, Speed: 10.50 MB/s"],
        finished)
  /\ sample_loop (H := Re.backtracking) host 0 (-1) 0 init [fair_world; fair_world]
     = ([info "Status: DOWNLOADING, Game: Test Game, Speed: 10.50 MB/s"],
        raised ValueError)
  /\ sample_loop (H := Re.backtracking) host 2 10000000000 0 init
       [fair_world; fair_world]
     = ([info "Status: DOWNLOADING, Game: Test Game, Speed: 10.50 MB/s"],
        raised OverflowError).
Proof. by vm_compute. Qed.

(** ** Reading back a manifest *)

Section Strings.

Lemma quote_free_app s t : quote_free (s +:+ t) = quote_free s && quote_free t.
Proof.
  induction s as [|c s IH]; [done|]. rewrite append_cons. simpl.
  by rewrite IH, andb_assoc.
Qed.

Lemma blank_quote_free s : blank s = true -> quote_free s = true.
Proof.
  induction s as [|c s IH]; [done|]. simpl. intros Hb.
  apply andb_true_iff in Hb as [Hc Hb]. rewrite (IH Hb), andb_true_r.
  unfold is_quote. unfold Py.is_space in Hc.
  apply negb_true_iff, Z.eqb_neq. intros E. rewrite E in Hc. done.
Qed.

(** The first quote of a text is where it is. *)
Lemma first_quote_unique d d' c c' r r' :
  quote_free d = true -> quote_free d' = true ->
  is_quote c = true -> is_quote c' = true ->
  d +:+ String c r = d' +:+ String c' r' -> d = d' /\ r = r'.
Proof.
  revert d'. induction d as [|x d IH]; intros [|x' d'] Hd Hd' Hc Hc'.
  - intros [= _ ->]. done.
  - rewrite append_cons. intros [= -> _]. simpl in Hd'. by rewrite Hc in Hd'.
  - rewrite append_cons. intros [= -> _]. simpl in Hd. by rewrite Hc' in Hd.
  - rewrite !append_cons. intros [= -> E]. simpl in Hd, Hd'.
    apply andb_true_iff in Hd as [_ Hd]. apply andb_true_iff in Hd' as [_ Hd'].
    destruct (IH d' Hd Hd' Hc Hc' E) as [-> ->]. done.
Qed.

Lemma no_quote_then_quote d d' c r :
  quote_free d = true -> quote_free d' = true -> is_quote c = true ->
  d +:+ String c r = d' -> False.
Proof.
  intros Hd Hd' Hc E. rewrite <- E in Hd'. rewrite quote_free_app in Hd'.
  apply andb_true_iff in Hd' as [_ Hd']. simpl in Hd'. by rewrite Hc in Hd'.
Qed.

Lemma quote_is_quote : is_quote (ascii_of_nat 34) = true.
Proof. reflexivity. Qed.

Lemma is_quote_eq c : is_quote c = true -> c = ascii_of_nat 34.
Proof.
  unfold is_quote, Py.ord. rewrite Z.eqb_eq. intros E.
  rewrite <- (ascii_nat_embedding c). f_equal. lia.
Qed.

Lemma quote_append s : quote +:+ s = String (ascii_of_nat 34) s.
Proof. reflexivity. Qed.

Lemma drop_append s t : Py.drop (String.length s) (s +:+ t) = t.
Proof. induction s as [|c s IH]; [done|]. rewrite append_cons. simpl. exact IH. Qed.

End Strings.

Section Matcher.

(** One character of a class. *)
Lemma run_chr ic cs s caps o :
  In o (Re.run ic (Re.Chr cs) s caps)
  <-> exists x s', s = String x s' /\ Re.cset_test ic cs x = true /\ o = (s', caps).
Proof.
  simpl. destruct s as [|x s'].
  - split; [done|]. by intros (? & ? & ? & _).
  - destruct (Re.cset_test ic cs x) eqn:E.
    + split.
      * intros [<-|[]]. by exists x, s'.
      * intros (? & ? & [= <- <-] & _ & ->). by left.
    + split; [done|]. intros (? & ? & [= <- <-] & ? & _). congruence.
Qed.

(** What a repetition of a class leaves: the text after a run of
    characters of the class, at least [min] of them. *)
Lemma rep_chr_sound ic cs greedy fuel min max s caps o :
  In o (Re.rep (Re.run ic (Re.Chr cs)) greedy fuel min max s caps) ->
  exists d, s = d +:+ fst o /\ all_pass ic cs d = true /\ snd o = caps
            /\ (min <= String.length d)%nat.
Proof.
  revert min max s caps. induction fuel as [|fuel IH]; intros min max s caps; [done|].
  cbn [Re.rep].
  assert (Hstop : In o (match min with O => [(s, caps)] | S _ => [] end) ->
                  exists d, s = d +:+ fst o /\ all_pass ic cs d = true /\ snd o = caps
                            /\ (min <= String.length d)%nat).
  { destruct min; [|done]. intros [<-|[]]. exists EmptyString. simpl. auto with lia. }
  assert (Hmore :
    In o (match max with
          | Some O => []
          | _ =>
              flat_map
                (fun o0 : Re.outcome =>
                   if (String.length (fst o0) <? String.length s)%nat
                   then Re.rep (Re.run ic (Re.Chr cs)) greedy fuel
                          (Nat.pred min) (Nat.pred <$> max) (fst o0) (snd o0)
                   else [])
                (Re.run ic (Re.Chr cs) s caps)
          end) ->
    exists d, s = d +:+ fst o /\ all_pass ic cs d = true /\ snd o = caps
              /\ (min <= String.length d)%nat).
  { intros Hin.
    assert (Hin' : In o (flat_map
                (fun o0 : Re.outcome =>
                   if (String.length (fst o0) <? String.length s)%nat
                   then Re.rep (Re.run ic (Re.Chr cs)) greedy fuel
                          (Nat.pred min) (Nat.pred <$> max) (fst o0) (snd o0)
                   else [])
                (Re.run ic (Re.Chr cs) s caps))).
    { destruct max as [[|m]|]; done. }
    clear Hin. apply in_flat_map in Hin' as (o0 & Hstep & Hrest).
    apply run_chr in Hstep as (x & s' & -> & Ex & ->). cbn [fst snd] in Hrest.
    destruct (String.length s' <? String.length (String x s'))%nat; [|done].
    apply IH in Hrest as (d & -> & Hd & Hc & Hlen).
    exists (String x d). simpl. rewrite Ex, Hd. repeat split; try done. lia. }
  destruct greedy; intros Hin; apply in_app_or in Hin as [Hin|Hin]; auto.
Qed.

(** A run of characters of the class, at least [min] of them, is one of
    the ways of the repetition. *)
Lemma rep_chr_complete ic cs greedy fuel min d t caps :
  all_pass ic cs d = true -> (min <= String.length d)%nat ->
  (String.length d < fuel)%nat ->
  In (t, caps) (Re.rep (Re.run ic (Re.Chr cs)) greedy fuel min None (d +:+ t) caps).
Proof.
  revert fuel min. induction d as [|x d IH]; intros fuel min Hd Hmin Hfuel.
  - destruct fuel as [|fuel]; [simpl in Hfuel; lia|].
    destruct min; [|simpl in Hmin; lia].
    cbn [Re.rep]. change (EmptyString +:+ t) with t.
    destruct greedy; apply in_or_app; [right|left]; by left.
  - destruct fuel as [|fuel]; [simpl in Hfuel; lia|].
    simpl in Hd. apply andb_true_iff in Hd as [Hx Hd].
    cbn [Re.rep]. rewrite append_cons.
    assert (Hin : In (t, caps)
              (flat_map
                 (fun o0 : Re.outcome =>
                    if (String.length (fst o0) <? String.length (String x (d +:+ t)))%nat
                    then Re.rep (Re.run ic (Re.Chr cs)) greedy fuel
                           (Nat.pred min) (Nat.pred <$> None) (fst o0) (snd o0)
                    else [])
                 (Re.run ic (Re.Chr cs) (String x (d +:+ t)) caps))).
    { apply in_flat_map. exists (d +:+ t, caps). split.
      - apply run_chr. by exists x, (d +:+ t).
      - cbn [fst snd].
        replace (String.length (d +:+ t) <? String.length (String x (d +:+ t)))%nat
          with true by (symmetry; apply Nat.ltb_lt; simpl; lia).
        apply IH; [done| |]; simpl in *; lia. }
    destruct greedy; apply in_or_app; [left|right]; exact Hin.
Qed.

Lemma run_seq_iff ic a b s caps o :
  In o (Re.run ic (Re.Seq a b) s caps)
  <-> exists o1, In o1 (Re.run ic a s caps) /\ In o (Re.run ic b (fst o1) (snd o1)).
Proof. simpl. apply in_flat_map. Qed.

Lemma run_group_iff ic i a s caps o :
  In o (Re.run ic (Re.Group i a) s caps)
  <-> exists o', In o' (Re.run ic a s caps)
                 /\ o = (fst o', (i, Re.consumed s (fst o')) :: snd o').
Proof.
  simpl. rewrite in_map_iff. split.
  - intros (o' & <- & Hin). by exists o'.
  - intros (o' & Hin & ->). by exists o'.
Qed.

Lemma spaces_blank d : all_pass false (Re.COne Re.CSpace) d = blank d.
Proof. induction d as [|c d IH]; [done|]. simpl. by rewrite IH. Qed.

Lemma eqb_quote c : Ascii.eqb (ascii_of_nat 34) c = is_quote c.
Proof.
  destruct (is_quote c) eqn:Eq.
  - apply is_quote_eq in Eq as ->. apply Ascii.eqb_refl.
  - apply Ascii.eqb_neq. intros <-. by rewrite quote_is_quote in Eq.
Qed.

Lemma not_quote_test c :
  Re.cset_test false (Re.CClass true [Re.CLit (ascii_of_nat 34)]) c
  = negb (is_quote c).
Proof.
  unfold Re.cset_test, Re.catom_test, existsb. rewrite eqb_quote, orb_false_r.
  by destruct (is_quote c).
Qed.

Lemma not_quotes_quote_free d :
  all_pass false (Re.CClass true [Re.CLit (ascii_of_nat 34)]) d = quote_free d.
Proof.
  induction d as [|c d IH]; [done|]. cbn [all_pass quote_free].
  by rewrite IH, not_quote_test.
Qed.

(** A word between quotes: what the group takes has no quote and is not
    empty. *)
Lemma acf_word_sound s caps o :
  In o (Re.run false acf_word s caps) ->
  exists d, s = d +:+ fst o /\ quote_free d = true /\ d <> EmptyString
            /\ snd o = caps.
Proof.
  unfold acf_word. intros Hin.
  apply run_seq_iff in Hin as (o1 & H1 & Hin).
  apply run_seq_iff in Hin as (o2 & H2 & H3).
  rewrite run_repeat in H1, H2, H3.
  apply rep_chr_sound in H1 as (d1 & E1 & P1 & C1 & _).
  apply rep_chr_sound in H2 as (d2 & E2 & P2 & C2 & L2).
  apply rep_chr_sound in H3 as (d3 & E3 & P3 & C3 & _).
  rewrite spaces_blank in P1, P3. rewrite not_quotes_quote_free in P2.
  exists (d1 +:+ d2 +:+ d3). split; [|split; [|split]].
  - rewrite E1, E2, E3. by rewrite !append_assoc.
  - rewrite !quote_free_app, P2. by rewrite !blank_quote_free.
  - destruct d2; [simpl in L2; lia|]. by destruct d1.
  - congruence.
Qed.

Lemma acf_word_complete d t caps :
  quote_free d = true -> d <> EmptyString ->
  In (t, caps) (Re.run false acf_word (d +:+ t) caps).
Proof.
  intros Hd Hne. unfold acf_word.
  apply run_seq_iff. exists (d +:+ t, caps). split.
  { rewrite run_repeat.
    apply (rep_chr_complete false _ true _ 0 EmptyString (d +:+ t) caps);
      [done|simpl; lia|simpl; lia]. }
  cbn [fst snd]. apply run_seq_iff. exists (t, caps). split.
  { rewrite run_repeat. apply rep_chr_complete.
    - by rewrite not_quotes_quote_free.
    - destruct d; [done|simpl; lia].
    - rewrite length_append. lia. }
  cbn [fst snd]. rewrite run_repeat.
  apply (rep_chr_complete false _ true _ 0 EmptyString t caps);
    [done|simpl; lia|simpl; lia].
Qed.

Lemma run_quote s caps o :
  In o (Re.run false (Re.Chr (Re.COne (Re.CLit (ascii_of_nat 34)))) s caps)
  <-> s = String (ascii_of_nat 34) (fst o) /\ snd o = caps.
Proof.
  rewrite run_chr. split.
  - intros (x & s' & -> & Ex & ->). unfold Re.cset_test, Re.catom_test in Ex.
    apply Ascii.eqb_eq in Ex as <-. done.
  - intros [-> <-]. exists (ascii_of_nat 34), (fst o).
    split; [done|]. split; [apply Ascii.eqb_refl|by destruct o].
Qed.

(** Every way to match the pattern at the start of a text reads the text
    as a quoted word, white space, and a quoted word. *)
Lemma acf_regex_sound s caps o :
  In o (Re.run false acf_regex s caps) ->
  exists k w v,
    s = quote +:+ k +:+ quote +:+ w +:+ quote +:+ v +:+ quote +:+ fst o
    /\ quote_free k = true /\ k <> EmptyString
    /\ blank w = true
    /\ quote_free v = true /\ v <> EmptyString
    /\ snd o = (2%nat, v) :: (1%nat, k) :: caps.
Proof.
  unfold acf_regex. intros Hin.
  apply run_seq_iff in Hin as (o1 & H1 & Hin). apply run_quote in H1 as [E1 C1].
  apply run_seq_iff in Hin as (o2 & H2 & Hin).
  apply run_group_iff in H2 as (o2' & H2 & ->).
  apply acf_word_sound in H2 as (k & E2 & Pk & Nk & C2).
  apply run_seq_iff in Hin as (o3 & H3 & Hin). apply run_quote in H3 as [E3 C3].
  apply run_seq_iff in Hin as (o4 & H4 & Hin). rewrite run_repeat in H4.
  apply rep_chr_sound in H4 as (w & E4 & Pw & C4 & _). rewrite spaces_blank in Pw.
  apply run_seq_iff in Hin as (o5 & H5 & Hin). apply run_quote in H5 as [E5 C5].
  apply run_seq_iff in Hin as (o6 & H6 & Hin).
  apply run_group_iff in H6 as (o6' & H6 & ->).
  apply acf_word_sound in H6 as (v & E6 & Pv & Nv & C6).
  apply run_quote in Hin as [E7 C7].
  cbn [fst snd] in *.
  exists k, w, v. split; [|repeat split; try done].
  - rewrite E1, E2, E3, E4, E5, E6, E7.
    rewrite !quote_append, ?append_cons. by rewrite ?append_assoc, ?append_cons.
  - rewrite C7, E6, consumed_append, C6, C5, C4, C3, E2, consumed_append, C2, C1. done.
Qed.

Lemma acf_regex_complete k w v t caps :
  quote_free k = true -> k <> EmptyString -> blank w = true ->
  quote_free v = true -> v <> EmptyString ->
  In (t, (2%nat, v) :: (1%nat, k) :: caps)
     (Re.run false acf_regex
        (quote +:+ k +:+ quote +:+ w +:+ quote +:+ v +:+ quote +:+ t) caps).
Proof.
  intros Pk Nk Pw Pv Nv. unfold acf_regex. rewrite !quote_append.
  apply run_seq_iff. eexists (_, caps). split; [apply run_quote; split; reflexivity|].
  cbn [fst snd]. apply run_seq_iff.
  eexists (_, (1%nat, k) :: caps). split.
  { apply run_group_iff. eexists (_, caps). split.
    - by apply (acf_word_complete k).
    - cbn [fst snd]. by rewrite consumed_append. }
  cbn [fst snd]. apply run_seq_iff.
  eexists (_, _). split; [apply run_quote; split; reflexivity|].
  cbn [fst snd]. apply run_seq_iff. eexists (_, _). split.
  { rewrite run_repeat. apply rep_chr_complete.
    - by rewrite spaces_blank.
    - lia.
    - rewrite length_append. lia. }
  cbn [fst snd]. apply run_seq_iff.
  eexists (_, _). split; [apply run_quote; split; reflexivity|].
  cbn [fst snd]. apply run_seq_iff.
  eexists (_, (2%nat, v) :: (1%nat, k) :: caps). split.
  { apply run_group_iff. eexists (_, _). split.
    - by apply (acf_word_complete v).
    - cbn [fst snd]. by rewrite consumed_append. }
  cbn [fst snd]. apply run_quote. done.
Qed.

End Matcher.

Section Documents.

Lemma search_at_unfold ic r names whole s :
  Re.search_at ic r names whole s =
    match Re.run ic r s [] with
    | o :: _ =>
        Some {| Re.m_start := whole - String.length s;
                Re.m_end := whole - String.length (fst o);
                Re.m_groups := snd o;
                Re.m_names := names |}
    | [] =>
        match s with
        | String _ s' => Re.search_at ic r names whole s'
        | EmptyString => None
        end
    end.
Proof. by destruct s. Qed.

Lemma no_outcome {A} (l : list A) : (forall o, ~ In o l) -> l = [].
Proof. destruct l as [|o l]; [done|]. intros Hn. destruct (Hn o). by left. Qed.

Lemma acf_regex_not_quote c s caps :
  is_quote c = false -> Re.run false acf_regex (String c s) caps = [].
Proof.
  intros Hc. apply no_outcome. intros o Hin.
  apply acf_regex_sound in Hin as (k & w & v & E & _).
  rewrite quote_append in E. injection E as -> _. by rewrite quote_is_quote in Hc.
Qed.

Lemma acf_regex_empty caps : Re.run false acf_regex EmptyString caps = [].
Proof. reflexivity. Qed.

Lemma search_skip names whole before s :
  quote_free before = true ->
  Re.search_at false acf_regex names whole (before +:+ s)
  = Re.search_at false acf_regex names whole s.
Proof.
  induction before as [|c before IH]; [done|]. cbn [quote_free].
  intros Hq. apply andb_true_iff in Hq as [Hc Hq]. apply negb_true_iff in Hc.
  rewrite append_cons, search_at_unfold, (acf_regex_not_quote c _ [] Hc). by apply IH.
Qed.

Lemma search_quote_free names whole s :
  quote_free s = true -> Re.search_at false acf_regex names whole s = None.
Proof.
  intros Hq. rewrite <- (append_empty_r s), search_skip by done. reflexivity.
Qed.

(** White space cannot reach a quote through a text that is not blank. *)
Lemma blank_clash w a z r :
  blank w = true -> quote_free a = true -> blank a = false ->
  a +:+ z = w +:+ String (ascii_of_nat 34) r -> False.
Proof.
  revert w. induction a as [|x a IH]; intros w Hw Ha Hb; [done|].
  cbn [quote_free blank] in Ha, Hb. apply andb_true_iff in Ha as [Hx Ha].
  destruct w as [|y w].
  - rewrite append_cons. intros [= -> _]. by rewrite quote_is_quote in Hx.
  - rewrite !append_cons. intros [= -> E]. cbn [blank] in Hw.
    apply andb_true_iff in Hw as [Hy Hw]. rewrite Hy in Hb. by apply (IH w).
Qed.

(** The name of a section, with what follows it, is no pair. *)
Lemma acf_regex_section name after z caps :
  quote_free name = true -> quote_free after = true -> blank after = false ->
  Re.run false acf_regex (quote +:+ name +:+ quote +:+ after +:+ z) caps = [].
Proof.
  intros Hn Ha Hb. apply no_outcome. intros o Hin.
  apply acf_regex_sound in Hin as (k & w & v & E & Hk & _ & Hw & _).
  rewrite !quote_append in E. injection E as E.
  apply first_quote_unique in E as [_ E]; try done.
  by apply (blank_clash w after z _ Hw Ha Hb E).
Qed.

(** Nor is a pair what lies between the name of a section and the next
    quoted word. *)
Lemma acf_regex_after after z caps :
  quote_free after = true -> solid_start z ->
  Re.run false acf_regex (quote +:+ after +:+ z) caps = [].
Proof.
  intros Ha (before & Hb & Hz). apply no_outcome. intros o Hin.
  apply acf_regex_sound in Hin as (k & w & v & E & Hk & _ & Hw & _).
  rewrite !quote_append in E. injection E as E.
  destruct Hz as [->|(word & more & -> & Hword & Hsolid)].
  - symmetry in E. apply no_quote_then_quote in E; try done.
    by rewrite quote_free_app, Ha, Hb.
  - rewrite !quote_append, <- append_assoc in E.
    apply first_quote_unique in E as [_ E]; try done.
    2:{ by rewrite quote_free_app, Ha, Hb. }
    apply first_quote_unique in E as [-> _]; try done.
    + congruence.
    + by apply blank_quote_free.
Qed.

(** A pair is read as written, and in one way only. *)
Lemma acf_regex_pair key gap value z :
  quote_free key = true -> key <> EmptyString -> blank gap = true ->
  quote_free value = true -> value <> EmptyString ->
  exists rest,
    Re.run false acf_regex
      (quote +:+ key +:+ quote +:+ gap +:+ quote +:+ value +:+ quote +:+ z) []
    = (z, [(2%nat, value); (1%nat, key)]) :: rest.
Proof.
  intros Hk Nk Hg Hv Nv.
  pose proof (acf_regex_complete key gap value z [] Hk Nk Hg Hv Nv) as Hin.
  destruct (Re.run false acf_regex _ []) as [|o rest] eqn:Er; [done|].
  exists rest. f_equal.
  assert (Ho : In o (Re.run false acf_regex
             (quote +:+ key +:+ quote +:+ gap +:+ quote +:+ value +:+ quote +:+ z) []))
    by (rewrite Er; by left).
  apply acf_regex_sound in Ho as (k & w & v & E & Hk' & _ & Hw' & Hv' & _ & Hc).
  rewrite !quote_append in E. injection E as E.
  apply first_quote_unique in E as [<- E]; try done.
  apply first_quote_unique in E as [<- E]; try done; try by apply blank_quote_free.
  apply first_quote_unique in E as [<- Ez]; try done.
  destruct o as [s c]. simpl in *. by rewrite Hc, Ez.
Qed.

Lemma not_blank_not_empty s : blank s = false -> s <> EmptyString.
Proof. by intros Hb ->. Qed.

Lemma document_solid items tail :
  document_ok items tail -> solid_start (acf_document items tail).
Proof.
  intros [Hitems Htail]. destruct items as [|[sep item] rest].
  - exists tail. split; [done|]. by left.
  - apply Forall_cons in Hitems as [[Hsep Hitem] _]. simpl in Hsep.
    exists sep. split; [done|]. right. destruct item as [name after|key gap value].
    + exists name, (after +:+ acf_document rest tail). cbn [item_ok snd] in Hitem.
      repeat (apply andb_true_iff in Hitem as [Hitem ?]).
      split; [done|]. split; [done|]. by apply negb_true_iff.
    + exists key, (gap +:+ quote +:+ value +:+ quote +:+ acf_document rest tail).
      cbn [item_ok snd] in Hitem.
      repeat (apply andb_true_iff in Hitem as [Hitem ?]).
      split; [done|]. split; [done|]. by apply negb_true_iff.
Qed.

Lemma document_ok_rest item rest tail :
  document_ok (item :: rest) tail -> document_ok rest tail.
Proof. intros [Hitems Htail]. apply Forall_cons in Hitems as [_ Hrest]. by split. Qed.

(** The search goes over the sections and stops at the first pair. *)
Lemma search_document names whole items tail :
  document_ok items tail ->
  match first_pair items with
  | None =>
      Re.search_at false acf_regex names whole (acf_document items tail) = None
  | Some (key, value, rest) =>
      exists at_,
        Re.search_at false acf_regex names whole (acf_document items tail)
        = Some {| Re.m_start := at_;
                  Re.m_end := whole - String.length (acf_document rest tail);
                  Re.m_groups := [(2%nat, value); (1%nat, key)];
                  Re.m_names := names |}
  end.
Proof.
  induction items as [|[sep item] rest IH]; intros Hok.
  - simpl. apply search_quote_free. by destruct Hok.
  - pose proof Hok as [Hitems _]. apply Forall_cons in Hitems as [[Hsep Hitem] _].
    simpl in Hsep. cbn [item_ok snd] in Hitem.
    pose proof (document_ok_rest _ _ _ Hok) as Hrest.
    destruct item as [name after|key gap value]; cbn [first_pair acf_document].
    + repeat (apply andb_true_iff in Hitem as [Hitem ?]).
      match goal with H : negb (blank after) = true |- _ => apply negb_true_iff in H end.
      assert (Hgo : Re.search_at false acf_regex names whole
                  (sep +:+ quote +:+ name +:+ quote +:+ after
                   +:+ acf_document rest tail)
                = Re.search_at false acf_regex names whole (acf_document rest tail)).
      { rewrite search_skip by done.
        rewrite search_at_unfold, acf_regex_section by done.
        rewrite quote_append. rewrite search_skip by done.
        change (String (ascii_of_nat 34) (after +:+ acf_document rest tail))
          with (quote +:+ after +:+ acf_document rest tail).
        rewrite search_at_unfold, acf_regex_after by (done || by apply document_solid).
        rewrite quote_append. by rewrite search_skip. }
      specialize (IH Hrest).
      destruct (first_pair rest) as [[[k v] r]|].
      * destruct IH as [at_ IH]. exists at_. by rewrite Hgo.
      * by rewrite Hgo.
    + repeat (apply andb_true_iff in Hitem as [Hitem ?]).
      repeat match goal with
             | H : negb (blank _) = true |- _ =>
                 apply negb_true_iff, not_blank_not_empty in H
             end.
      destruct (acf_regex_pair key gap value (acf_document rest tail))
        as [more Hrun]; try done.
      eexists. rewrite search_skip by done. rewrite search_at_unfold, Hrun. done.
Qed.

Lemma first_pair_none items : first_pair items = None -> written_pairs items = [].
Proof.
  induction items as [|[sep [name after|key gap value]] rest IH]; simpl; try done.
Qed.

Lemma first_pair_some items tail key value rest :
  first_pair items = Some (key, value, rest) ->
  written_pairs items = (key, value) :: written_pairs rest
  /\ (document_ok items tail -> document_ok rest tail)
  /\ exists before,
       acf_document items tail = before +:+ acf_document rest tail
       /\ before <> EmptyString.
Proof.
  induction items as [|[sep [name after|k gap v]] items IH]; simpl; [done| |].
  - intros Hf. destruct (IH Hf) as (Hw & Hok & before & E & Hne).
    split; [done|]. split.
    + intros Hd. by apply Hok, (document_ok_rest (sep, acf_section name after)).
    + exists (sep +:+ quote +:+ name +:+ quote +:+ after +:+ before). split.
      * rewrite E. by rewrite !append_assoc.
      * destruct before; [done|]. intros Hnil.
        apply (f_equal String.length) in Hnil. rewrite !length_append in Hnil.
        simpl in Hnil. lia.
  - intros [= -> -> ->]. split; [done|]. split.
    + apply document_ok_rest.
    + exists (sep +:+ quote +:+ key +:+ quote +:+ gap +:+ quote +:+ value +:+ quote).
      split; [by rewrite !append_assoc|]. intros Hnil.
      apply (f_equal String.length) in Hnil. rewrite !length_append in Hnil.
      simpl in Hnil. lia.
Qed.

Lemma compile_acf : Re.compile ACF_RE = Some (acf_regex, []).
Proof. reflexivity. Qed.

Lemma finditer_document fuel items tail :
  document_ok items tail ->
  (String.length (acf_document items tail) < fuel)%nat ->
  map (fun m => (Re.group m 1, Re.group m 2))
      (Re.finditer_from (H := Re.backtracking) fuel ACF_RE (acf_document items tail))
  = written_pairs items.
Proof.
  revert items. induction fuel as [|fuel IH]; intros items Hok Hfuel; [lia|].
  cbn [Re.finditer_from]. unfold Re.search, Re.backtracking, Re.backtrack_search.
  rewrite compile_acf. cbn [mbind option_bind].
  pose proof (search_document [] (String.length (acf_document items tail))
                items tail Hok) as Hs.
  destruct (first_pair items) as [[[key value] rest]|] eqn:Ef.
  - destruct Hs as [at_ ->].
    destruct (first_pair_some items tail key value rest Ef)
      as (-> & Hrest & before & E & Hne).
    cbn [map]. f_equal. cbn [Re.m_end].
    assert (Hend : Nat.max 1 (String.length (acf_document items tail)
                              - String.length (acf_document rest tail))
                   = String.length before).
    { rewrite E, length_append. destruct before; [done|]. simpl. lia. }
    rewrite Hend. rewrite E at 1. rewrite drop_append.
    apply IH; [by apply Hrest|].
    rewrite E, length_append in Hfuel. destruct before; [done|]. simpl in Hfuel. lia.
  - rewrite Hs. by rewrite first_pair_none.
Qed.

(** X18.  [parse_acf] reads back what a manifest says, on the matcher of
    this file.  Take a text made of quoted section names, each followed by
    some text that is not blank (its brace), and of pairs of a quoted key
    and a quoted value with white space between them at most; let the
    words between quotes hold no quote and not be blank, and the text
    around the items hold no quote.  Then the pattern finds the pairs, in
    their order, and nothing else, and [parse_acf] returns the map of the
    keys to the values, both stripped, the last value of a key. *)
Theorem parse_acf_reads_back (items : list (string * acf_item)) (tail : string)
    (Hok : document_ok items tail) :
  let text := acf_document items tail in
  acf_pairs (H := Re.backtracking) text = stored_pairs items
  /\ exists data,
       parse_acf (H := Re.backtracking) (fun _ => Some text) = Return data
       /\ forall k v, data !! k = Some v <-> last_binding (stored_pairs items) k v.
Proof.
  cbv zeta.
  assert (Hpairs : acf_pairs (H := Re.backtracking) (acf_document items tail)
                   = stored_pairs items).
  { unfold acf_pairs, stored_pairs, Re.finditer.
    rewrite <- (finditer_document (S (String.length (acf_document items tail)))
                  items tail Hok) by lia.
    by rewrite map_map. }
  split; [exact Hpairs|].
  unfold parse_acf, _read_file_with_retry. cbn [retry_loop].
  eexists. split; [reflexivity|]. intros k v. rewrite Hpairs.
  rewrite foldl_insert_lookup. split; [|by left].
  intros [Hl|[_ Hm]]; [done|]. by rewrite lookup_empty in Hm.
Qed.

End Documents.

(** X18: an instance, on a manifest as Steam writes it. *)
Lemma parse_acf_reads_back_witness :
  document_ok steam_manifest (newline +:+ "}" +:+ newline)
  /\ acf_pairs (H := Re.backtracking)
       (acf_document steam_manifest (newline +:+ "}" +:+ newline))
     = [("appid", "12345"); ("name", "Test Game"); ("StateFlags", "1026")].
Proof.
  assert (Hok : document_ok steam_manifest (newline +:+ "}" +:+ newline)).
  { split; [|reflexivity]. repeat constructor. }
  split; [exact Hok|].
  exact (proj1 (parse_acf_reads_back steam_manifest (newline +:+ "}" +:+ newline) Hok)).
Defined.

(** X18: an empty value is outside these texts, and is not read back:
    the pattern takes the white space around it for a key and a value,
    and the pair after it is lost. *)
Lemma empty_value_derails :
  acf_pairs (H := Re.backtracking)
    (quote +:+ "appid" +:+ quote +:+ " " +:+ quote +:+ "12345" +:+ quote +:+ " "
     +:+ quote +:+ "betakey" +:+ quote +:+ " " +:+ quote +:+ quote +:+ " "
     +:+ quote +:+ "name" +:+ quote +:+ " " +:+ quote +:+ "Game" +:+ quote)
  = [("appid", "12345"); ("", "")].
Proof. by vm_compute. Qed.

(** ** The age of the rate entries *)

Section RateEntryAge.
Context `{Re.PyRe}.

Lemma rate_matcher_recorded now line self :
  exists recorded,
    rate_entries (flow_state (rate_matcher now line self))
    = rate_entries self ++ recorded
    /\ Forall (fun e => within now (entry_ts e) MAX_AGE_SEC) recorded.
Proof.
  assert (Hsame : exists recorded,
            rate_entries self = rate_entries self ++ recorded
            /\ Forall (fun e => within now (entry_ts e) MAX_AGE_SEC) recorded).
  { exists []. by rewrite app_nil_r. }
  unfold rate_matcher.
  destruct (Re.search true _LINE_RE line) as [m|]; simpl; [|done].
  destruct (Py.strptime _) as [ts|]; simpl; [|done].
  destruct (Py.total_seconds_gt _ _) eqn:Eg; simpl; [done|].
  destruct (Py.float _) as [value|]; simpl; [|done].
  destruct (speed_bytes _ _) as [speed|]; simpl; [|done].
  destruct (hold_rate_frame ts speed self) as (_ & _ & _ & He & _).
  destruct (owning_app line _) as [[a|]|]; simpl; rewrite ?He; try done.
  exists [(ts, a, Re.group m 2)]. split; [done|].
  constructor; [|done]. by apply total_seconds_gt_within.
Qed.

Lemma process_line_recorded now self line :
  exists recorded,
    rate_entries (process_line now self line) = rate_entries self ++ recorded
    /\ Forall (fun e => within now (entry_ts e) MAX_AGE_SEC) recorded.
Proof.
  unfold process_line.
  destruct (rate_matcher_recorded now line self) as (recorded & He & Hr).
  destruct (rate_matcher now line self) as [s|s]; simpl in He.
  - destruct (lifecycle_matcher_frame now line (depot_matcher line s)) as (_ & _ & _ & ->).
    destruct (depot_matcher_frame line s) as (_ & _ & _ & ->). by exists recorded.
  - by exists recorded.
Qed.

Lemma process_lines_recorded now lines self :
  exists recorded,
    rate_entries (foldl (process_line now) self lines) = rate_entries self ++ recorded
    /\ Forall (fun e => within now (entry_ts e) MAX_AGE_SEC) recorded.
Proof.
  revert self. induction lines as [|line lines IH]; intros self.
  - exists []. by rewrite app_nil_r.
  - cbn [foldl]. destruct (IH (process_line now self line)) as (r2 & -> & H2).
    destruct (process_line_recorded now self line) as (r1 & -> & H1).
    exists (r1 ++ r2). split; [by rewrite app_assoc|]. by apply Forall_app.
Qed.

Lemma scan_recorded now lines self :
  recorded_recent now (rate_entries self) (rate_entries (scan now lines self))
  /\ Forall (fun e => within now (entry_ts e) PRUNE_AGE_SEC)
       (rate_entries (scan now lines self)).
Proof.
  unfold scan.
  destruct (process_lines_recorded now lines self) as (recorded & He & Hr).
  unfold prune. cbn [rate_entries set_rate_entries set_recent_events].
  rewrite He, filter_app. split.
  - eexists _, _. split; [done|]. split; [apply sublist_filter|].
    apply Forall_forall. intros e Hin. apply list_elem_of_filter in Hin as [_ Hin].
    rewrite Forall_forall in Hr. by apply Hr.
  - rewrite <- filter_app. apply Forall_forall. intros e Hin.
    apply list_elem_of_filter in Hin as [Hin _]. by apply total_seconds_le_within in Hin.
Qed.

(** X19.  The age of the rate entries.  After every refresh the rate
    entries are some of those that were held, in their order (none of them
    after a reload), followed by those recorded from the lines read, each
    at most 180 s old at the clock of the refresh.  A refresh that reads
    lines leaves no entry older than 3600 s; one that reads none prunes
    nothing. *)
Theorem rate_entries_age (self : LogParser) (file : log_file)
    (full_load : bool) (now : Z) :
  let refreshed := _update_log_state self file full_load now in
  recorded_recent now
    (if reloads self file full_load then [] else rate_entries self)
    (rate_entries refreshed)
  /\ (lines_read self file full_load <> [] ->
      Forall (fun e => within now (entry_ts e) PRUNE_AGE_SEC) (rate_entries refreshed))
  /\ (reloads self file full_load = false -> lines_read self file full_load = [] ->
      rate_entries refreshed = rate_entries self).
Proof.
  cbv zeta. rewrite update_log_state_unfold.
  assert (Hsame : forall l : list rate_entry, recorded_recent now l l).
  { intros l. exists l, []. by rewrite app_nil_r. }
  destruct file as [| |size|text]; [by repeat split..| |].
  { destruct (size <? last_pos self)%nat; by repeat split. }
  destruct (reloads self (Content text) full_load) eqn:Er.
  - destruct (scan_recorded now (lines_read self (Content text) full_load)
                {| last_pos := String.length text; latest_rate := None;
                   recent_events := []; depot_to_app := ∅; rate_entries := [] |})
      as [Hrec Hage].
    split; [exact Hrec|]. split; [by intros _|done].
  - destruct (lines_read self (Content text) full_load) as [|l ls] eqn:El.
    + split; [apply Hsame|]. by split.
    + destruct (scan_recorded now (l :: ls) (set_last_pos (String.length text) self))
        as [Hrec Hage].
      split; [exact Hrec|]. split; [by intros _|done].
Qed.

End RateEntryAge.

(** ** The unit of a rate, in any case *)

Lemma ord_bounds c : 0 <= Py.ord c < 256.
Proof. unfold Py.ord. pose proof (nat_ascii_bounded c). lia. Qed.

Lemma chr_ord c : Py.chr (Py.ord c) = c.
Proof. unfold Py.chr, Py.ord. rewrite Nat2Z.id. apply ascii_nat_embedding. Qed.

Lemma ord_chr n : 0 <= n < 256 -> Py.ord (Py.chr n) = n.
Proof.
  intros Hn. unfold Py.chr, Py.ord. rewrite nat_ascii_embedding by lia. lia.
Qed.

Lemma ord_inj a b : Py.ord a = Py.ord b -> a = b.
Proof. intros E. rewrite <- (chr_ord a), <- (chr_ord b). by rewrite E. Qed.

Lemma lower_char_upper c :
  65 <= Py.ord c <= 90 -> Py.lower_char c = Py.chr (Py.ord c + 32).
Proof.
  intros Hc. unfold Py.lower_char.
  replace (65 <=? Py.ord c) with true by (symmetry; apply Z.leb_le; lia).
  by replace (Py.ord c <=? 90) with true by (symmetry; apply Z.leb_le; lia).
Qed.

Lemma lower_char_other c :
  ~ 65 <= Py.ord c <= 90 -> Py.lower_char c = c.
Proof.
  intros Hc. unfold Py.lower_char.
  destruct (65 <=? Py.ord c) eqn:E1; [|done].
  destruct (Py.ord c <=? 90) eqn:E2; [|done].
  apply Z.leb_le in E1, E2. lia.
Qed.

(** [lower] makes equal exactly the characters that are the same
    letter. *)
Lemma same_letter_lower a b :
  same_letter a b <-> Py.lower_char a = Py.lower_char b.
Proof.
  pose proof (ord_bounds a) as Ha. pose proof (ord_bounds b) as Hb. split.
  - intros [->|[[Hu E]|[Hu E]]]; [done| |].
    + rewrite (lower_char_upper a Hu), (lower_char_other b) by lia.
      by rewrite <- E, chr_ord.
    + rewrite (lower_char_upper b Hu), (lower_char_other a) by lia.
      by rewrite <- E, chr_ord.
  - intros E.
    destruct (decide (65 <= Py.ord a <= 90)) as [Hua|Hua];
      destruct (decide (65 <= Py.ord b <= 90)) as [Hub|Hub].
    + rewrite !lower_char_upper in E by done. left. apply ord_inj.
      apply (f_equal Py.ord) in E. rewrite !ord_chr in E by lia. lia.
    + rewrite lower_char_upper, lower_char_other in E by done.
      right; left. split; [done|]. rewrite <- E. rewrite ord_chr by lia. done.
    + rewrite lower_char_other, (lower_char_upper b) in E by done.
      right; right. split; [done|]. rewrite E. rewrite ord_chr by lia. done.
    + rewrite !lower_char_other in E by done. by left.
Qed.

Lemma caseless_lower s t : caseless s t <-> Py.lower s = Py.lower t.
Proof.
  revert t. induction s as [|a s IH]; intros [|b t]; simpl; try done.
  rewrite same_letter_lower, IH. split.
  - by intros [-> ->].
  - by intros [= -> ->].
Qed.

(** The characters that are the same letter as a given one. *)
Lemma same_letter_cases a b :
  same_letter a b ->
  a = b
  \/ ((65 <=? Py.ord b) && (Py.ord b <=? 90) = true /\ a = Py.chr (Py.ord b + 32))
  \/ ((97 <=? Py.ord b) && (Py.ord b <=? 122) = true /\ a = Py.chr (Py.ord b - 32)).
Proof.
  intros [->|[[Hu E]|[Hu E]]]; [by left| |].
  - right; right. split.
    + apply andb_true_iff. rewrite !Z.leb_le. lia.
    + rewrite E. replace (Py.ord a + 32 - 32) with (Py.ord a) by lia.
      by rewrite chr_ord.
  - right; left. split.
    + apply andb_true_iff. rewrite !Z.leb_le. lia.
    + by rewrite <- E, chr_ord.
Qed.

Ltac letter_cases H :=
  apply same_letter_cases in H; vm_compute in H;
  destruct H as [->|[[? ->]|[? ->]]]; try discriminate.

(** With the matcher of this file, a rate line is accepted with its unit
    in whatever case. *)
Lemma units_in_any_case unit :
  (caseless unit "KB/s" ->
   exists v, accepted_rate (H := Re.backtracking) (t0 + 60 * Py.second) (rate_line unit)
             = Some (t0, v) /\ (v == 10752)%Q)
  /\ (caseless unit "MB/s" ->
      exists v, accepted_rate (H := Re.backtracking) (t0 + 60 * Py.second) (rate_line unit)
                = Some (t0, v) /\ (v == 11010048)%Q)
  /\ (caseless unit "Mbps" ->
      exists v, accepted_rate (H := Re.backtracking) (t0 + 60 * Py.second) (rate_line unit)
                = Some (t0, v) /\ (v == 1312500)%Q).
Proof.
  repeat split; intros Hu;
    destruct unit as [|a [|b [|c [|d [|e unit]]]]]; simpl in Hu; try tauto;
    destruct Hu as (Ha & Hb & Hc & Hd & _);
    letter_cases Ha; letter_cases Hb; letter_cases Hc; letter_cases Hd;
    (eexists; split; [vm_compute; reflexivity|reflexivity]).
Qed.

Section Units.
Context `{Re.PyRe}.

Lemma speed_bytes_caseless unit value v :
  speed_bytes (Py.lower unit) value = Some v ->
  (caseless unit "KB/s" /\ v == value * 1024)%Q
  \/ (caseless unit "MB/s" /\ v == value * 1048576)%Q
  \/ (caseless unit "Mbps" /\ v == value * 125000)%Q.
Proof.
  intros Hs. apply speed_bytes_spec in Hs. rewrite !caseless_lower.
  exact Hs.
Qed.

Lemma speed_bytes_of_caseless unit value :
  (caseless unit "KB/s" ->
   exists v, speed_bytes (Py.lower unit) value = Some v /\ (v == value * 1024)%Q)
  /\ (caseless unit "MB/s" ->
      exists v, speed_bytes (Py.lower unit) value = Some v /\ (v == value * 1048576)%Q)
  /\ (caseless unit "Mbps" ->
      exists v, speed_bytes (Py.lower unit) value = Some v /\ (v == value * 125000)%Q).
Proof.
  rewrite !caseless_lower. repeat split; intros ->; eexists; (split; [reflexivity|]).
  - reflexivity.
  - ring.
  - field.
Qed.

(** C3.  After every refresh, [latest_rate] is the first of the newest
    samples among the one held before (none after a reload) and the samples
    accepted from the lines read, in their order: a strictly newer sample
    replaces the held one, an equally new one does not.  A line is accepted
    if and only if the rate pattern is found in it, its bracketed timestamp
    is a date at most 180 s older than the clock of the refresh, its number
    is read and its unit is KB/s, MB/s or Mbps written in whatever case;
    its value in bytes per second is then the number times 1024 for KB/s,
    times 1024 * 1024 for MB/s and times 1000000 / 8 for Mbps.  A
    timestamp 181 s old is refused, one 179 s old is accepted.  With the
    matcher of this file, a line with the number 10.5 and a unit in
    whatever case is accepted with 10752, 11010048 or 1312500 bytes per
    second.  [read_latest_speed] returns the held sample if it is at most
    180 s old at the time of the read, and none otherwise.  (Floats are
    exact rationals here.) *)
Theorem latest_throughput_spec (self : LogParser) (file : log_file)
    (full_load : bool) (now : Z) :
  let refreshed := _update_log_state self file full_load now in
  let held := if reloads self file full_load then None else latest_rate self in
  let samples := omap (accepted_rate now) (lines_read self file full_load) in
  (* the sample held after the refresh *)
  match latest_rate refreshed with
  | Some s => first_newest (option_list held ++ samples) s
  | None => held = None /\ samples = []
  end
  (* what is accepted, and its value in bytes per second *)
  /\ (forall line ts v, accepted_rate now line = Some (ts, v) ->
        within now ts MAX_AGE_SEC
        /\ exists m value,
             Re.search true _LINE_RE line = Some m
             /\ Py.strptime (Py.strip (Re.group_named m "ts")) = Some ts
             /\ Py.float (Re.group m 2) = Some value
             /\ ((caseless (Re.group m 3) "KB/s" /\ v == value * 1024)
                 \/ (caseless (Re.group m 3) "MB/s" /\ v == value * 1048576)
                 \/ (caseless (Re.group m 3) "Mbps" /\ v == value * 125000))%Q)
  (* every such line is accepted, in whatever case its unit is written *)
  /\ (forall line m ts value,
        Re.search true _LINE_RE line = Some m ->
        Py.strptime (Py.strip (Re.group_named m "ts")) = Some ts ->
        Py.float (Re.group m 2) = Some value ->
        (~ within now ts MAX_AGE_SEC -> accepted_rate now line = None)
        /\ (within now ts MAX_AGE_SEC ->
            (caseless (Re.group m 3) "KB/s" ->
             exists v, accepted_rate now line = Some (ts, v) /\ (v == value * 1024)%Q)
            /\ (caseless (Re.group m 3) "MB/s" ->
                exists v, accepted_rate now line = Some (ts, v)
                          /\ (v == value * 1048576)%Q)
            /\ (caseless (Re.group m 3) "Mbps" ->
                exists v, accepted_rate now line = Some (ts, v)
                          /\ (v == value * 125000)%Q))
        /\ (ts = now - 181 * Py.second -> accepted_rate now line = None)
        /\ (ts = now - 179 * Py.second ->
            caseless (Re.group m 3) "KB/s" \/ caseless (Re.group m 3) "MB/s"
              \/ caseless (Re.group m 3) "Mbps" ->
            exists v, accepted_rate now line = Some (ts, v)))
  (* on the matcher of this file *)
  /\ (forall unit,
        (caseless unit "KB/s" ->
         exists v, accepted_rate (H := Re.backtracking) (t0 + 60 * Py.second)
                     (rate_line unit) = Some (t0, v) /\ (v == 10752)%Q)
        /\ (caseless unit "MB/s" ->
            exists v, accepted_rate (H := Re.backtracking) (t0 + 60 * Py.second)
                        (rate_line unit) = Some (t0, v) /\ (v == 11010048)%Q)
        /\ (caseless unit "Mbps" ->
            exists v, accepted_rate (H := Re.backtracking) (t0 + 60 * Py.second)
                        (rate_line unit) = Some (t0, v) /\ (v == 1312500)%Q))
  (* what a read gives *)
  /\ (forall now_read,
        let read := read_latest_speed self file now now_read in
        fst read = _update_log_state self file false now
        /\ match latest_rate (fst read) with
           | Some (ts, v) =>
               (within now_read ts MAX_AGE_SEC -> snd read = Some (ts, v))
               /\ (~ within now_read ts MAX_AGE_SEC -> snd read = None)
           | None => snd read = None
           end).
Proof.
  intros refreshed held samples. split; [|split; [|split; [|split]]].
  4: exact units_in_any_case.
  - subst refreshed held samples. rewrite update_log_state_latest_rate.
    apply foldl_newer_spec.
  - intros line ts v. unfold accepted_rate.
    destruct (Re.search true _LINE_RE line) as [m|]; simpl; [|done].
    destruct (Py.strptime _) as [ts'|] eqn:Et; simpl; [|done].
    destruct (Py.total_seconds_gt _ _) eqn:Eg; [done|].
    destruct (Py.float _) as [value|] eqn:Ef; simpl; [|done].
    destruct (speed_bytes _ _) as [speed|] eqn:Es; simpl; [|done].
    intros [= <- <-]. split; [apply total_seconds_gt_within; exact Eg|].
    exists m, value. split; [reflexivity|]. split; [exact Et|]. split; [exact Ef|].
    apply speed_bytes_caseless. exact Es.
  - intros line m ts value Hm Ht Hf.
    destruct (speed_bytes_of_caseless (Re.group m 3) value) as (Hk & Hmb & Hbit).
    assert (Hin : within now ts MAX_AGE_SEC ->
                  forall v, speed_bytes (Py.lower (Re.group m 3)) value = Some v ->
                            accepted_rate now line = Some (ts, v)).
    { intros Hw v Hv. unfold accepted_rate. rewrite Hm. simpl. rewrite Ht. simpl.
      apply total_seconds_gt_within in Hw. rewrite Hw, Hf. simpl. by rewrite Hv. }
    assert (Hout : ~ within now ts MAX_AGE_SEC -> accepted_rate now line = None).
    { intros Hw. unfold accepted_rate. rewrite Hm. simpl. rewrite Ht. simpl.
      destruct (Py.total_seconds_gt (now - ts) MAX_AGE_SEC) eqn:Eg; [done|].
      by apply total_seconds_gt_within in Eg. }
    split; [exact Hout|]. split; [|split].
    + intros Hw. repeat split; intros Hu.
      * destruct (Hk Hu) as (v & Hv & Hq). exists v. split; [by apply Hin|done].
      * destruct (Hmb Hu) as (v & Hv & Hq). exists v. split; [by apply Hin|done].
      * destruct (Hbit Hu) as (v & Hv & Hq). exists v. split; [by apply Hin|done].
    + intros ->. apply Hout. unfold within, MAX_AGE_SEC, Py.second. lia.
    + intros -> Hu.
      assert (Hw : within now (now - 179 * Py.second) MAX_AGE_SEC)
        by (unfold within, MAX_AGE_SEC, Py.second; lia).
      destruct Hu as [Hu|[Hu|Hu]];
        [destruct (Hk Hu) as (v & Hv & _)|destruct (Hmb Hu) as (v & Hv & _)
        |destruct (Hbit Hu) as (v & Hv & _)]; exists v; by apply Hin.
  - intros now_read. unfold read_latest_speed. cbv zeta.
    destruct (latest_rate (_update_log_state self file false now))
      as [[ts v]|] eqn:El; simpl.
    + destruct (Py.total_seconds_le _ _) eqn:E; simpl; rewrite El.
      * apply total_seconds_le_within in E. by split.
      * split; [done|]. split; [|done].
        intros Hw. apply total_seconds_le_within in Hw. congruence.
    + by rewrite El.
Qed.

End Units.

(** ** The cursor and the reload *)

Section Reload.
Context `{Re.PyRe}.
#[local] Arguments Py.strptime : simpl never.
#[local] Arguments Py.int : simpl never.

Lemma rate_matcher_entries now line self :
  rate_entries (flow_state (rate_matcher now line self))
  = rate_entries self ++ option_list (line_rate_entry now (depot_to_app self) line).
Proof.
  unfold rate_matcher, line_rate_entry, accepted_rate.
  destruct (Re.search true _LINE_RE line) as [m|]; simpl; [|by rewrite app_nil_r].
  destruct (Py.strptime _) as [ts|]; simpl; [|by rewrite app_nil_r].
  destruct (Py.total_seconds_gt _ _); simpl; [by rewrite app_nil_r|].
  destruct (Py.float _) as [value|]; simpl; [|by rewrite app_nil_r].
  destruct (speed_bytes _ _) as [speed|]; simpl; [|by rewrite app_nil_r].
  pose proof (hold_rate_frame ts speed self) as (_ & _ & Hd & Hr & _).
  unfold owning_app, rate_app. rewrite Hd.
  destruct (Re.findall "AppID\s+(\d+)" line) as [|a rest].
  - destruct (Re.findall "depot\s+(\d+)" line) as [|depot rest];
      [by rewrite app_nil_r|].
    destruct (depot_to_app self !! depot) as [a|]; simpl; [|by rewrite app_nil_r].
    destruct (Py.int a); simpl; [by rewrite Hr|by rewrite app_nil_r].
  - destruct (Py.int a); simpl; [by rewrite Hr|by rewrite app_nil_r].
Qed.

Lemma process_line_entries now self line :
  rate_entries (process_line now self line)
  = rate_entries self ++ option_list (line_rate_entry now (depot_to_app self) line).
Proof.
  unfold process_line. rewrite <- rate_matcher_entries.
  destruct (rate_matcher now line self) as [s|s]; [|done]. simpl.
  destruct (lifecycle_matcher_frame now line (depot_matcher line s)) as (_ & _ & _ & ->).
  by destruct (depot_matcher_frame line s) as (_ & _ & _ & ->).
Qed.

Lemma process_lines_entries now lines self :
  rate_entries (foldl (process_line now) self lines)
  = rate_entries self ++ rates_read now (depot_to_app self) lines.
Proof.
  revert self. induction lines as [|line lines IH]; intros self; simpl.
  - by rewrite app_nil_r.
  - rewrite IH, process_line_entries.
    destruct (process_line_appends now self line 0) as (_ & _ & ->).
    by rewrite app_assoc.
Qed.

Lemma line_rate_entry_recent now depots line e :
  line_rate_entry now depots line = Some e -> within now (entry_ts e) MAX_AGE_SEC.
Proof.
  unfold line_rate_entry.
  destruct (Re.search true _LINE_RE line) as [m|]; [|done].
  destruct (accepted_rate now line) as [[ts v]|] eqn:Ea; [|done].
  destruct (rate_app depots line) as [app|]; [|done]. simpl. intros [= <-].
  unfold accepted_rate in Ea.
  destruct (Re.search true _LINE_RE line) as [m'|]; simpl in Ea; [|done].
  destruct (Py.strptime _) as [ts'|]; simpl in Ea; [|done].
  destruct (Py.total_seconds_gt _ _) eqn:Eg; [done|].
  destruct (Py.float _) as [value|]; simpl in Ea; [|done].
  destruct (speed_bytes _ _) as [speed|]; simpl in Ea; [|done].
  injection Ea as <- <-. by apply total_seconds_gt_within.
Qed.

Lemma rates_read_recent now depots lines :
  Forall (fun e => within now (entry_ts e) MAX_AGE_SEC) (rates_read now depots lines).
Proof.
  revert depots. induction lines as [|line lines IH]; intros depots; [done|].
  simpl. apply Forall_app. split; [|apply IH].
  destruct (line_rate_entry now depots line) as [e|] eqn:E; [|done].
  constructor; [|done]. by apply (line_rate_entry_recent now depots line).
Qed.

(** The state after the scan of a whole file from the cleared state. *)
Lemma scan_cleared now lines size :
  let cleared :=
    {| last_pos := size; latest_rate := None; recent_events := [];
       depot_to_app := ∅; rate_entries := [] |} in
  let loaded := scan now lines cleared in
  last_pos loaded = size
  /\ match latest_rate loaded with
     | Some s => first_newest (omap (accepted_rate now) lines) s
     | None => omap (accepted_rate now) lines = []
     end
  /\ (forall app, events_of loaded app = events_read now app ∅ lines)
  /\ depot_to_app loaded = depots_read now ∅ lines
  /\ rate_entries loaded = rates_read now ∅ lines.
Proof.
  intros cleared loaded. subst loaded.
  destruct (scan_frame now lines cleared) as [Hpos Hrate].
  split; [done|]. split; [|split; [|split]].
  - rewrite Hrate. pose proof (foldl_newer_spec None (omap (accepted_rate now) lines)) as Hn.
    simpl in *. destruct (foldl newer None _); [done|]. by destruct Hn.
  - intros app.
    destruct (scan_appends now lines cleared app) as [_ ->].
    { unfold well_formed. simpl. constructor. }
    done.
  - unfold scan. destruct (prune_frame now (foldl (process_line now) cleared lines))
      as (_ & _ & ->).
    by destruct (process_lines_appends now lines cleared 0) as (_ & _ & ->).
  - unfold scan, prune. cbn [rate_entries set_rate_entries set_recent_events].
    rewrite process_lines_entries. simpl.
    pose proof (rates_read_recent now ∅ lines) as Hr.
    induction Hr as [|e l He _ IH]; [done|].
    rewrite filter_cons_True; [by rewrite IH|].
    apply total_seconds_le_within. unfold within, MAX_AGE_SEC, PRUNE_AGE_SEC in *.
    unfold entry_ts in He. unfold Py.second in *. lia.
Qed.

(** X20.  A refresh of a file that is read leaves the cursor at the size
    of the file: the cursor does not decrease unless the file is shorter
    than it.  When the file is shorter than the cursor, or a full load is
    asked for, the refresh ends in the state of a new engine made on the
    file, and the indexes hold what the lines of the whole file give, and
    nothing of what was held: the first of the newest samples accepted
    from the lines, for each app the events that the lines record for it,
    the depots that the lines map, and the rate entries that the lines
    record. *)
Theorem reload_reads_whole_file (self : LogParser) (text : string)
    (full_load : bool) (now : Z) :
  let refreshed := _update_log_state self (Content text) full_load now in
  let lines := Py.splitlines text in
  last_pos refreshed = String.length text
  /\ ((last_pos self <= String.length text)%nat ->
      (last_pos self <= last_pos refreshed)%nat)
  /\ (full_load = true \/ (String.length text < last_pos self)%nat ->
      refreshed = __init__ (Content text) now
      /\ match latest_rate refreshed with
         | Some s => first_newest (omap (accepted_rate now) lines) s
         | None => omap (accepted_rate now) lines = []
         end
      /\ (forall app, events_of refreshed app = events_read now app ∅ lines)
      /\ depot_to_app refreshed = depots_read now ∅ lines
      /\ rate_entries refreshed = rates_read now ∅ lines).
Proof.
  intros refreshed lines.
  assert (Hpos : last_pos refreshed = String.length text).
  { subst refreshed. by rewrite update_log_state_last_pos. }
  split; [done|]. split; [lia|]. intros Hreload.
  assert (Er : reloads self (Content text) full_load = true).
  { unfold reloads. destruct Hreload as [->|Hlt]; [done|].
    apply Nat.ltb_lt in Hlt. rewrite Hlt. apply orb_true_r. }
  assert (E : refreshed
              = scan now lines
                  {| last_pos := String.length text; latest_rate := None;
                     recent_events := []; depot_to_app := ∅; rate_entries := [] |}).
  { subst refreshed lines. rewrite update_log_state_unfold, Er.
    unfold lines_read. by rewrite Er. }
  split.
  - rewrite E. unfold __init__. rewrite update_log_state_unfold. by unfold lines_read.
  - rewrite E.
    by destruct (scan_cleared now lines (String.length text)) as (_ & ? & ? & ? & ?).
Qed.

End Reload.

(** C5.  When the file is found shorter than the cursor and its reading
    then fails, the refresh has reset the cursor to 0 and returns with
    every index as it was: nothing is cleared and nothing is read again.
    The next refresh, of the file that can be read again, finds a cursor
    that is not beyond the file: it reads the whole file from the cursor
    and scans its lines onto the indexes of the file that is no more.
    With an engine made on a log of two rate lines of app 12345, cut down
    to one start of app 777: after the failed refresh and the next one, the
    sample and the rate entries of the lines that are gone are still held,
    and app 12345 is answered as the active download, where a new engine
    made on the file holds no sample and no rate entry and answers 777. *)
Theorem truncated_read_failure_keeps_indexes `{Re.PyRe} :
  (forall (self : LogParser) (size : nat) (full_load : bool) (now : Z),
     (size < last_pos self)%nat ->
     let failed := _update_log_state self (ReadFails size) full_load now in
     failed = set_last_pos 0 self
     /\ forall text now',
          _update_log_state failed (Content text) false now'
          = match Py.splitlines text with
            | [] => set_last_pos (String.length text) self
            | lines => scan now' lines (set_last_pos (String.length text) self)
            end)
  /\ (let now := t0 + 10 * Py.second in
      let engine := __init__ (H := Re.backtracking) (Content long_log) now in
      let failed :=
        _update_log_state (H := Re.backtracking) engine
          (ReadFails (String.length short_log)) false now in
      let after :=
        _update_log_state (H := Re.backtracking) failed (Content short_log) false now in
      let renewed := __init__ (H := Re.backtracking) (Content short_log) now in
      (String.length short_log < last_pos engine)%nat
      /\ last_pos failed = 0%nat
      /\ latest_rate failed = latest_rate engine
      /\ rate_entries failed = rate_entries engine
      /\ last_pos after = String.length short_log
      /\ latest_rate after = latest_rate engine
      /\ fst <$> latest_rate engine = Some (t0 + 1 * Py.second)
      /\ latest_rate renewed = None
      /\ rate_entries after
         = [(t0, 12345, "10.5"); (t0 + 1 * Py.second, 12345, "10.5")]
      /\ rate_entries renewed = []
      /\ snd (get_most_recent_active_download (H := Re.backtracking) failed
                (Content short_log) now now) = Some 12345
      /\ snd (get_most_recent_active_download (H := Re.backtracking) renewed
                (Content short_log) now now) = Some 777).
Proof.
  split.
  - intros self size full_load now Hlt failed.
    assert (Ef : failed = set_last_pos 0 self).
    { subst failed. simpl. apply Nat.ltb_lt in Hlt. by rewrite Hlt. }
    split; [exact Ef|]. intros text now'. rewrite Ef.
    rewrite update_log_state_unfold. unfold reloads, lines_read, reloads. simpl.
    by destruct (Py.splitlines text).
  - vm_compute. repeat split; try done. lia.
Qed.

(** ** The order of the retained events *)

(** The descending sort keeps the order of the events of one time. *)
Lemma insert_desc_at_time t (x : event) l :
  at_time t (Py.insert_desc fst x l) = at_time t (x :: l).
Proof.
  unfold at_time. induction l as [|y l IH]; [done|]. simpl.
  destruct (fst y <=? fst x) eqn:E; [done|]. apply Z.leb_gt in E.
  rewrite filter_cons, IH. rewrite !filter_cons.
  destruct (decide (fst x = t)) as [Hx|Hx]; [|done].
  destruct (decide (fst y = t)) as [Hy|Hy]; [lia|done].
Qed.

Lemma sorted_reverse_at_time t (l : list event) :
  at_time t (Py.sorted_reverse fst l) = at_time t l.
Proof.
  induction l as [|x l IH]; [done|].
  change (Py.sorted_reverse fst (x :: l))
    with (Py.insert_desc fst x (Py.sorted_reverse fst l)).
  rewrite insert_desc_at_time. unfold at_time in *. by rewrite !filter_cons, IH.
Qed.

Section RetainedOrder.
Context `{Re.PyRe}.

(** C7, as amended.  On an engine whose event map has distinct keys, a
    refresh keeps the events of an app in the order they had: all of them
    when it reads no line, those not older than 3600 s when it scans
    lines, none after a reload.  After them it appends the events that the
    lines read record for the app, in the order of the lines; they are not
    older than 3600 s.  [get_recent_pause_info] then leaves the list of
    the app it is asked about sorted newest first, with the same events,
    those of one time in the order they had, and the lists of the other
    apps as they were.  With the matcher of this file, a start and a
    cancel of app 12345 are recorded as a start and a pause, in that
    order. *)
Theorem retained_events_order (self : LogParser) (file : log_file)
    (full_load : bool) (now : Z) (app : Z) (Hwf : well_formed self) :
  let refreshed := _update_log_state self file full_load now in
  let lines := lines_read self file full_load in
  (* a refresh keeps the order of what it retains, and appends *)
  (well_formed refreshed
   /\ exists kept appended,
        events_of refreshed app = kept ++ appended
        /\ kept = (if reloads self file full_load then []
                   else match lines with
                        | [] => events_of self app
                        | _ => filter (fresh now) (events_of self app)
                        end)
        /\ appended
           = events_read now app
               (if reloads self file full_load then ∅ else depot_to_app self) lines
        /\ kept `sublist_of`
             (if reloads self file full_load then [] else events_of self app)
        /\ Forall (fresh now) appended
        /\ (lines <> [] -> Forall (fresh now) kept))
  (* the query sorts the list of its app, newest first *)
  /\ (let before := _update_log_state self file false now in
      let after := fst (get_recent_pause_info self file app now) in
      well_formed after
      /\ events_of after app = Py.sorted_reverse fst (events_of before app)
      /\ descending fst (events_of after app)
      /\ events_of after app ≡ₚ events_of before app
      /\ (forall t, at_time t (events_of after app) = at_time t (events_of before app))
      /\ forall other, other <> app -> events_of after other = events_of before other)
  (* what the lines record, on the matcher of this file *)
  /\ events_read (H := Re.backtracking) (t0 + 30 * Py.second) 12345 ∅
       ["[2024-01-01 00:00:00] AppID 12345 update started";
        "[2024-01-01 00:00:20] AppID 12345 update canceled"]
     = [(t0, start); (t0 + 20 * Py.second, pause)].
Proof.
  intros refreshed lines. split; [|split; [|by vm_compute]].
  - destruct (refresh_appends self file full_load now app Hwf) as [Hwf' He].
    destruct (refresh_events self file full_load now app Hwf)
      as (_ & kept & appended & He' & Hsub & Hfresh & Hkept).
    split; [done|]. eexists _, _. split; [exact He|]. split; [done|]. split; [done|].
    fold lines. split; [|split; [apply events_read_fresh|]].
    + destruct (reloads self file full_load); [done|].
      destruct lines; [done|apply sublist_filter].
    + intros Hne. destruct (reloads self file full_load); [done|].
      destruct lines; [done|].
      apply Forall_forall. intros e Hin. by apply list_elem_of_filter in Hin as [? _].
  - intros before after. subst after. unfold get_recent_pause_info. fold before.
    assert (Hwfb : well_formed before).
    { by destruct (refresh_events self file false now app Hwf) as [? _]. }
    destruct (recent_pause_events before app Hwfb) as (Hw & He & Ho).
    split; [done|]. split; [done|]. rewrite He.
    split; [apply sorted_reverse_sorted|]. split; [apply sorted_reverse_perm|].
    split; [intros t; apply sorted_reverse_at_time|done].
Qed.

End RetainedOrder.

(** C7: an instance of the amended statement, on the log of a start and a
    pause. *)
Lemma retained_events_order_witness :
  well_formed init
  /\ well_formed (_update_log_state (H := Re.backtracking) init started_then_paused
                    true (t0 + 30 * Py.second)).
Proof.
  assert (Hwf : well_formed init) by constructor.
  split; [exact Hwf|].
  exact (proj1 (proj1 (retained_events_order (H := Re.backtracking) init
                         started_then_paused true (t0 + 30 * Py.second) 12345 Hwf))).
Defined.

(** ** What [strip] does *)

Lemma blank_app s t : blank (s +:+ t) = blank s && blank t.
Proof.
  induction s as [|c s IH]; [done|]. rewrite append_cons. simpl.
  by rewrite IH, andb_assoc.
Qed.

Lemma blank_rev s : blank (Py.rev s) = blank s.
Proof.
  induction s as [|c s IH]; [done|].
  rewrite rev_cons, blank_app, IH. simpl. rewrite andb_true_r. apply andb_comm.
Qed.

Lemma lstrip_blank b s : blank b = true -> Py.lstrip (b +:+ s) = Py.lstrip s.
Proof.
  induction b as [|c b IH]; [done|]. simpl. rewrite andb_true_iff.
  intros [-> Hb]. by apply IH.
Qed.

Lemma lstrip_solid c s : Py.is_space c = false -> Py.lstrip (String c s) = String c s.
Proof. simpl. by intros ->. Qed.

(** What [lstrip] takes away is white space, and what it leaves does not
    begin with any. *)
Lemma lstrip_split s :
  exists b, s = b +:+ Py.lstrip s /\ blank b = true
            /\ forall c r, Py.lstrip s = String c r -> Py.is_space c = false.
Proof.
  induction s as [|x s (b & E & Hb & Hs)].
  - exists EmptyString. by repeat split.
  - simpl. destruct (Py.is_space x) eqn:Ex.
    + exists (String x b). rewrite append_cons, <- E. simpl. by rewrite Ex, Hb.
    + exists EmptyString. repeat split. intros c r [= <- <-]. done.
Qed.

Lemma rev_empty s : Py.rev s = EmptyString -> s = EmptyString.
Proof.
  intros E. apply (f_equal Py.rev) in E. by rewrite rev_rev in E.
Qed.

Lemma strip_trimmed s : trimmed s (Py.strip s).
Proof.
  unfold Py.strip, Py.rstrip.
  destruct (lstrip_split s) as (b & Es & Hb & Hstart).
  destruct (lstrip_split (Py.rev (Py.lstrip s))) as (a & Er & Ha & Hend).
  set (t := Py.rev (Py.lstrip (Py.rev (Py.lstrip s)))).
  assert (El : Py.lstrip s = t +:+ Py.rev a).
  { rewrite <- (rev_rev (Py.lstrip s)). rewrite Er at 1. by rewrite rev_append. }
  split; [split|].
  - intros c r Et. destruct t as [|c' t'] eqn:Ht; [done|]. injection Et as -> ->.
    apply (Hstart c (r +:+ Py.rev a)). by rewrite El.
  - intros r c Et. apply (Hend c (Py.rev r)).
    fold t in Et. apply (f_equal Py.rev) in Et. unfold t in Et.
    rewrite rev_rev in Et. rewrite Et, rev_append. done.
  - exists b, (Py.rev a). split; [by rewrite <- El|]. split; [done|].
    by rewrite blank_rev.
Qed.

Lemma strip_of_trimmed s t : trimmed s t -> Py.strip s = t.
Proof.
  intros [[Hstart Hend] (b & a & -> & Hb & Ha)].
  unfold Py.strip, Py.rstrip. rewrite (lstrip_blank b _ Hb).
  destruct t as [|c t'].
  - change (EmptyString +:+ a) with a.
    assert (El : Py.lstrip a = EmptyString).
    { rewrite <- (append_empty_r a). rewrite (lstrip_blank a EmptyString Ha). done. }
    by rewrite El.
  - rewrite append_cons, (lstrip_solid c _ (Hstart c t' eq_refl)).
    rewrite <- append_cons, rev_append.
    rewrite lstrip_blank by (by rewrite blank_rev).
    destruct (Py.rev (String c t')) as [|x r] eqn:Er.
    { by apply rev_empty in Er. }
    rewrite lstrip_solid; [by rewrite <- Er, rev_rev|].
    apply (Hend (Py.rev r) x). rewrite <- (rev_rev (String c t')), Er, rev_cons. done.
Qed.

(** [strip] is the one way to trim a text. *)
Lemma trimmed_strip s t : trimmed s t <-> t = Py.strip s.
Proof.
  split; [intros Ht; symmetry; by apply strip_of_trimmed|].
  intros ->. apply strip_trimmed.
Qed.

Lemma map_strip_trimmed (raw : list (string * string)) :
  pairs_trimmed raw (map (fun kv => (Py.strip (fst kv), Py.strip (snd kv))) raw).
Proof.
  unfold pairs_trimmed. induction raw as [|kv raw IH]; constructor; [|done].
  split; apply strip_trimmed.
Qed.

Section ManifestPairs.
Context `{Re.PyRe}.

(** C8.  [parse_acf] raises [ACFParseError] if and only if the three
    attempts to read the file all fail, and raises nothing else; attempts
    after the third are never made.  When an attempt succeeds, after
    failures only, it returns a map: a key is mapped to a value exactly
    when they are the last pair of that key among the pairs that the
    quoted-pair pattern finds in the text, one after the other, each of
    the two texts between the quotes without the white space at its ends.
    A text in which the pattern finds nothing gives the empty map.  With
    the matcher of this file, the pairs found in a text made of quoted
    section names and of pairs of a quoted key and a quoted value are the
    pairs written, in their order, and a text without a quote gives the
    empty map. *)
Theorem parse_acf_spec (read : nat -> option string) :
  (parse_acf read = Raise ACFParseError
   <-> read 0%nat = None /\ read 1%nat = None /\ read 2%nat = None)
  /\ (forall e, parse_acf read = Raise e -> e = ACFParseError)
  /\ (forall (i : nat) content,
        (i < 3)%nat -> read i = Some content ->
        (forall j, (j < i)%nat -> read j = None) ->
        exists data pairs,
          parse_acf read = Return data
          /\ pairs_trimmed
               (map (fun m => (Re.group m 1, Re.group m 2))
                    (Re.finditer ACF_RE content))
               pairs
          /\ (forall k v, data !! k = Some v <-> last_binding pairs k v)
          /\ (Re.finditer ACF_RE content = [] -> data = ∅)
          /\ pairs = acf_pairs content)
  /\ (forall read' : nat -> option string,
        (forall i, (i < 3)%nat -> read i = read' i) ->
        parse_acf read = parse_acf read')
  (* on the matcher of this file *)
  /\ (forall (items : list (string * acf_item)) (tail : string),
        document_ok items tail ->
        exists data pairs,
          parse_acf (H := Re.backtracking) (fun _ => Some (acf_document items tail))
          = Return data
          /\ pairs_trimmed (written_pairs items) pairs
          /\ forall k v, data !! k = Some v <-> last_binding pairs k v)
  /\ (forall text,
        quote_free text = true ->
        parse_acf (H := Re.backtracking) (fun _ => Some text) = Return ∅).
Proof.
  split; [|split; [|split; [|split; [|split]]]].
  - unfold parse_acf. rewrite read_file_with_retry_3.
    destruct (read 0%nat); [split; [done|by intros [? _]]|].
    destruct (read 1%nat); [split; [done|by intros (_ & ? & _)]|].
    destruct (read 2%nat); [split; [done|by intros (_ & _ & ?)]|]. done.
  - unfold parse_acf. rewrite read_file_with_retry_3.
    intros e. destruct (read 0%nat); [done|]. destruct (read 1%nat); [done|].
    destruct (read 2%nat); [done|]. by intros [= <-].
  - unfold parse_acf. rewrite read_file_with_retry_3.
    intros i content Hi Hr Hbefore.
    assert (Hc : match read 0%nat with
                 | Some c => Some c
                 | None => match read 1%nat with Some c => Some c | None => read 2%nat end
                 end = Some content).
    { destruct i as [|[|[|i]]]; [| | |lia].
      - by rewrite Hr.
      - by rewrite (Hbefore 0%nat ltac:(lia)), Hr.
      - by rewrite (Hbefore 0%nat ltac:(lia)), (Hbefore 1%nat ltac:(lia)). }
    rewrite Hc. exists (foldl (fun data kv => <[fst kv := snd kv]> data) ∅
                          (acf_pairs content)), (acf_pairs content).
    split; [done|]. split; [|split; [|split; [|done]]].
    + unfold acf_pairs.
      rewrite <- (map_map (fun m => (Re.group m 1, Re.group m 2))
                    (fun kv => (Py.strip (fst kv), Py.strip (snd kv)))).
      apply map_strip_trimmed.
    + intros k v. rewrite foldl_insert_lookup. rewrite lookup_empty.
      split; [by intros [?|[_ ?]]|by left].
    + unfold acf_pairs. by intros ->.
  - intros read' Heq. unfold parse_acf.
    rewrite !read_file_with_retry_3.
    by rewrite !Heq by lia.
  - intros items tail Hok.
    assert (Hpairs : acf_pairs (H := Re.backtracking) (acf_document items tail)
                     = map (fun kv => (Py.strip (fst kv), Py.strip (snd kv)))
                           (written_pairs items)).
    { unfold acf_pairs, Re.finditer.
      rewrite <- (finditer_document (S (String.length (acf_document items tail)))
                    items tail Hok) by lia.
      by rewrite map_map. }
    unfold parse_acf, _read_file_with_retry. cbn [retry_loop].
    eexists _, _. split; [reflexivity|]. rewrite Hpairs.
    split; [apply map_strip_trimmed|].
    intros k v. rewrite foldl_insert_lookup. rewrite lookup_empty.
    split; [by intros [?|[_ ?]]|by left].
  - intros text Hq.
    assert (Hok : document_ok [] text) by (split; [constructor|done]).
    assert (Hpairs : acf_pairs (H := Re.backtracking) text = []).
    { unfold acf_pairs, Re.finditer.
      pose proof (finditer_document (S (String.length text)) [] text Hok ltac:(simpl; lia))
        as Hf.
      cbn [acf_document written_pairs] in Hf. apply map_eq_nil in Hf.
      by rewrite Hf. }
    unfold parse_acf, _read_file_with_retry. cbn [retry_loop]. by rewrite Hpairs.
Qed.

End ManifestPairs.
